(** * Two Cars: the game-state core of [main.cpp]

    A shallow embedding of the simulation core of the game (obstacle
    spawning, culling, collision resolution, difficulty ramp, input
    dispatch, car animation and high-score persistence) together with the
    properties it satisfies.

    [main.cpp] comes in two releases.  They share the obstacle field and
    the car animation; they differ in the difficulty schedule, in the
    session reset performed by [handleEvents] and in the persistence
    format.  The functions that differ take the release as an argument.

    Conventions of the embedding:
    - [int] values are modelled as unbounded [Z]: the statements are about
      executions in which no signed operation overflows (overflow of
      [int] is undefined behaviour in C++).  Where the width of an [int]
      matters (persistence) the range is stated explicitly.
    - [Uint32] values are modelled as [Z] with the wrap-around modulo
      [2^32] written out ([u32]).
    - every call of [SDL_GetTicks()], [rand()], [std::shuffle] and
      [SDL_GetMouseState] is an input of the function that makes it.
    - [Mix_PlayChannel] and [saveHighscore] invocations are recorded in a
      chronological effect log.
    - a texture member holds one of the four obstacle handles or some
      other pointer value ([None]).  A member without initialiser that
      the code does not assign keeps what its storage held: an input
      where the storage is fresh, and in [spawnObstacle] what the
      previous iteration of the loop body left there.
    - [double] arithmetic on the car position is IEEE 754 binary64,
      rounding to nearest with ties to even; the rotation angle, which
      only the renderer reads, is idealised as a real number. *)

From Stdlib Require Import String Ascii Decimal DecimalString DecimalZ.
From Stdlib Require Import Reals Lra.
From Stdlib Require Floats.SpecFloat.
From Stdlib Require Import ZArith List Bool Lia Permutation.
Import ListNotations.
Open Scope Z_scope.

(* ================================================================= *)
(** ** Constants ([#define]s of main.cpp) *)

(** The macros are textual; every expansion used below is spelled out as
    C++ parses it ([/] is truncating integer division). *)

Definition SCREEN_WIDTH : Z := 405.
Definition SCREEN_HEIGHT : Z := 720.
Definition CAR_WIDTH : Z := SCREEN_WIDTH ÷ 10.
Definition CAR_HEIGHT : Z := SCREEN_HEIGHT ÷ 11.
Definition LANE_WIDTH : Z := SCREEN_WIDTH ÷ 4.
Definition LANE_1 : Z := LANE_WIDTH ÷ 2 - SCREEN_WIDTH ÷ 10 ÷ 2.
Definition LANE_2 : Z := LANE_WIDTH + LANE_WIDTH ÷ 2 - SCREEN_WIDTH ÷ 10 ÷ 2.
Definition LANE_3 : Z := 2 * LANE_WIDTH + LANE_WIDTH ÷ 2 - SCREEN_WIDTH ÷ 10 ÷ 2.
Definition LANE_4 : Z := 3 * LANE_WIDTH + LANE_WIDTH ÷ 2 - SCREEN_WIDTH ÷ 10 ÷ 2.
Definition OBSTACLE_SIZE : Z := SCREEN_WIDTH ÷ 10.

(** [CAR_HEIGHT + 10], as it appears in [spawnObstacle]. *)
Definition MIN_GAP : Z := SCREEN_HEIGHT ÷ 11 + 10.

(** Wrap-around of [Uint32] arithmetic. *)
Definition u32 (z : Z) : Z := z mod 2 ^ 32.

(* ================================================================= *)
(** ** Data model *)

Inductive GameState : Type := MAIN_MENU | NORMAL_MODE | DEATH_SCREEN.

Definition GameState_eqb (a b : GameState) : bool :=
  match a, b with
  | MAIN_MENU, MAIN_MENU | NORMAL_MODE, NORMAL_MODE
  | DEATH_SCREEN, DEATH_SCREEN => true
  | _, _ => false
  end.

(** The four obstacle texture handles held by [Game] ([redCircle],
    [redBox], [blueCircle], [blueBox]).  [loadAssets] creates them from
    four different images; with the images loaded they are pairwise
    distinct, which is what the enumeration expresses. *)
Inductive Texture : Type := redBox | redCircle | blueBox | blueCircle.

Definition Texture_eqb (a b : Texture) : bool :=
  match a, b with
  | redBox, redBox | redCircle, redCircle
  | blueBox, blueBox | blueCircle, blueCircle => true
  | _, _ => false
  end.

Record SDL_Rect : Type := mkRect { rx : Z; ry : Z; rw : Z; rh : Z }.

(** [class Entity].  [srcRect] is only read by the renderer and is left
    out.  [texture] is a pointer: one of the four handles, or [None] for
    any other value. *)
Record Entity : Type := mkEntity {
  texture : option Texture;
  destRect : SDL_Rect;
  collected : bool
}.

(** [o.texture == t] for one of the four handles. *)
Definition texture_is (t : Texture) (o : Entity) : bool :=
  match texture o with
  | Some t' => Texture_eqb t' t
  | None => false
  end.

Definition set_collected (b : bool) (o : Entity) : Entity :=
  {| texture := texture o; destRect := destRect o; collected := b |}.

Definition move_down (dy : Z) (o : Entity) : Entity :=
  {| texture := texture o;
     destRect := {| rx := rx (destRect o); ry := ry (destRect o) + dy;
                    rw := rw (destRect o); rh := rh (destRect o) |};
     collected := collected o |}.

(** [class Car]: the [Entity] part that the core reads ([destRect]) and
    the two animations.  [angle] is a [double]; it is idealised as a real
    number. *)
Record Car : Type := mkCar {
  carRect : SDL_Rect;
  angle : R;
  rotating : bool;
  rotationStartTime : Z;
  moving : bool;
  targetX : Z;
  moveStartTime : Z
}.

Definition rotationDuration : Z := 200.
Definition moveDuration : Z := 200.

(** Sounds handed to [Mix_PlayChannel]. *)
Inductive Sound : Type := circlePickupSound | deathSound | circleMissSound.

(** What the core asks of its collaborators, in the order it asks. *)
Inductive Effect : Type :=
| PlaySound (s : Sound)
| SaveHighscore (value : Z).

(** The two persistence files (one per release) and whether a file can be
    opened for writing. *)
Record Disk : Type := mkDisk {
  highscore_txt : option string;
  player_dat : option (list Z);
  writable : bool
}.

(** The bobbing "Press Any Key" text of the menu. *)
Record MenuText : Type := mkMenuText {
  playTextYPosition : Z;
  playTextDirection : Z;
  initialPlayTextYPosition : Z;
  playTextRect1_y : Z;
  playTextRect1_h : Z;
  playTextRect2_y : Z
}.

(** [class Game], with the function-local statics ([patternTimer] of
    [spawnObstacle], [lastIncreaseTime] of [increaseDifficulty]) and the
    environment (disk, effect log) made explicit. *)
Record Game : Type := mkGame {
  isRunning : bool;
  currentState : GameState;
  obstacles : list Entity;
  blueCar : Car;
  redCar : Car;
  startTime : Z;
  score : Z;
  spawnRate : Z;
  obstacleSpeed : Z;
  highscore : Z;
  menu : MenuText;
  patternTimer : Z;
  lastIncreaseTime : Z;
  disk : Disk;
  effects : list Effect
}.

(** Field updates ([g.f = v]). *)

Definition set_isRunning (v : bool) (g : Game) : Game :=
  {| isRunning := v; currentState := currentState g;
     obstacles := obstacles g; blueCar := blueCar g; redCar := redCar g;
     startTime := startTime g; score := score g; spawnRate := spawnRate g;
     obstacleSpeed := obstacleSpeed g; highscore := highscore g;
     menu := menu g; patternTimer := patternTimer g;
     lastIncreaseTime := lastIncreaseTime g; disk := disk g;
     effects := effects g |}.

Definition set_currentState (v : GameState) (g : Game) : Game :=
  {| isRunning := isRunning g; currentState := v; obstacles := obstacles g;
     blueCar := blueCar g; redCar := redCar g; startTime := startTime g;
     score := score g; spawnRate := spawnRate g;
     obstacleSpeed := obstacleSpeed g; highscore := highscore g;
     menu := menu g; patternTimer := patternTimer g;
     lastIncreaseTime := lastIncreaseTime g; disk := disk g;
     effects := effects g |}.

Definition set_obstacles (v : list Entity) (g : Game) : Game :=
  {| isRunning := isRunning g; currentState := currentState g;
     obstacles := v; blueCar := blueCar g; redCar := redCar g;
     startTime := startTime g; score := score g; spawnRate := spawnRate g;
     obstacleSpeed := obstacleSpeed g; highscore := highscore g;
     menu := menu g; patternTimer := patternTimer g;
     lastIncreaseTime := lastIncreaseTime g; disk := disk g;
     effects := effects g |}.

Definition set_blueCar (v : Car) (g : Game) : Game :=
  {| isRunning := isRunning g; currentState := currentState g;
     obstacles := obstacles g; blueCar := v; redCar := redCar g;
     startTime := startTime g; score := score g; spawnRate := spawnRate g;
     obstacleSpeed := obstacleSpeed g; highscore := highscore g;
     menu := menu g; patternTimer := patternTimer g;
     lastIncreaseTime := lastIncreaseTime g; disk := disk g;
     effects := effects g |}.

Definition set_redCar (v : Car) (g : Game) : Game :=
  {| isRunning := isRunning g; currentState := currentState g;
     obstacles := obstacles g; blueCar := blueCar g; redCar := v;
     startTime := startTime g; score := score g; spawnRate := spawnRate g;
     obstacleSpeed := obstacleSpeed g; highscore := highscore g;
     menu := menu g; patternTimer := patternTimer g;
     lastIncreaseTime := lastIncreaseTime g; disk := disk g;
     effects := effects g |}.

Definition set_startTime (v : Z) (g : Game) : Game :=
  {| isRunning := isRunning g; currentState := currentState g;
     obstacles := obstacles g; blueCar := blueCar g; redCar := redCar g;
     startTime := v; score := score g; spawnRate := spawnRate g;
     obstacleSpeed := obstacleSpeed g; highscore := highscore g;
     menu := menu g; patternTimer := patternTimer g;
     lastIncreaseTime := lastIncreaseTime g; disk := disk g;
     effects := effects g |}.

Definition set_score (v : Z) (g : Game) : Game :=
  {| isRunning := isRunning g; currentState := currentState g;
     obstacles := obstacles g; blueCar := blueCar g; redCar := redCar g;
     startTime := startTime g; score := v; spawnRate := spawnRate g;
     obstacleSpeed := obstacleSpeed g; highscore := highscore g;
     menu := menu g; patternTimer := patternTimer g;
     lastIncreaseTime := lastIncreaseTime g; disk := disk g;
     effects := effects g |}.

Definition set_spawnRate (v : Z) (g : Game) : Game :=
  {| isRunning := isRunning g; currentState := currentState g;
     obstacles := obstacles g; blueCar := blueCar g; redCar := redCar g;
     startTime := startTime g; score := score g; spawnRate := v;
     obstacleSpeed := obstacleSpeed g; highscore := highscore g;
     menu := menu g; patternTimer := patternTimer g;
     lastIncreaseTime := lastIncreaseTime g; disk := disk g;
     effects := effects g |}.

Definition set_obstacleSpeed (v : Z) (g : Game) : Game :=
  {| isRunning := isRunning g; currentState := currentState g;
     obstacles := obstacles g; blueCar := blueCar g; redCar := redCar g;
     startTime := startTime g; score := score g; spawnRate := spawnRate g;
     obstacleSpeed := v; highscore := highscore g; menu := menu g;
     patternTimer := patternTimer g;
     lastIncreaseTime := lastIncreaseTime g; disk := disk g;
     effects := effects g |}.

Definition set_highscore (v : Z) (g : Game) : Game :=
  {| isRunning := isRunning g; currentState := currentState g;
     obstacles := obstacles g; blueCar := blueCar g; redCar := redCar g;
     startTime := startTime g; score := score g; spawnRate := spawnRate g;
     obstacleSpeed := obstacleSpeed g; highscore := v; menu := menu g;
     patternTimer := patternTimer g;
     lastIncreaseTime := lastIncreaseTime g; disk := disk g;
     effects := effects g |}.

Definition set_menu (v : MenuText) (g : Game) : Game :=
  {| isRunning := isRunning g; currentState := currentState g;
     obstacles := obstacles g; blueCar := blueCar g; redCar := redCar g;
     startTime := startTime g; score := score g; spawnRate := spawnRate g;
     obstacleSpeed := obstacleSpeed g; highscore := highscore g; menu := v;
     patternTimer := patternTimer g;
     lastIncreaseTime := lastIncreaseTime g; disk := disk g;
     effects := effects g |}.

Definition set_patternTimer (v : Z) (g : Game) : Game :=
  {| isRunning := isRunning g; currentState := currentState g;
     obstacles := obstacles g; blueCar := blueCar g; redCar := redCar g;
     startTime := startTime g; score := score g; spawnRate := spawnRate g;
     obstacleSpeed := obstacleSpeed g; highscore := highscore g;
     menu := menu g; patternTimer := v;
     lastIncreaseTime := lastIncreaseTime g; disk := disk g;
     effects := effects g |}.

Definition set_lastIncreaseTime (v : Z) (g : Game) : Game :=
  {| isRunning := isRunning g; currentState := currentState g;
     obstacles := obstacles g; blueCar := blueCar g; redCar := redCar g;
     startTime := startTime g; score := score g; spawnRate := spawnRate g;
     obstacleSpeed := obstacleSpeed g; highscore := highscore g;
     menu := menu g; patternTimer := patternTimer g; lastIncreaseTime := v;
     disk := disk g; effects := effects g |}.

Definition set_disk (v : Disk) (g : Game) : Game :=
  {| isRunning := isRunning g; currentState := currentState g;
     obstacles := obstacles g; blueCar := blueCar g; redCar := redCar g;
     startTime := startTime g; score := score g; spawnRate := spawnRate g;
     obstacleSpeed := obstacleSpeed g; highscore := highscore g;
     menu := menu g; patternTimer := patternTimer g;
     lastIncreaseTime := lastIncreaseTime g; disk := v;
     effects := effects g |}.

Definition set_effects (v : list Effect) (g : Game) : Game :=
  {| isRunning := isRunning g; currentState := currentState g;
     obstacles := obstacles g; blueCar := blueCar g; redCar := redCar g;
     startTime := startTime g; score := score g; spawnRate := spawnRate g;
     obstacleSpeed := obstacleSpeed g; highscore := highscore g;
     menu := menu g; patternTimer := patternTimer g;
     lastIncreaseTime := lastIncreaseTime g; disk := disk g;
     effects := v |}.

Definition set_carRect (v : SDL_Rect) (c : Car) : Car :=
  {| carRect := v; angle := angle c; rotating := rotating c;
     rotationStartTime := rotationStartTime c; moving := moving c;
     targetX := targetX c; moveStartTime := moveStartTime c |}.

Definition set_angle (v : R) (c : Car) : Car :=
  {| carRect := carRect c; angle := v; rotating := rotating c;
     rotationStartTime := rotationStartTime c; moving := moving c;
     targetX := targetX c; moveStartTime := moveStartTime c |}.

Definition set_rotating (v : bool) (c : Car) : Car :=
  {| carRect := carRect c; angle := angle c; rotating := v;
     rotationStartTime := rotationStartTime c; moving := moving c;
     targetX := targetX c; moveStartTime := moveStartTime c |}.

Definition set_rotationStartTime (v : Z) (c : Car) : Car :=
  {| carRect := carRect c; angle := angle c; rotating := rotating c;
     rotationStartTime := v; moving := moving c; targetX := targetX c;
     moveStartTime := moveStartTime c |}.

Definition set_moving (v : bool) (c : Car) : Car :=
  {| carRect := carRect c; angle := angle c; rotating := rotating c;
     rotationStartTime := rotationStartTime c; moving := v;
     targetX := targetX c; moveStartTime := moveStartTime c |}.

Definition set_targetX (v : Z) (c : Car) : Car :=
  {| carRect := carRect c; angle := angle c; rotating := rotating c;
     rotationStartTime := rotationStartTime c; moving := moving c;
     targetX := v; moveStartTime := moveStartTime c |}.

Definition set_moveStartTime (v : Z) (c : Car) : Car :=
  {| carRect := carRect c; angle := angle c; rotating := rotating c;
     rotationStartTime := rotationStartTime c; moving := moving c;
     targetX := targetX c; moveStartTime := v |}.

(* ================================================================= *)
(** ** The two releases *)

Inductive Release : Type := Original | Revised.

(** Play a sound / record an effect. *)
Definition emit (e : Effect) (g : Game) : Game :=
  set_effects (effects g ++ [e]) g.

(* ================================================================= *)
(** ** Persistence: [saveHighscore] and [loadHighscore] *)

(** *** Original release: [highscore.txt], formatted text I/O *)

(** [file << highscore]: the decimal numeral of the value. *)
Definition insert_int (h : Z) : string :=
  NilZero.string_of_int (Z.to_int h).

Definition is_space (c : ascii) : bool :=
  let n := N_of_ascii c in
  ((n =? 32) || ((9 <=? n) && (n <=? 13)))%N.

Definition is_digit (c : ascii) : bool :=
  let n := N_of_ascii c in ((48 <=? n) && (n <=? 57))%N.

Fixpoint skip_ws (s : string) : string :=
  match s with
  | String c s' => if is_space c then skip_ws s' else s
  | EmptyString => s
  end.

Fixpoint take_digits (s : string) : string :=
  match s with
  | String c s' => if is_digit c then String c (take_digits s') else EmptyString
  | EmptyString => EmptyString
  end.

Definition INT_MAX : Z := 2 ^ 31 - 1.
Definition INT_MIN : Z := - 2 ^ 31.

Definition clamp_int (z : Z) : Z :=
  if z <? INT_MIN then INT_MIN else if INT_MAX <? z then INT_MAX else z.

(** [file >> highscore] (C++11) with [old] the value of [highscore]
    before: leading white space is skipped; if nothing is left the
    extraction fails before anything is stored and [highscore] stays
    [old]; otherwise [num_get] reads an optional sign and the longest run
    of digits: no digit at all stores 0, a value out of range stores the
    nearest bound. *)
Definition extract_int (old : Z) (s : string) : Z :=
  match skip_ws s with
  | EmptyString => old
  | String c s' =>
      let '(neg, body) :=
        if Ascii.eqb c "-" then (true, s')
        else if Ascii.eqb c "+" then (false, s')
        else (false, String c s') in
      match NilZero.uint_of_string (take_digits body) with
      | Some d => clamp_int (Z.of_int (if neg then Neg d else Pos d))
      | None => 0
      end
  end.

(** *** Revised release: [player.dat], four raw bytes, XOR-obfuscated *)

Definition XOR_KEY : Z := 0xA5A5A5A5.

(** Conversion of an unsigned 32-bit value to [int] (two's complement). *)
Definition to_int32 (u : Z) : Z :=
  let m := u32 u in if m <? 2 ^ 31 then m else m - 2 ^ 32.

(** [h ^ 0xA5A5A5A5] stored in an [int]: the literal is [unsigned], so
    [h] is converted to [unsigned], and the result back to [int]. *)
Definition xor_key (h : Z) : Z := to_int32 (Z.lxor (u32 h) XOR_KEY).

(** The object representation of an [int], least significant byte first
    (the build targets x86; the same layout is used to write and read). *)
Definition bytes_of_int (v : Z) : list Z :=
  let u := u32 v in
  [Z.land u 255; Z.land (Z.shiftr u 8) 255;
   Z.land (Z.shiftr u 16) 255; Z.land (Z.shiftr u 24) 255].

Definition int_of_bytes (bs : list Z) : Z :=
  to_int32 (fold_right (fun b acc => b + 256 * acc) 0 bs).

(** [file.read(&encodedHighscore, 4)]: the bytes available, up to four,
    overwrite the front of the local, whose initial value [uninit] is
    indeterminate. *)
Definition read_int (uninit : Z) (content : list Z) : Z :=
  let got := firstn 4 content in
  int_of_bytes (got ++ skipn (length got) (bytes_of_int uninit)).

Definition set_highscore_txt (v : option string) (d : Disk) : Disk :=
  {| highscore_txt := v; player_dat := player_dat d; writable := writable d |}.

Definition set_player_dat (v : option (list Z)) (d : Disk) : Disk :=
  {| highscore_txt := highscore_txt d; player_dat := v; writable := writable d |}.

Definition loadHighscore (r : Release) (uninit : Z) (g : Game) : Game :=
  match r with
  | Original =>
      match highscore_txt (disk g) with
      | Some s => set_highscore (extract_int (highscore g) s) g
      | None => g
      end
  | Revised =>
      match player_dat (disk g) with
      | Some bs => set_highscore (xor_key (read_int uninit bs)) g
      | None => g
      end
  end.

Definition saveHighscore (r : Release) (g : Game) : Game :=
  let g := emit (SaveHighscore (highscore g)) g in
  if writable (disk g) then
    match r with
    | Original =>
        set_disk (set_highscore_txt (Some (insert_int (highscore g))) (disk g)) g
    | Revised =>
        let encodedHighscore := xor_key (highscore g) in
        set_disk (set_player_dat (Some (bytes_of_int encodedHighscore)) (disk g)) g
    end
  else g.

(* ================================================================= *)
(** ** [Game::spawnObstacle] *)

Record SpawnFlags : Type := mkFlags {
  redBoxSpawned : bool;
  blueBoxSpawned : bool;
  redCircleSpawned : bool;
  blueCircleSpawned : bool
}.

Definition noneSpawned : SpawnFlags := mkFlags false false false false.

(** [obstacles.back()], defined when the vector is not empty. *)
Definition back (l : list Entity) : option Entity :=
  match rev l with
  | o :: _ => Some o
  | [] => None
  end.

(** The choice of texture on the red side: the new value of
    [obstacle.texture] and of the flags.  [coin] is what [rand()] returns
    if the condition gets to call it.  [tex] is what [obstacle.texture]
    holds when the [if] is reached: [Entity obstacle;] gives the member no
    initial value, and there is no final [else], so when neither branch
    is taken the member keeps [tex]. *)
Definition chooseRed (coin : Z) (tex : option Texture) (f : SpawnFlags)
    : option Texture * SpawnFlags :=
  if negb (redBoxSpawned f) && (Z.rem coin 2 =? 0) then
    (Some redBox,
     mkFlags true (blueBoxSpawned f) (redCircleSpawned f) (blueCircleSpawned f))
  else if negb (redCircleSpawned f) then
    (Some redCircle,
     mkFlags (redBoxSpawned f) (blueBoxSpawned f) true (blueCircleSpawned f))
  else (tex, f).

Definition chooseBlue (coin : Z) (tex : option Texture) (f : SpawnFlags)
    : option Texture * SpawnFlags :=
  if negb (blueBoxSpawned f) && (Z.rem coin 2 =? 0) then
    (Some blueBox,
     mkFlags (redBoxSpawned f) true (redCircleSpawned f) (blueCircleSpawned f))
  else if negb (blueCircleSpawned f) then
    (Some blueCircle,
     mkFlags (redBoxSpawned f) (blueBoxSpawned f) (redCircleSpawned f) true)
  else (tex, f).

Definition is_one_of (a b : Texture) (t : option Texture) : bool :=
  match t with
  | Some t' => Texture_eqb t' a || Texture_eqb t' b
  | None => false
  end.

(** The spacing adjustment guarded by [tex == a || tex == b] and
    [!obstacles.empty()]. *)
Definition keepGap (a b : Texture) (tex : option Texture)
    (obstacles : list Entity) (y : Z) : Z :=
  if is_one_of a b tex then
    match back obstacles with
    | Some lastObstacle =>
        if ry (destRect lastObstacle) <? MIN_GAP
        then ry (destRect lastObstacle) - MIN_GAP
        else y
    | None => y
    end
  else y.

(** First half of the loop body: texture, flags and [destRect.x] from
    the lane value [lane = lanes[i]]. *)
Definition chooseSide (lane : Z) (coin : Z) (tex : option Texture)
    (f : SpawnFlags) : option Texture * SpawnFlags * Z :=
  if (lane =? 0) || (lane =? 1) then
    let '(tex, f') := chooseRed coin tex f in
    (tex, f', if lane =? 0 then LANE_3 else LANE_4)
  else
    let '(tex, f') := chooseBlue coin tex f in
    (tex, f', if lane =? 2 then LANE_1 else LANE_2).

(** Second half: [destRect.y], first [-destRect.h], then the two spacing
    adjustments. *)
Definition spawnY (tex : option Texture) (obstacles : list Entity) : Z :=
  let h := OBSTACLE_SIZE in
  let y := - h in
  let y := keepGap redBox blueBox tex obstacles y in
  keepGap redCircle blueCircle tex obstacles y.

(** One iteration of the [for] loop.  The state carried from one
    iteration to the next is the storage of [obstacle.texture] (the loop
    body's object occupies the same storage each time round), the four
    flags and the vector. *)
Definition spawnOne (lane : Z) (coin : Z)
    (st : option Texture * SpawnFlags * list Entity)
    : option Texture * SpawnFlags * list Entity :=
  let '(slot, f, obstacles) := st in
  let '(tex, f', x) := chooseSide lane coin slot f in
  let obstacle :=
    mkEntity tex (mkRect x (spawnY tex obstacles) OBSTACLE_SIZE OBSTACLE_SIZE)
             false in
  (tex, f', obstacles ++ [obstacle]).

(** [lanes] is the vector after [std::shuffle]; [coin0] and [coin1] are
    the values of [rand()] available to the first and second iteration;
    [uninit] is what the storage of [obstacle.texture] holds when the loop
    is entered. *)
Definition spawnObstacle (lanes : list Z) (coin0 coin1 : Z)
    (uninit : option Texture) (g : Game) : Game :=
  if patternTimer g =? 0 then
    let st := (uninit, noneSpawned, obstacles g) in
    let st := spawnOne (nth 0 lanes 0) coin0 st in
    let st := spawnOne (nth 1 lanes 0) coin1 st in
    set_patternTimer (spawnRate g) (set_obstacles (snd st) g)
  else
    set_patternTimer (patternTimer g - 1) g.

(** The entities appended by one call. *)
Definition spawned (lanes : list Z) (coin0 coin1 : Z) (uninit : option Texture)
    (g : Game) : list Entity :=
  skipn (length (obstacles g))
        (obstacles (spawnObstacle lanes coin0 coin1 uninit g)).

(* ================================================================= *)
(** ** [Game::updateObstacles] *)

Definition offScreen (o : Entity) : bool := SCREEN_HEIGHT <? ry (destRect o).

Definition isCircle (o : Entity) : bool :=
  texture_is redCircle o || texture_is blueCircle o.

Definition missedCircle (o : Entity) : bool := isCircle o && negb (collected o).

(** [erase(remove_if(...))] with the predicate of [updateObstacles]: the
    predicate is applied to each element once, in order, and its side
    effects land in the game. *)
Fixpoint cull (os : list Entity) (g : Game) : Game * list Entity :=
  match os with
  | [] => (g, [])
  | o :: rest =>
      if offScreen o then
        let g :=
          if missedCircle o
          then set_currentState DEATH_SCREEN (emit (PlaySound circleMissSound) g)
          else g in
        cull rest g
      else
        let '(g, kept) := cull rest g in (g, o :: kept)
  end.

Definition updateObstacles (g : Game) : Game :=
  let moved := map (move_down (obstacleSpeed g)) (obstacles g) in
  let '(g, kept) := cull moved g in
  set_obstacles kept g.

(* ================================================================= *)
(** ** [Game::checkCollision] *)

(** [SDL_HasIntersection] of SDL2 ([SDL_rect.c]): empty rectangles never
    intersect, otherwise the overlap must be non-empty on both axes. *)
Definition SDL_RectEmpty (r : SDL_Rect) : bool := (rw r <=? 0) || (rh r <=? 0).

Definition overlap1 (a alen b blen : Z) : bool :=
  let Amin := a in
  let Amax := Amin + alen in
  let Bmin := b in
  let Bmax := Bmin + blen in
  let Amin := if Bmin >? Amin then Bmin else Amin in
  let Amax := if Bmax <? Amax then Bmax else Amax in
  negb (Amax <=? Amin).

Definition SDL_HasIntersection (A B : SDL_Rect) : bool :=
  if SDL_RectEmpty A || SDL_RectEmpty B then false
  else overlap1 (rx A) (rw A) (rx B) (rw B) && overlap1 (ry A) (rh A) (ry B) (rh B).

(** The part of the loop body that tests one car: [box] is lethal,
    [circle] is collected once. *)
Definition collideWith (car : SDL_Rect) (box circle : Texture)
    (st : Game * Entity) : Game * Entity :=
  let '(g, obstacle) := st in
  if SDL_HasIntersection car (destRect obstacle) then
    if texture_is box obstacle then
      (set_currentState DEATH_SCREEN (emit (PlaySound deathSound) g), obstacle)
    else if texture_is circle obstacle && negb (collected obstacle) then
      (emit (PlaySound circlePickupSound) (set_score (score g + 1) g),
       set_collected true obstacle)
    else (g, obstacle)
  else (g, obstacle).

Definition collideOne (g : Game) (obstacle : Entity) : Game * Entity :=
  let st := collideWith (carRect (redCar g)) redBox redCircle (g, obstacle) in
  collideWith (carRect (blueCar g)) blueBox blueCircle st.

(** [for (auto &obstacle : obstacles)]: no [break], every element is
    visited. *)
Fixpoint collisionLoop (os : list Entity) (g : Game) : Game * list Entity :=
  match os with
  | [] => (g, [])
  | o :: rest =>
      let '(g, o') := collideOne g o in
      let '(g, rest') := collisionLoop rest g in
      (g, o' :: rest')
  end.

Definition checkCollision (r : Release) (g : Game) : Game :=
  let '(g, os) := collisionLoop (obstacles g) g in
  let g := set_obstacles (filter (fun o => negb (collected o)) os) g in
  if GameState_eqb (currentState g) DEATH_SCREEN && (score g >? highscore g) then
    saveHighscore r (set_highscore (score g) g)
  else g.

(* ================================================================= *)
(** ** [Game::increaseDifficulty] *)

(** The two schedules: [elapsedTime % 15] with [spawnRate > 10] in the
    original release, [elapsedTime % 30] with [spawnRate > 20] in the
    revised one. *)
Definition rampInterval (r : Release) : Z :=
  match r with Original => 15 | Revised => 30 end.

Definition spawnRateGuard (r : Release) : Z :=
  match r with Original => 10 | Revised => 20 end.

Definition increaseDifficulty (r : Release) (currentTime : Z) (g : Game) : Game :=
  let elapsedTime := u32 (currentTime - startTime g) ÷ 1000 in
  if (Z.rem elapsedTime (rampInterval r) =? 0)
     && (u32 (currentTime - lastIncreaseTime g) >=? 1000)
  then
    let g := if spawnRate g >? spawnRateGuard r
             then set_spawnRate (spawnRate g - 20) g else g in
    let g := if obstacleSpeed g <? 15
             then set_obstacleSpeed (obstacleSpeed g + 2) g else g in
    set_lastIncreaseTime currentTime g
  else g.

(* ================================================================= *)
(** ** [Car::updateRotation] and [Car::updateMovement] *)

Definition updateRotation (currentTime : Z) (c : Car) : Car :=
  if rotating c then
    let elapsedTime := u32 (currentTime - rotationStartTime c) in
    if elapsedTime <? rotationDuration then
      set_angle (15 * sin (PI / IZR rotationDuration * IZR elapsedTime))%R c
    else
      set_rotating false (set_angle 0%R c)
  else c.

Definition set_x (x : Z) (r : SDL_Rect) : SDL_Rect :=
  {| rx := x; ry := ry r; rw := rw r; rh := rh r |}.

(** [double] is IEEE 754 binary64 (53 bits of precision, exponents up to
    1024); every operation rounds its exact result to the nearest value,
    ties to even. *)
Definition double : Type := SpecFloat.spec_float.

Definition double_add : double -> double -> double := SpecFloat.SFadd 53 1024.
Definition double_mul : double -> double -> double := SpecFloat.SFmul 53 1024.
Definition double_div : double -> double -> double := SpecFloat.SFdiv 53 1024.

(** Conversion of an [int] or [Uint32] to [double] (exact: the value
    has fewer than 53 bits). *)
Definition double_of_int (z : Z) : double :=
  SpecFloat.binary_normalize 53 1024 z 0 false.

(** Conversion of a [double] to [int]: the fractional part is discarded.
    The conversion is undefined for a value outside the range of [int],
    an infinity or a NaN; none arises from the operands used here, and
    the last two are shown as 0. *)
Definition int_of_double (d : double) : Z :=
  match d with
  | SpecFloat.S754_finite s m e => SpecFloat.cond_Zopp s (Z.shiftl (Zpos m) e)
  | _ => 0
  end.

(** In [destRect.x + t * (targetX - destRect.x)] the difference is
    computed on [int]s, the product and the sum on [double]s, and the
    assignment converts the sum back to [int]. *)
Definition updateMovement (currentTime : Z) (c : Car) : Car :=
  if moving c then
    let elapsedTime := u32 (currentTime - moveStartTime c) in
    if elapsedTime <? moveDuration then
      let t := double_div (double_of_int elapsedTime) (double_of_int moveDuration) in
      let x := rx (carRect c) in
      set_carRect
        (set_x (int_of_double
                  (double_add (double_of_int x)
                              (double_mul t (double_of_int (targetX c - x)))))
               (carRect c)) c
    else
      set_moving false (set_carRect (set_x (targetX c) (carRect c)) c)
  else c.

(* ================================================================= *)
(** ** [Game::handleEvents] *)

Inductive SDL_Event : Type :=
| SDL_QUIT
| SDL_KEYDOWN (sym : Z)
| SDL_MOUSEBUTTONDOWN (button : Z)
| SDL_OTHER.

Definition SDLK_ESCAPE : Z := 27.
Definition SDLK_a : Z := 97.
Definition SDLK_d : Z := 100.
Definition SDLK_h : Z := 104.
Definition SDLK_r : Z := 114.

(** Set once by [loadAssets]. *)
Definition restartButtonRect : SDL_Rect :=
  mkRect (SCREEN_WIDTH ÷ 2 - 50) (SCREEN_HEIGHT ÷ 2 - 20) 100 40.
Definition homeButtonRect : SDL_Rect :=
  mkRect (SCREEN_WIDTH ÷ 2 - 50) (SCREEN_HEIGHT ÷ 2 + 30) 100 40.

Definition clicked (b : SDL_Rect) (x y : Z) : bool :=
  (x >=? rx b) && (x <=? rx b + rw b) && (y >=? ry b) && (y <=? ry b + rh b).

Definition blueRest : SDL_Rect :=
  mkRect LANE_1 (SCREEN_HEIGHT - 100) CAR_WIDTH CAR_HEIGHT.
Definition redRest : SDL_Rect :=
  mkRect LANE_4 (SCREEN_HEIGHT - 100) CAR_WIDTH CAR_HEIGHT.

(** [score = 0; obstacles.clear(); spawnRate = 80; obstacleSpeed = 6;] *)
Definition resetSession (g : Game) : Game :=
  set_obstacleSpeed 6 (set_spawnRate 80 (set_obstacles [] (set_score 0 g))).

(** [Game::resetCars] (revised release only). *)
Definition resetCars (g : Game) : Game :=
  let g := set_blueCar (set_carRect blueRest (blueCar g)) g in
  let g := set_redCar (set_carRect redRest (redCar g)) g in
  resetSession g.

(** A lane-toggle key: [home] is the lane tested, [other] the lane next
    to it; [tMove] and [tRotate] are the two [SDL_GetTicks()] values. *)
Definition startToggle (home other : Z) (tMove tRotate : Z) (c : Car) : Car :=
  let c := if rx (carRect c) =? home then set_targetX other c
           else set_targetX home c in
  let c := set_moving true c in
  let c := set_moveStartTime tMove c in
  let c := set_rotating true c in
  set_rotationStartTime tRotate c.

(** The [NORMAL_MODE] keys that both releases treat alike. *)
Definition laneKeys (sym : Z) (t1 t2 : Z) (g : Game) : Game :=
  if sym =? SDLK_a then
    set_blueCar (startToggle LANE_1 LANE_2 t1 t2 (blueCar g)) g
  else if sym =? SDLK_d then
    set_redCar (startToggle LANE_4 LANE_3 t1 t2 (redCar g)) g
  else g.

(** [event] is the event that the [switch] examines after
    [SDL_PollEvent] (its [type] and, for a key, its [keysym.sym]),
    [(mx, my)] what [SDL_GetMouseState] reports, [t1] and [t2] the values
    of the first and second [SDL_GetTicks()] call of the branch taken. *)
Definition handleEvents (r : Release) (event : SDL_Event) (mx my : Z)
    (t1 t2 : Z) (g : Game) : Game :=
  match r with
  | Original =>
      match event with
      | SDL_QUIT => set_isRunning false g
      | SDL_KEYDOWN sym =>
          match currentState g with
          | MAIN_MENU => set_startTime t1 (set_currentState NORMAL_MODE g)
          | NORMAL_MODE =>
              if sym =? SDLK_ESCAPE then set_currentState MAIN_MENU g
              else laneKeys sym t1 t2 g
          | DEATH_SCREEN =>
              if sym =? SDLK_r then
                let g := set_currentState NORMAL_MODE g in
                let g := set_obstacles [] (set_score 0 g) in
                let g := set_startTime t1 g in
                set_obstacleSpeed 6 (set_spawnRate 80 g)
              else if sym =? SDLK_h then
                resetSession (set_currentState MAIN_MENU g)
              else g
          end
      | SDL_MOUSEBUTTONDOWN _ =>
          match currentState g with
          | DEATH_SCREEN =>
              if clicked restartButtonRect mx my then
                let g := set_currentState NORMAL_MODE g in
                let g := set_obstacles [] (set_score 0 g) in
                let g := set_startTime t1 g in
                set_obstacleSpeed 6 (set_spawnRate 80 g)
              else if clicked homeButtonRect mx my then
                resetSession (set_currentState MAIN_MENU g)
              else g
          | _ => g
          end
      | SDL_OTHER => g
      end
  | Revised =>
      match event with
      | SDL_QUIT => set_isRunning false g
      | SDL_KEYDOWN sym =>
          match currentState g with
          | MAIN_MENU =>
              resetCars (set_startTime t1 (set_currentState NORMAL_MODE g))
          | NORMAL_MODE =>
              if sym =? SDLK_ESCAPE then
                resetSession (set_currentState MAIN_MENU g)
              else laneKeys sym t1 t2 g
          | DEATH_SCREEN =>
              if sym =? SDLK_r then
                resetCars (set_currentState NORMAL_MODE (set_startTime t1 g))
              else if sym =? SDLK_h then
                resetCars (set_currentState MAIN_MENU (set_startTime t1 g))
              else g
          end
      | SDL_MOUSEBUTTONDOWN _ =>
          match currentState g with
          | MAIN_MENU =>
              resetCars (set_startTime t1 (set_currentState NORMAL_MODE g))
          | DEATH_SCREEN =>
              if clicked restartButtonRect mx my then
                resetCars (set_startTime t1 (set_currentState NORMAL_MODE g))
              else if clicked homeButtonRect mx my then
                resetCars (set_currentState MAIN_MENU g)
              else g
          | NORMAL_MODE => g
          end
      | SDL_OTHER => g
      end
  end.

(* ================================================================= *)
(** ** [Game::update] *)

Definition textSpeed : Z := 1.
Definition animationRange : Z := 10.

Definition updateMenuAnimation (m : MenuText) : MenuText :=
  let y := playTextYPosition m + textSpeed * playTextDirection m in
  let d := if (y <=? initialPlayTextYPosition m - animationRange)
              || (y >=? initialPlayTextYPosition m + animationRange)
           then playTextDirection m * -1 else playTextDirection m in
  {| playTextYPosition := y; playTextDirection := d;
     initialPlayTextYPosition := initialPlayTextYPosition m;
     playTextRect1_y := y; playTextRect1_h := playTextRect1_h m;
     playTextRect2_y := y + playTextRect1_h m |}.

(** What one tick reads from outside: the five [SDL_GetTicks()] values
    (difficulty, then rotation and movement of the blue and of the red
    car), the randomness offered to [spawnObstacle] and what the storage
    of its local [obstacle.texture] holds. *)
Record TickInput : Type := mkTick {
  tDifficulty : Z;
  tBlueRotation : Z;
  tBlueMovement : Z;
  tRedRotation : Z;
  tRedMovement : Z;
  lanes : list Z;
  coin0 : Z;
  coin1 : Z;
  uninitTexture : option Texture
}.

Definition update (r : Release) (i : TickInput) (g : Game) : Game :=
  match currentState g with
  | NORMAL_MODE =>
      let g := updateObstacles g in
      let g := checkCollision r g in
      let g := increaseDifficulty r (tDifficulty i) g in
      let g := spawnObstacle (lanes i) (coin0 i) (coin1 i) (uninitTexture i) g in
      let g := set_blueCar (updateRotation (tBlueRotation i) (blueCar g)) g in
      let g := set_blueCar (updateMovement (tBlueMovement i) (blueCar g)) g in
      let g := set_redCar (updateRotation (tRedRotation i) (redCar g)) g in
      set_redCar (updateMovement (tRedMovement i) (redCar g)) g
  | MAIN_MENU => set_menu (updateMenuAnimation (menu g)) g
  | DEATH_SCREEN => g
  end.

(* ================================================================= *)
(** ** The game after construction *)

(** The members as their initialisers and [loadAssets] leave them, before
    [loadHighscore] runs.  Members without initialiser that are written
    before they are read ([targetX], the start times) are shown as 0. *)
Definition newCar (rest : SDL_Rect) : Car :=
  {| carRect := rest; angle := 0%R; rotating := false; rotationStartTime := 0;
     moving := false; targetX := 0; moveStartTime := 0 |}.

Definition newGame (d : Disk) (m : MenuText) (now : Z) : Game :=
  {| isRunning := true; currentState := MAIN_MENU; obstacles := [];
     blueCar := newCar blueRest; redCar := newCar redRest;
     startTime := now; score := 0; spawnRate := 80; obstacleSpeed := 6;
     highscore := 0; menu := m; patternTimer := 0; lastIncreaseTime := 0;
     disk := d; effects := [] |}.

(* ================================================================= *)
(** ** [Game::init], [Game::clean] and [main] *)

(** The part of [Game::init] that the core sees when SDL and the font
    library start up: [loadAssets], [startTime = SDL_GetTicks()], then
    [loadHighscore].  [uninit] is as in [loadHighscore]. *)
Definition init (r : Release) (d : Disk) (m : MenuText) (now uninit : Z) : Game :=
  loadHighscore r uninit (newGame d m now).

(** [Game::clean]: textures, fonts, sounds and the window are released,
    then [saveHighscore()] runs. *)
Definition clean (r : Release) (g : Game) : Game := saveHighscore r g.

(** What one turn of the [while] loop of [main] reads: the inputs of
    [handleEvents], then those of [update]. *)
Record FrameInput : Type := mkFrame {
  fi_event : SDL_Event;
  fi_mx : Z;
  fi_my : Z;
  fi_t1 : Z;
  fi_t2 : Z;
  fi_tick : TickInput
}.

(** The body of the loop without [render] and the frame delay, which
    read the game and do not write it. *)
Definition frame (r : Release) (fi : FrameInput) (g : Game) : Game :=
  update r (fi_tick fi)
    (handleEvents r (fi_event fi) (fi_mx fi) (fi_my fi) (fi_t1 fi) (fi_t2 fi) g).

(** [while (game->running()) { ... }] over the inputs of the frames to
    come; the loop ends when [isRunning] is found false. *)
Fixpoint mainLoop (r : Release) (fis : list FrameInput) (g : Game) : Game :=
  match fis with
  | [] => g
  | fi :: rest => if isRunning g then mainLoop r rest (frame r fi g) else g
  end.

(** [main] once the audio device is open: [init], the loop, [clean]. *)
Definition main (r : Release) (d : Disk) (m : MenuText) (now uninit : Z)
    (fis : list FrameInput) : Game :=
  clean r (mainLoop r fis (init r d m now uninit)).

(* ================================================================= *)
(** * Vocabulary of the properties *)

(** Names for what the statements below talk about: the entities of a
    spawned pair, lane and kind predicates, what a collision pass picks
    up, the log of [saveHighscore] calls, runs of the difficulty ramp,
    sample games.  None of it is part of the program. *)

(** ** Spawned pairs *)

Section SpawnedPair.

Variables (lanes : list Z) (coin0 coin1 : Z) (uninit : option Texture)
          (g : Game).

(** The two entities of a pair, named after the loop iterations. *)
Definition firstChoice : option Texture * SpawnFlags * Z :=
  chooseSide (nth 0 lanes 0) coin0 uninit noneSpawned.

Definition firstSpawn : Entity :=
  let '(tex, _, x) := firstChoice in
  mkEntity tex (mkRect x (spawnY tex (obstacles g)) OBSTACLE_SIZE OBSTACLE_SIZE)
           false.

Definition secondChoice : option Texture * SpawnFlags * Z :=
  chooseSide (nth 1 lanes 0) coin1 (fst (fst firstChoice)) (snd (fst firstChoice)).

Definition secondSpawn : Entity :=
  let '(tex, _, x) := secondChoice in
  mkEntity tex
           (mkRect x (spawnY tex (obstacles g ++ [firstSpawn]))
                   OBSTACLE_SIZE OBSTACLE_SIZE)
           false.

End SpawnedPair.

(** How many entities of a list carry texture [t]. *)
Definition count_texture (t : Texture) (l : list Entity) : nat :=
  List.length (filter (texture_is t) l).

Definition redLane (x : Z) : bool := (x =? LANE_3) || (x =? LANE_4).
Definition blueLane (x : Z) : bool := (x =? LANE_1) || (x =? LANE_2).

Definition redTexture (t : Texture) : bool :=
  match t with redBox | redCircle => true | blueBox | blueCircle => false end.

(** The lane x-coordinate that [spawnObstacle] derives from a shuffled
    value. *)
Definition laneX (lane : Z) : Z :=
  if lane =? 0 then LANE_3
  else if lane =? 1 then LANE_4
  else if lane =? 2 then LANE_1
  else LANE_2.

(** The entity has a definite kind, of the colour of its lane. *)
Definition kindOfItsLane (o : Entity) : Prop :=
  exists t, texture o = Some t /\ redTexture t = redLane (rx (destRect o)).

(** "One entity on a red-side lane, the other on a blue-side lane, each
    with a definite kind." *)
Definition one_per_side_with_kinds (new : list Entity) : Prop :=
  exists a b,
    (new = [a; b] \/ new = [b; a])
    /\ redLane (rx (destRect a)) = true
    /\ blueLane (rx (destRect b)) = true
    /\ texture a <> None
    /\ texture b <> None.

(** ** Culling and collisions *)

(** The entities after the move, and those of them that the call erases. *)
Definition movedObstacles (g : Game) : list Entity :=
  map (move_down (obstacleSpeed g)) (obstacles g).

Definition culled (g : Game) : list Entity :=
  filter offScreen (movedObstacles g).

Section Collision.

Variables (red blue : SDL_Rect).

(** A box touching the car of its colour. *)
Definition lethal (o : Entity) : bool :=
  (SDL_HasIntersection red (destRect o) && texture_is redBox o)
  || (SDL_HasIntersection blue (destRect o) && texture_is blueBox o).

(** An uncollected circle touching the car of its colour. *)
Definition picked (o : Entity) : bool :=
  negb (collected o)
  && ((SDL_HasIntersection red (destRect o) && texture_is redCircle o)
      || (SDL_HasIntersection blue (destRect o) && texture_is blueCircle o)).

(** What the loop leaves in place of [o], and how many it picks up. *)
Definition mark (o : Entity) : Entity :=
  if picked o then set_collected true o else o.

Definition picks (os : list Entity) : Z :=
  Z.of_nat (List.length (filter picked os)).

End Collision.

(** The values with which [saveHighscore] was invoked, oldest first. *)
Fixpoint saveCalls (l : list Effect) : list Z :=
  match l with
  | [] => []
  | SaveHighscore v :: l' => v :: saveCalls l'
  | PlaySound _ :: l' => saveCalls l'
  end.

(** What a run of the loop changes and what it leaves alone. *)
Record LoopResult (red blue : SDL_Rect) (os : list Entity) (g g' : Game) : Prop := {
  lr_score : score g' = score g + picks red blue os;
  lr_state : currentState g' =
             if existsb (lethal red blue) os then DEATH_SCREEN else currentState g;
  lr_redCar : redCar g' = redCar g;
  lr_blueCar : blueCar g' = blueCar g;
  lr_highscore : highscore g' = highscore g;
  lr_disk : disk g' = disk g;
  lr_saves : saveCalls (effects g') = saveCalls (effects g);
  lr_isRunning : isRunning g' = isRunning g;
  lr_startTime : startTime g' = startTime g;
  lr_spawnRate : spawnRate g' = spawnRate g;
  lr_obstacleSpeed : obstacleSpeed g' = obstacleSpeed g;
  lr_patternTimer : patternTimer g' = patternTimer g;
  lr_lastIncreaseTime : lastIncreaseTime g' = lastIncreaseTime g
}.

(** The predicate kept by the closing [erase] of [checkCollision]. *)
Definition uncollected (o : Entity) : bool := negb (collected o).

(** Whether the closing test of [checkCollision] records a new highscore,
    given the state and score the loop ended with. *)
Definition newRecord (g : Game) (state' : GameState) (score' : Z) : bool :=
  GameState_eqb state' DEATH_SCREEN && (score' >? highscore g).

(** What a whole [checkCollision] call changes and leaves alone. *)
Record CheckResult (r : Release) (g g' : Game) : Prop := {
  cr_obstacles :
    obstacles g'
    = filter uncollected
        (map (mark (carRect (redCar g)) (carRect (blueCar g))) (obstacles g));
  cr_score :
    score g' = score g + picks (carRect (redCar g)) (carRect (blueCar g)) (obstacles g);
  cr_state :
    currentState g'
    = if existsb (lethal (carRect (redCar g)) (carRect (blueCar g))) (obstacles g)
      then DEATH_SCREEN else currentState g;
  cr_highscore :
    highscore g'
    = if newRecord g (currentState g') (score g') then score g' else highscore g;
  cr_saves :
    saveCalls (effects g')
    = saveCalls (effects g)
      ++ (if newRecord g (currentState g') (score g') then [score g'] else []);
  cr_redCar : redCar g' = redCar g;
  cr_blueCar : blueCar g' = blueCar g;
  cr_startTime : startTime g' = startTime g;
  cr_spawnRate : spawnRate g' = spawnRate g;
  cr_obstacleSpeed : obstacleSpeed g' = obstacleSpeed g;
  cr_patternTimer : patternTimer g' = patternTimer g;
  cr_lastIncreaseTime : lastIncreaseTime g' = lastIncreaseTime g
}.

(** ** Difficulty ramp *)

(** A sequence of [increaseDifficulty] calls, one per clock value. *)
Definition ramp (r : Release) (times : list Z) (g : Game) : Game :=
  fold_left (fun g t => increaseDifficulty r t g) times g.

(** The values a session can reach from the reset values 80 and 6. *)
Definition reachableRates (r : Release) : list Z :=
  match r with
  | Original => [80; 60; 40; 20; 0]
  | Revised => [80; 60; 40; 20]
  end.

Definition reachableSpeeds : list Z := [6; 8; 10; 12; 14; 16].

Definition rampInvariant (r : Release) (g : Game) : Prop :=
  In (spawnRate g) (reachableRates r) /\ In (obstacleSpeed g) reachableSpeeds.

(** The clock values of [n] consecutive frames, 16 ms apart. *)
Definition frameTimes (start : Z) (n : Z) : list Z :=
  map (fun k => start + 16 * Z.of_nat k) (seq 0 (Z.to_nat n)).

(** ** Session reset and persistence *)

(** The session as [resetCars] leaves it, with the clock restarted at
    [now]. *)
Definition sessionFieldsReset (g : Game) : Prop :=
  score g = 0 /\ obstacles g = [] /\ spawnRate g = 80 /\ obstacleSpeed g = 6.

Definition carsAtRest (g : Game) : Prop :=
  carRect (blueCar g) = blueRest /\ carRect (redCar g) = redRest.

Definition freshSession (now : Z) (g : Game) : Prop :=
  sessionFieldsReset g /\ carsAtRest g /\ startTime g = now.

(** The inputs that take the game into [NORMAL_MODE]. *)
Definition startsPlaying (r : Release) (event : SDL_Event) (mx my : Z)
    (g : Game) : Prop :=
  match currentState g, event with
  | MAIN_MENU, SDL_KEYDOWN _ => True
  | MAIN_MENU, SDL_MOUSEBUTTONDOWN _ => r = Revised
  | DEATH_SCREEN, SDL_KEYDOWN sym => sym = SDLK_r
  | DEATH_SCREEN, SDL_MOUSEBUTTONDOWN _ => clicked restartButtonRect mx my = true
  | _, _ => False
  end.

(** What the original release does when it enters [NORMAL_MODE]: the
    clock restarts and the cars stay where they are; leaving the death
    screen resets the session fields. *)
Definition originalEntry (now : Z) (g g' : Game) : Prop :=
  startTime g' = now
  /\ blueCar g' = blueCar g
  /\ redCar g' = redCar g
  /\ (currentState g = DEATH_SCREEN -> sessionFieldsReset g').

(** The persistence file of the release does not exist. *)
Definition fileAbsent (r : Release) (d : Disk) : Prop :=
  match r with
  | Original => highscore_txt d = None
  | Revised => player_dat d = None
  end.

(** ** Car animation *)

(** What [update] does to one car in a frame: [updateRotation], then
    [updateMovement], each with its own reading of the clock; and a
    sequence of such frames. *)
Definition carFrame (t : Z * Z) (c : Car) : Car :=
  updateMovement (snd t) (updateRotation (fst t) c).

Definition carFrames (ts : list (Z * Z)) (c : Car) : Car :=
  fold_left (fun c t => carFrame t c) ts c.

(** The clock readings of a frame at which the rotation, or the movement,
    started at [start] is still under way. *)
Definition rotationUnderWay (start : Z) (t : Z * Z) : Prop :=
  u32 (fst t - start) < rotationDuration.

Definition movementUnderWay (start : Z) (t : Z * Z) : Prop :=
  u32 (snd t - start) < moveDuration.

(** ** Sample games *)

(** A disk without any saved file, and a menu text at rest. *)
Definition emptyDisk : Disk := mkDisk None None true.
Definition restingMenu : MenuText := mkMenuText 340 1 340 340 20 360.

(** The inputs of a tick at clock value [now]. *)
Definition quietTick (now : Z) : TickInput :=
  mkTick now now now now now [0; 2; 1; 3] 0 1 None.

(** A session started from the menu by a key press at 5000 ms. *)
Definition sessionAt5000 (r : Release) : Game :=
  handleEvents r (SDL_KEYDOWN 32) 0 0 5000 5000 (newGame emptyDisk restingMenu 0).

(** ** Further vocabulary *)

(** What one call of [spawnObstacle] reads from outside. *)
Record SpawnInput : Type := mkSpawnInput {
  sLanes : list Z;
  sCoin0 : Z;
  sCoin1 : Z;
  sUninit : option Texture
}.

(** A sequence of [spawnObstacle] calls, one per frame, each with its own
    shuffle and coins. *)
Definition spawnRun (ins : list SpawnInput) (g : Game) : Game :=
  fold_left (fun g i => spawnObstacle (sLanes i) (sCoin0 i) (sCoin1 i) (sUninit i) g)
            ins g.

(** What every entity is like when [spawnObstacle] creates it. *)
Definition freshObstacle (o : Entity) : Prop :=
  collected o = false
  /\ rw (destRect o) = OBSTACLE_SIZE
  /\ rh (destRect o) = OBSTACLE_SIZE
  /\ ry (destRect o) < 0
  /\ In (rx (destRect o)) [LANE_1; LANE_2; LANE_3; LANE_4].

Definition Sound_eqb (a b : Sound) : bool :=
  match a, b with
  | circlePickupSound, circlePickupSound | deathSound, deathSound
  | circleMissSound, circleMissSound => true
  | _, _ => false
  end.

(** How often sound [s] was played. *)
Fixpoint countSound (s : Sound) (l : list Effect) : nat :=
  match l with
  | [] => 0%nat
  | PlaySound s' :: l' =>
      if Sound_eqb s' s then S (countSound s l') else countSound s l'
  | SaveHighscore _ :: l' => countSound s l'
  end.

(** The persistence file of the release holds the current highscore. *)
Definition savedOnDisk (r : Release) (g : Game) : Prop :=
  match r with
  | Original => highscore_txt (disk g) = Some (insert_int (highscore g))
  | Revised =>
      player_dat (disk g) = Some (bytes_of_int (xor_key (highscore g)))
  end.

(** The death screen never shows a score above the highscore. *)
Definition deathScreenConsistent (g : Game) : Prop :=
  currentState g = DEATH_SCREEN -> score g <= highscore g.

(** The menu text is within [animationRange] of where it started, moves
    by one pixel per tick, and points inwards at either end. *)
Definition menuTextInRange (m : MenuText) : Prop :=
  (playTextDirection m = 1 \/ playTextDirection m = -1)
  /\ initialPlayTextYPosition m - animationRange <= playTextYPosition m
     <= initialPlayTextYPosition m + animationRange
  /\ (playTextYPosition m = initialPlayTextYPosition m + animationRange ->
      playTextDirection m = -1)
  /\ (playTextYPosition m = initialPlayTextYPosition m - animationRange ->
      playTextDirection m = 1).

(** [n] ticks of the menu animation. *)
Definition menuTicks (n : nat) (m : MenuText) : MenuText :=
  Nat.iter n updateMenuAnimation m.

(** The x-position that the interpolating branch of [updateMovement]
    computes from the fraction [t], and from the elapsed time. *)
Definition interpolateWith (t : double) (x tx : Z) : Z :=
  int_of_double
    (double_add (double_of_int x) (double_mul t (double_of_int (tx - x)))).

Definition interpolate (elapsedTime x tx : Z) : Z :=
  interpolateWith
    (double_div (double_of_int elapsedTime) (double_of_int moveDuration)) x tx.

(** [x] lies between [a] and [b], in either order. *)
Definition between (a b x : Z) : bool :=
  (Z.min a b <=? x) && (x <=? Z.max a b).

(** The [n] integers from [lo] on. *)
Definition range (lo : Z) (n : nat) : list Z :=
  map (fun k => lo + Z.of_nat k) (seq 0 n).

(** Every elapsed time below the duration and every position from [lo]
    to [hi], tried in turn: the interpolated position towards either end
    lies between the position and that end. *)
Definition laneChangeChecked (lo hi : Z) : bool :=
  forallb
    (fun e =>
       let t := double_div (double_of_int e) (double_of_int moveDuration) in
       forallb (fun x => between x lo (interpolateWith t x lo)
                         && between x hi (interpolateWith t x hi))
               (range lo (Z.to_nat (hi - lo + 1))))
    (range 0 (Z.to_nat moveDuration)).

(** The rectangle of a car at rest on the lane with x-coordinate [x], and
    of an obstacle on the lane with x-coordinate [x] at height [y]. *)
Definition carOn (x : Z) : SDL_Rect := mkRect x (SCREEN_HEIGHT - 100) CAR_WIDTH CAR_HEIGHT.
Definition obstacleOn (x y : Z) : SDL_Rect := mkRect x y OBSTACLE_SIZE OBSTACLE_SIZE.

(** What [updateObstacles] leaves alone. *)
Record CullFrame (g g' : Game) : Prop := {
  cf_score : score g' = score g;
  cf_highscore : highscore g' = highscore g;
  cf_redCar : redCar g' = redCar g;
  cf_blueCar : blueCar g' = blueCar g;
  cf_startTime : startTime g' = startTime g;
  cf_spawnRate : spawnRate g' = spawnRate g;
  cf_obstacleSpeed : obstacleSpeed g' = obstacleSpeed g;
  cf_patternTimer : patternTimer g' = patternTimer g;
  cf_lastIncreaseTime : lastIncreaseTime g' = lastIncreaseTime g;
  cf_disk : disk g' = disk g;
  cf_isRunning : isRunning g' = isRunning g;
  cf_menu : menu g' = menu g
}.

(** The disk after [saveHighscore] wrote highscore [h] to it. *)
Definition written (r : Release) (h : Z) (d : Disk) : Disk :=
  match r with
  | Original => set_highscore_txt (Some (insert_int h)) d
  | Revised => set_player_dat (Some (bytes_of_int (xor_key h))) d
  end.

(* ================================================================= *)
(** * Properties *)

(** The values of the macros. *)
Example constants_evaluated :
  (LANE_1, LANE_2, LANE_3, LANE_4) = (30, 131, 232, 333)
  /\ (CAR_WIDTH, CAR_HEIGHT, OBSTACLE_SIZE, MIN_GAP) = (40, 65, 40, 75)
  /\ restartButtonRect = mkRect 152 340 100 40
  /\ homeButtonRect = mkRect 152 390 100 40.
Proof. repeat split. Qed.

(** ** Spawning *)

(** Case analysis on the side and coin tests of [chooseSide]. *)
Ltac split_choices :=
  unfold firstSpawn, secondSpawn, secondChoice, firstChoice,
         chooseSide, chooseRed, chooseBlue, noneSpawned;
  repeat match goal with
         | |- context [(?a =? 0) || (?a =? 1)] =>
             destruct ((a =? 0) || (a =? 1)) eqn:?
         end;
  repeat match goal with
         | |- context [Z.rem ?c 2 =? 0] => destruct (Z.rem c 2 =? 0) eqn:?
         end;
  cbn.

(** Lane test of a concrete shuffled value. *)
Ltac lane_cases H :=
  cbn in H; repeat (destruct H as [H | H]; [rewrite <- H in *; clear H | ]);
  try contradiction.

Lemma spawnObstacle_obstacles (lanes : list Z) (coin0 coin1 : Z)
    (uninit : option Texture) (g : Game) :
  patternTimer g = 0 ->
  obstacles (spawnObstacle lanes coin0 coin1 uninit g)
  = obstacles g ++ [firstSpawn lanes coin0 uninit g;
                    secondSpawn lanes coin0 coin1 uninit g].
Proof.
  intros Hz. unfold spawnObstacle. rewrite Hz. simpl.
  unfold spawnOne, secondSpawn, secondChoice, firstSpawn.
  destruct (firstChoice lanes coin0 uninit) as [[t0 f0] x0] eqn:E0.
  unfold firstChoice in E0. rewrite E0. simpl.
  destruct (chooseSide (nth 1 lanes 0) coin1 t0 f0) as [[t1 f1] x1].
  simpl. now rewrite <- app_assoc.
Qed.

Lemma spawned_pair (lanes : list Z) (coin0 coin1 : Z) (uninit : option Texture)
    (g : Game) :
  patternTimer g = 0 ->
  spawned lanes coin0 coin1 uninit g
  = [firstSpawn lanes coin0 uninit g; secondSpawn lanes coin0 coin1 uninit g].
Proof.
  intros Hz. unfold spawned.
  rewrite (spawnObstacle_obstacles lanes coin0 coin1 uninit g Hz).
  rewrite skipn_app, skipn_all, Nat.sub_diag. reflexivity.
Qed.

Lemma spawnObstacle_waits (lanes : list Z) (coin0 coin1 : Z)
    (uninit : option Texture) (g : Game) :
  patternTimer g <> 0 ->
  obstacles (spawnObstacle lanes coin0 coin1 uninit g) = obstacles g
  /\ patternTimer (spawnObstacle lanes coin0 coin1 uninit g) = patternTimer g - 1.
Proof.
  intros Hnz. unfold spawnObstacle.
  destruct (patternTimer g =? 0) eqn:E; [apply Z.eqb_eq in E; contradiction|].
  now split.
Qed.

Lemma texture_of_firstSpawn lanes coin0 uninit g :
  texture (firstSpawn lanes coin0 uninit g)
  = fst (fst (firstChoice lanes coin0 uninit)).
Proof.
  unfold firstSpawn. now destruct (firstChoice lanes coin0 uninit) as [[t f] x].
Qed.

Lemma texture_of_secondSpawn lanes coin0 coin1 uninit g :
  texture (secondSpawn lanes coin0 coin1 uninit g)
  = fst (fst (secondChoice lanes coin0 coin1 uninit)).
Proof.
  unfold secondSpawn.
  now destruct (secondChoice lanes coin0 coin1 uninit) as [[t f] x].
Qed.

(** The first iteration finds all four flags clear, so one of its two
    branches assigns the texture: what the storage held before the loop
    is never read. *)
Lemma spawnObstacle_ignores_uninit (lanes : list Z) (coin0 coin1 : Z)
    (u u' : option Texture) (g : Game) :
  spawnObstacle lanes coin0 coin1 u g = spawnObstacle lanes coin0 coin1 u' g.
Proof.
  unfold spawnObstacle, spawnOne, chooseSide, chooseRed, chooseBlue, noneSpawned.
  destruct (patternTimer g =? 0); [|reflexivity].
  destruct ((nth 0 lanes 0 =? 0) || (nth 0 lanes 0 =? 1)),
           (Z.rem coin0 2 =? 0); reflexivity.
Qed.

(** The flags do keep the boxes apart: a call never creates two boxes of
    one colour. *)
Lemma spawn_never_two_boxes :
  forall lanes coin0 coin1 uninit g box,
    patternTimer g = 0 ->
    box = redBox \/ box = blueBox ->
    (count_texture box (spawned lanes coin0 coin1 uninit g) <= 1)%nat.
Proof.
  intros lanes coin0 coin1 uninit g box Hz Hbox.
  rewrite (spawned_pair lanes coin0 coin1 uninit g Hz).
  unfold count_texture, filter, texture_is.
  rewrite texture_of_firstSpawn, texture_of_secondSpawn.
  split_choices; destruct Hbox; subst box; cbn; lia.
Qed.

(** Unless the two entities share a side and both coins are odd, no kind
    is created twice. *)
Lemma spawn_at_most_one_of_a_kind :
  forall lanes coin0 coin1 uninit g t,
    patternTimer g = 0 ->
    redLane (laneX (nth 0 lanes 0)) <> redLane (laneX (nth 1 lanes 0))
    \/ Z.rem coin0 2 = 0 \/ Z.rem coin1 2 = 0 ->
    (count_texture t (spawned lanes coin0 coin1 uninit g) <= 1)%nat.
Proof.
  intros lanes coin0 coin1 uninit g t Hz Hok.
  rewrite (spawned_pair lanes coin0 coin1 uninit g Hz).
  unfold count_texture, filter, texture_is.
  rewrite texture_of_firstSpawn, texture_of_secondSpawn.
  unfold laneX in Hok.
  unfold secondChoice, firstChoice, chooseSide, chooseRed, chooseBlue,
         noneSpawned.
  destruct (nth 0 lanes 0 =? 0), (nth 0 lanes 0 =? 1),
           (nth 1 lanes 0 =? 0), (nth 1 lanes 0 =? 1),
           (nth 0 lanes 0 =? 2), (nth 1 lanes 0 =? 2);
    destruct (Z.rem coin0 2 =? 0) eqn:E0, (Z.rem coin1 2 =? 0) eqn:E1;
    cbn in *; destruct t; cbn; try lia;
    apply Z.eqb_neq in E0; apply Z.eqb_neq in E1;
    destruct Hok as [H | [H | H]]; congruence.
Qed.

(** C1 (violated by the code).  The per-call flags are meant to let each
    of the four kinds be created at most once, and they do so for the
    boxes.  But when the shuffle puts two lanes of one side in front and
    [rand()] is odd in both iterations, the second iteration finds the
    circle flag of that side already set and the coin against a box: no
    branch assigns [obstacle.texture], which still holds the circle handle
    of the first iteration.  The call creates two circles of one
    colour. *)
Theorem spawn_repeats_a_circle :
  forall uninit : option Texture,
    spawned [0; 1; 2; 3] 1 1 uninit (newGame emptyDisk restingMenu 0)
    = [ mkEntity (Some redCircle) (mkRect LANE_3 (-40) 40 40) false;
        mkEntity (Some redCircle) (mkRect LANE_4 (-115) 40 40) false ]
    /\ count_texture redCircle
         (spawned [0; 1; 2; 3] 1 1 uninit (newGame emptyDisk restingMenu 0))
       = 2%nat
    /\ spawned [3; 2; 0; 1] 7 5 uninit (newGame emptyDisk restingMenu 0)
       = [ mkEntity (Some blueCircle) (mkRect LANE_2 (-40) 40 40) false;
           mkEntity (Some blueCircle) (mkRect LANE_1 (-115) 40 40) false ]
    /\ count_texture blueCircle
         (spawned [3; 2; 0; 1] 7 5 uninit (newGame emptyDisk restingMenu 0))
       = 2%nat.
Proof. intros uninit. repeat apply conj; reflexivity. Qed.

(** The same for every call of that shape: the second entity carries the
    first one's circle. *)
Lemma spawn_left_over_texture :
  forall lanes coin0 coin1 uninit g,
    redLane (laneX (nth 0 lanes 0)) = redLane (laneX (nth 1 lanes 0)) ->
    Z.rem coin0 2 <> 0 ->
    Z.rem coin1 2 <> 0 ->
    texture (secondSpawn lanes coin0 coin1 uninit g)
    = texture (firstSpawn lanes coin0 uninit g)
    /\ isCircle (firstSpawn lanes coin0 uninit g) = true.
Proof.
  intros lanes coin0 coin1 uninit g Hside H0 H1.
  unfold isCircle, texture_is.
  rewrite texture_of_firstSpawn, texture_of_secondSpawn.
  apply Z.eqb_neq in H0, H1. unfold laneX in Hside.
  unfold secondChoice, firstChoice, chooseSide, chooseRed, chooseBlue,
         noneSpawned.
  rewrite H0, H1.
  destruct (nth 0 lanes 0 =? 0), (nth 0 lanes 0 =? 1),
           (nth 1 lanes 0 =? 0), (nth 1 lanes 0 =? 1),
           (nth 0 lanes 0 =? 2), (nth 1 lanes 0 =? 2);
    cbn in *; try discriminate; now split.
Qed.

(** *** Lanes and kinds of a pair *)

Lemma shuffled_lanes (lanes : list Z) :
  Permutation [0; 1; 2; 3] lanes ->
  In (nth 0 lanes 0) [0; 1; 2; 3]
  /\ In (nth 1 lanes 0) [0; 1; 2; 3]
  /\ nth 0 lanes 0 <> nth 1 lanes 0.
Proof.
  intros P.
  assert (Hlen : List.length lanes = 4%nat)
    by (now rewrite <- (Permutation_length P)).
  assert (Hnd : NoDup lanes).
  { apply (Permutation_NoDup P). repeat constructor; cbn; intuition lia. }
  destruct lanes as [|a [|b [|c [|d [|]]]]]; try discriminate.
  cbn [nth]. repeat split.
  - apply (Permutation_in _ (Permutation_sym P)). now left.
  - apply (Permutation_in _ (Permutation_sym P)). right. now left.
  - inversion Hnd as [|? ? Hnot _]. intros ->. apply Hnot. now left.
Qed.

(** C2 (as amended).  Whenever [spawnObstacle] runs with its countdown at
    zero on a permutation of {0,1,2,3}, it creates exactly two entities, on
    two different lane x-coordinates fixed by the first two shuffled values
    (0 and 1 select the red lanes LANE_3 and LANE_4, 2 and 3 the blue lanes
    LANE_1 and LANE_2).  The first entity always gets a definite kind, of
    the colour of its lane; so does the second, unless the two entities
    share a side and both coins are odd. *)
Theorem spawn_pair_lanes_and_kinds :
  forall (lanes : list Z) (coin0 coin1 : Z) (uninit : option Texture)
         (g : Game),
    Permutation [0; 1; 2; 3] lanes ->
    patternTimer g = 0 ->
    exists a b,
      spawned lanes coin0 coin1 uninit g = [a; b]
      /\ rx (destRect a) = laneX (nth 0 lanes 0)
      /\ rx (destRect b) = laneX (nth 1 lanes 0)
      /\ rx (destRect a) <> rx (destRect b)
      /\ kindOfItsLane a
      /\ (redLane (rx (destRect a)) <> redLane (rx (destRect b))
          \/ Z.rem coin0 2 = 0 \/ Z.rem coin1 2 = 0 ->
          kindOfItsLane b).
Proof.
  intros lanes coin0 coin1 uninit g P Hz.
  destruct (shuffled_lanes lanes P) as (H0 & H1 & Hne).
  exists (firstSpawn lanes coin0 uninit g),
         (secondSpawn lanes coin0 coin1 uninit g).
  split; [now apply spawned_pair|].
  unfold kindOfItsLane, firstSpawn, secondSpawn, secondChoice, firstChoice,
         chooseSide, chooseRed, chooseBlue, noneSpawned.
  lane_cases H0; lane_cases H1; try (now elim Hne); clear Hne; cbn;
    destruct (Z.rem coin0 2 =? 0) eqn:E0, (Z.rem coin1 2 =? 0) eqn:E1; cbn;
    (split; [reflexivity|]); (split; [reflexivity|]);
    (split; [discriminate|]);
    (split; [eexists; split; reflexivity|]);
    intros Hok;
    try (eexists; split; reflexivity);
    apply Z.eqb_neq in E0; apply Z.eqb_neq in E1;
    destruct Hok as [H | [H | H]]; congruence.
Qed.

Lemma spawn_pair_lanes_and_kinds_witness :
  Permutation [0; 1; 2; 3] [0; 2; 1; 3]
  /\ patternTimer (newGame emptyDisk restingMenu 0) = 0
  /\ exists a b,
      spawned [0; 2; 1; 3] 0 1 None (newGame emptyDisk restingMenu 0) = [a; b]
      /\ rx (destRect a) = laneX (nth 0 [0; 2; 1; 3] 0)
      /\ rx (destRect b) = laneX (nth 1 [0; 2; 1; 3] 0)
      /\ rx (destRect a) <> rx (destRect b)
      /\ kindOfItsLane a
      /\ (redLane (rx (destRect a)) <> redLane (rx (destRect b))
          \/ Z.rem 0 2 = 0 \/ Z.rem 1 2 = 0 ->
          kindOfItsLane b).
Proof.
  assert (P : Permutation [0; 1; 2; 3] [0; 2; 1; 3])
    by (apply perm_skip, perm_swap).
  split; [exact P|]. split; [reflexivity|].
  apply (spawn_pair_lanes_and_kinds [0; 2; 1; 3] 0 1 None
           (newGame emptyDisk restingMenu 0) P).
  reflexivity.
Defined.

(** C2 fails as first stated.  With the shuffle leaving [0; 1] in front
    both entities are on red lanes (here, with both coins even, a red box
    on LANE_3 and a red circle on LANE_4): no entity is on a blue lane. *)
Lemma spawn_pair_not_one_per_side :
  spawned [0; 1; 2; 3] 0 0 None (newGame emptyDisk restingMenu 0)
  = [ mkEntity (Some redBox) (mkRect LANE_3 (-40) 40 40) false;
      mkEntity (Some redCircle) (mkRect LANE_4 (-115) 40 40) false ]
  /\ ~ one_per_side_with_kinds
        (spawned [0; 1; 2; 3] 0 0 None (newGame emptyDisk restingMenu 0)).
Proof.
  assert (E : spawned [0; 1; 2; 3] 0 0 None (newGame emptyDisk restingMenu 0)
              = [ mkEntity (Some redBox) (mkRect LANE_3 (-40) 40 40) false;
                  mkEntity (Some redCircle) (mkRect LANE_4 (-115) 40 40) false ])
    by reflexivity.
  split; [exact E|].
  rewrite E. intros (a & b & Hab & _ & Hblue & _ & _).
  destruct Hab as [Hab | Hab]; injection Hab as <- <-; discriminate Hblue.
Qed.

(** *** Vertical spacing *)

Lemma MIN_GAP_eq : MIN_GAP = CAR_HEIGHT + 10.
Proof. reflexivity. Qed.

Lemma back_snoc (l : list Entity) (o : Entity) : back (l ++ [o]) = Some o.
Proof. unfold back. now rewrite rev_unit. Qed.

Lemma back_nil : back [] = None.
Proof. reflexivity. Qed.

(** With a texture assigned, exactly one of the two adjustments applies. *)
Lemma spawnY_assigned (t : Texture) (obs : list Entity) :
  spawnY (Some t) obs
  = match back obs with
    | Some lastObstacle =>
        if ry (destRect lastObstacle) <? MIN_GAP
        then ry (destRect lastObstacle) - MIN_GAP
        else - OBSTACLE_SIZE
    | None => - OBSTACLE_SIZE
    end.
Proof.
  unfold spawnY, keepGap.
  destruct t; cbn -[Z.sub Z.ltb MIN_GAP OBSTACLE_SIZE];
    destruct (back obs) as [l|]; try reflexivity;
    destruct (ry (destRect l) <? MIN_GAP); reflexivity.
Qed.

Lemma spawnY_gap (t : Texture) (obs : list Entity) (prev : Entity) :
  back obs = Some prev ->
  ry (destRect prev) - spawnY (Some t) obs >= CAR_HEIGHT + 10.
Proof.
  intros Hb. rewrite spawnY_assigned, Hb, <- MIN_GAP_eq.
  destruct (ry (destRect prev) <? MIN_GAP) eqn:E.
  - lia.
  - apply Z.ltb_ge in E. change (- OBSTACLE_SIZE) with (-40). lia.
Qed.

Lemma ry_of_firstSpawn lanes coin0 uninit g :
  ry (destRect (firstSpawn lanes coin0 uninit g))
  = spawnY (texture (firstSpawn lanes coin0 uninit g)) (obstacles g).
Proof.
  unfold firstSpawn. now destruct (firstChoice lanes coin0 uninit) as [[t f] x].
Qed.

Lemma ry_of_secondSpawn lanes coin0 coin1 uninit g :
  ry (destRect (secondSpawn lanes coin0 coin1 uninit g))
  = spawnY (texture (secondSpawn lanes coin0 coin1 uninit g))
           (obstacles g ++ [firstSpawn lanes coin0 uninit g]).
Proof.
  unfold secondSpawn.
  now destruct (secondChoice lanes coin0 coin1 uninit) as [[t f] x].
Qed.

(** Two neighbours of a list whose second member is among the last two
    elements. *)
Lemma neighbours_at_end {A : Type} (old pre post : list A) (e0 e1 prev e : A) :
  old ++ [e0; e1] = pre ++ prev :: e :: post ->
  (List.length old <= S (List.length pre))%nat ->
  (prev = e0 /\ e = e1 /\ pre = old)
  \/ (e = e0 /\ old = pre ++ [prev]).
Proof.
  intros Heq Hlen.
  assert (Hl : (List.length old + 2 = List.length pre + 2 + List.length post)%nat).
  { apply (f_equal (@List.length A)) in Heq.
    rewrite !length_app in Heq. cbn in Heq. lia. }
  destruct post as [|p post].
  - left.
    change (old ++ [e0; e1]) with (old ++ [e0] ++ [e1]) in Heq.
    change (pre ++ [prev; e]) with (pre ++ [prev] ++ [e]) in Heq.
    rewrite !app_assoc in Heq.
    apply app_inj_tail in Heq as [Heq ->].
    apply app_inj_tail in Heq as [-> ->]. auto.
  - right. destruct post as [|q post]; [|cbn in Hl; lia].
    change (old ++ [e0; e1]) with (old ++ [e0] ++ [e1]) in Heq.
    change (pre ++ [prev; e; p]) with (pre ++ [prev] ++ [e] ++ [p]) in Heq.
    rewrite !app_assoc in Heq.
    apply app_inj_tail in Heq as [Heq _].
    apply app_inj_tail in Heq as [-> ->]. auto.
Qed.

(** C7.  Whenever [spawnObstacle] creates entities, each created entity
    with a definite kind lies at least [CAR_HEIGHT + 10] pixels above the
    entity that immediately precedes it in the obstacle list (the entity
    spawned just before it): the later one is moved further up whenever
    it would be closer.  Entities of the same type on overlapping lanes
    are a special case. *)
Theorem spawn_keeps_min_gap :
  forall (lanes : list Z) (coin0 coin1 : Z) (uninit : option Texture)
         (g : Game) (pre post : list Entity) (prev e : Entity),
    patternTimer g = 0 ->
    obstacles (spawnObstacle lanes coin0 coin1 uninit g)
    = pre ++ prev :: e :: post ->
    (List.length (obstacles g) <= S (List.length pre))%nat ->
    texture e <> None ->
    ry (destRect prev) - ry (destRect e) >= CAR_HEIGHT + 10.
Proof.
  intros lanes coin0 coin1 uninit g pre post prev e Hz Hobs Hnew Hkind.
  rewrite (spawnObstacle_obstacles lanes coin0 coin1 uninit g Hz) in Hobs.
  destruct (neighbours_at_end _ _ _ _ _ _ _ Hobs Hnew)
    as [(-> & -> & _) | (-> & Hold)].
  - rewrite ry_of_secondSpawn.
    destruct (texture (secondSpawn lanes coin0 coin1 uninit g)) as [t|];
      [|contradiction].
    apply spawnY_gap, back_snoc.
  - rewrite ry_of_firstSpawn.
    destruct (texture (firstSpawn lanes coin0 uninit g)) as [t|];
      [|contradiction].
    apply spawnY_gap. rewrite Hold. apply back_snoc.
Qed.

Lemma spawn_keeps_min_gap_witness :
  let old := mkEntity (Some redBox) (mkRect LANE_3 10 40 40) false in
  let g := set_obstacles [old] (newGame emptyDisk restingMenu 0) in
  let e0 := mkEntity (Some redBox) (mkRect LANE_3 (-65) 40 40) false in
  let e1 := mkEntity (Some blueCircle) (mkRect LANE_1 (-140) 40 40) false in
  patternTimer g = 0
  /\ obstacles (spawnObstacle [0; 2; 1; 3] 0 1 None g) = [] ++ old :: e0 :: [e1]
  /\ (List.length (obstacles g) <= S (List.length (@nil Entity)))%nat
  /\ texture e0 <> None
  /\ ry (destRect old) - ry (destRect e0) >= CAR_HEIGHT + 10.
Proof.
  intros old g e0 e1.
  assert (H1 : patternTimer g = 0) by reflexivity.
  assert (H2 : obstacles (spawnObstacle [0; 2; 1; 3] 0 1 None g)
               = [] ++ old :: e0 :: [e1]) by reflexivity.
  assert (H3 : (List.length (obstacles g) <= S (List.length (@nil Entity)))%nat)
    by (cbn; lia).
  assert (H4 : texture e0 <> None) by discriminate.
  repeat split; try assumption.
  exact (spawn_keeps_min_gap [0; 2; 1; 3] 0 1 None g [] [e1] old e0
           H1 H2 H3 H4).
Defined.

(* ================================================================= *)
(** ** Culling *)

Lemma cull_kept (os : list Entity) :
  forall g, snd (cull os g) = filter (fun o => negb (offScreen o)) os.
Proof.
  induction os as [|o os IH]; intros g; cbn; [reflexivity|].
  destruct (offScreen o); cbn.
  - apply IH.
  - specialize (IH g). destruct (cull os g) as [g' kept]. cbn in *.
    now rewrite IH.
Qed.

Lemma cull_score (os : list Entity) :
  forall g, score (fst (cull os g)) = score g.
Proof.
  induction os as [|o os IH]; intros g; cbn; [reflexivity|].
  destruct (offScreen o).
  - rewrite IH. now destruct (missedCircle o).
  - specialize (IH g). now destruct (cull os g) as [g' kept].
Qed.

Lemma cull_state (os : list Entity) :
  forall g,
    currentState (fst (cull os g))
    = if existsb (fun o => offScreen o && missedCircle o) os
      then DEATH_SCREEN else currentState g.
Proof.
  induction os as [|o os IH]; intros g; cbn; [reflexivity|].
  destruct (offScreen o); cbn.
  - rewrite IH. destruct (missedCircle o); cbn; [|reflexivity].
    now destruct (existsb _ os).
  - specialize (IH g). now destruct (cull os g) as [g' kept].
Qed.

Lemma updateObstacles_obstacles (g : Game) :
  obstacles (updateObstacles g)
  = filter (fun o => negb (offScreen o)) (movedObstacles g).
Proof.
  unfold updateObstacles, movedObstacles.
  pose proof (cull_kept (map (move_down (obstacleSpeed g)) (obstacles g)) g) as H.
  destruct (cull _ g) as [g' kept]. cbn in *. now subst.
Qed.

Lemma updateObstacles_score (g : Game) : score (updateObstacles g) = score g.
Proof.
  unfold updateObstacles.
  pose proof (cull_score (map (move_down (obstacleSpeed g)) (obstacles g)) g) as H.
  destruct (cull _ g) as [g' kept]. exact H.
Qed.

Lemma existsb_filter {A : Type} (p q : A -> bool) (l : list A) :
  existsb p (filter q l) = existsb (fun o => q o && p o) l.
Proof.
  induction l as [|o l IH]; cbn; [reflexivity|].
  destruct (q o); cbn; now rewrite IH.
Qed.

Lemma updateObstacles_state (g : Game) :
  currentState (updateObstacles g)
  = if existsb missedCircle (culled g) then DEATH_SCREEN else currentState g.
Proof.
  unfold updateObstacles, culled, movedObstacles.
  rewrite existsb_filter.
  pose proof (cull_state (map (move_down (obstacleSpeed g)) (obstacles g)) g) as H.
  destruct (cull _ g) as [g' kept]. exact H.
Qed.

(** C6.  [updateObstacles] moves every obstacle down by [obstacleSpeed]
    and erases exactly those that then lie below the screen
    ([y > SCREEN_HEIGHT]), keeping the others in their order: no remaining
    obstacle lies below the screen.  A game that was not yet over is over
    after the call exactly when one of the erased entities was a circle
    with [collected = false]; and the score is left as it was. *)
Theorem updateObstacles_culls_and_detects_miss :
  forall g : Game,
    currentState g <> DEATH_SCREEN ->
    obstacles (updateObstacles g)
    = filter (fun o => negb (offScreen o)) (movedObstacles g)
    /\ Forall (fun o => ry (destRect o) <= SCREEN_HEIGHT)
              (obstacles (updateObstacles g))
    /\ (currentState (updateObstacles g) = DEATH_SCREEN
        <-> exists o, In o (culled g) /\ isCircle o = true /\ collected o = false)
    /\ score (updateObstacles g) = score g.
Proof.
  intros g Hlive. split; [apply updateObstacles_obstacles|]. repeat split.
  - rewrite updateObstacles_obstacles. apply Forall_forall.
    intros o Ho. apply filter_In in Ho as [_ Ho].
    unfold offScreen in Ho. apply negb_true_iff, Z.ltb_ge in Ho. exact Ho.
  - rewrite updateObstacles_state.
    destruct (existsb missedCircle (culled g)) eqn:E; [|contradiction].
    intros _. apply existsb_exists in E as (o & Hin & Hm).
    unfold missedCircle in Hm. apply andb_true_iff in Hm as [Hc Hn].
    exists o. repeat split; auto. now apply negb_true_iff.
  - intros (o & Hin & Hc & Hn). rewrite updateObstacles_state.
    assert (E : existsb missedCircle (culled g) = true).
    { apply existsb_exists. exists o. split; [exact Hin|].
      unfold missedCircle. now rewrite Hc, Hn. }
    now rewrite E.
  - apply updateObstacles_score.
Qed.

Lemma updateObstacles_culls_and_detects_miss_witness :
  let miss := mkEntity (Some blueCircle) (mkRect LANE_1 716 40 40) false in
  let g := set_currentState NORMAL_MODE
             (set_obstacles [miss] (newGame emptyDisk restingMenu 0)) in
  currentState g <> DEATH_SCREEN
  /\ obstacles (updateObstacles g) = []
  /\ currentState (updateObstacles g) = DEATH_SCREEN
  /\ (exists o, In o (culled g) /\ isCircle o = true /\ collected o = false)
  /\ score (updateObstacles g) = score g.
Proof.
  intros miss g.
  assert (Hlive : currentState g <> DEATH_SCREEN) by discriminate.
  destruct (updateObstacles_culls_and_detects_miss g Hlive)
    as (_ & _ & Hiff & Hs).
  assert (Hd : currentState (updateObstacles g) = DEATH_SCREEN) by reflexivity.
  repeat split; try assumption; try reflexivity.
  exact (proj1 Hiff Hd).
Defined.

(* ================================================================= *)
(** ** Collision resolution *)

Lemma saveCalls_app (l1 l2 : list Effect) :
  saveCalls (l1 ++ l2) = saveCalls l1 ++ saveCalls l2.
Proof.
  induction l1 as [|[s|v] l1 IH]; cbn; [reflexivity|exact IH|now rewrite IH].
Qed.

Lemma collideOne_result (g : Game) (o : Entity) :
  snd (collideOne g o) = mark (carRect (redCar g)) (carRect (blueCar g)) o
  /\ LoopResult (carRect (redCar g)) (carRect (blueCar g)) [o] g
                (fst (collideOne g o)).
Proof.
  unfold collideOne, collideWith, mark, picked, lethal, picks, texture_is.
  destruct o as [tex rect coll]; cbn [texture destRect collected].
  destruct (SDL_HasIntersection (carRect (redCar g)) rect) eqn:Hr,
           (SDL_HasIntersection (carRect (blueCar g)) rect) eqn:Hb;
    destruct tex as [[]|], coll; cbn; rewrite ?Hr, ?Hb; cbn;
    (split; [reflexivity|]);
    constructor; unfold lethal, picks, picked, texture_is; cbn;
    rewrite ?Hr, ?Hb, ?saveCalls_app, ?app_nil_r; cbn;
    try reflexivity; try lia.
Qed.

Lemma collisionLoop_result (os : list Entity) :
  forall g,
    snd (collisionLoop os g)
    = map (mark (carRect (redCar g)) (carRect (blueCar g))) os
    /\ LoopResult (carRect (redCar g)) (carRect (blueCar g)) os g
                  (fst (collisionLoop os g)).
Proof.
  induction os as [|o os IH]; intros g.
  - cbn. split; [reflexivity|]. constructor; cbn; try reflexivity.
    unfold picks. cbn. lia.
  - cbn [collisionLoop].
    destruct (collideOne_result g o) as [Ho Hg].
    destruct (collideOne g o) as [g1 o1]. cbn [fst snd] in Ho, Hg.
    destruct (IH g1) as [Hos Hg1].
    destruct (collisionLoop os g1) as [g2 os2]. cbn [fst snd] in *.
    destruct Hg, Hg1.
    rewrite lr_redCar0, lr_blueCar0 in *.
    split; [cbn; now rewrite Ho, Hos|].
    constructor; try congruence.
    + rewrite lr_score1, lr_score0. unfold picks. cbn.
      destruct (picked _ _ o); cbn [List.length]; lia.
    + rewrite lr_state1, lr_state0. cbn.
      destruct (lethal _ _ o); cbn; [|reflexivity].
      now destruct (existsb _ os).
Qed.

Lemma collisionLoop_app (l1 l2 : list Entity) :
  forall g,
    collisionLoop (l1 ++ l2) g
    = let '(g1, o1) := collisionLoop l1 g in
      let '(g2, o2) := collisionLoop l2 g1 in
      (g2, o1 ++ o2).
Proof.
  induction l1 as [|o l1 IH]; intros g; cbn.
  - now destruct (collisionLoop l2 g).
  - destruct (collideOne g o) as [g0 o0]. rewrite IH.
    destruct (collisionLoop l1 g0) as [g1 o1].
    now destruct (collisionLoop l2 g1).
Qed.

Lemma picks_app (red blue : SDL_Rect) (l1 l2 : list Entity) :
  picks red blue (l1 ++ l2) = picks red blue l1 + picks red blue l2.
Proof. unfold picks. rewrite filter_app, length_app. lia. Qed.

Lemma checkCollision_result (r : Release) (g : Game) :
  CheckResult r g (checkCollision r g).
Proof.
  unfold checkCollision.
  destruct (collisionLoop_result (obstacles g) g) as [Hos Hg].
  destruct (collisionLoop (obstacles g) g) as [g1 os]. cbn [fst snd] in *.
  destruct Hg. cbn [currentState score highscore set_obstacles].
  fold (newRecord g1 (currentState g1) (score g1)).
  assert (Hrec : newRecord g1 (currentState g1) (score g1)
                 = newRecord g (currentState g1) (score g1))
    by (unfold newRecord; now rewrite lr_highscore0).
  rewrite Hrec.
  destruct (newRecord g (currentState g1) (score g1)) eqn:E.
  - unfold saveHighscore, emit.
    destruct (writable _), r; constructor; cbn;
      rewrite ?saveCalls_app, ?E; cbn; subst os;
      try reflexivity; congruence.
  - constructor; cbn; rewrite ?E, ?app_nil_r; subst os;
      try reflexivity; congruence.
Qed.

(** A game already past [checkCollision]'s loop keeps no collected entity. *)
Lemma checkCollision_leaves_uncollected (r : Release) (g : Game) :
  Forall (fun o => collected o = false) (obstacles (checkCollision r g)).
Proof.
  rewrite (cr_obstacles _ _ _ (checkCollision_result r g)).
  apply Forall_forall. intros o Ho. apply filter_In in Ho as [_ Ho].
  now apply negb_true_iff in Ho.
Qed.

Lemma picked_not_kept (red blue : SDL_Rect) (os : list Entity) (c : Entity) :
  picked red blue c = true ->
  ~ In c (filter uncollected (map (mark red blue) os))
  /\ ~ In (set_collected true c) (filter uncollected (map (mark red blue) os)).
Proof.
  intros Hp. split; intros Hin; apply filter_In in Hin as [Hin Hu].
  - apply in_map_iff in Hin as (o & Ho & _). unfold mark in Ho.
    destruct (picked red blue o) eqn:E.
    + subst c. discriminate Hu.
    + subst o. congruence.
  - discriminate Hu.
Qed.

(** C10.  In one [checkCollision] call the loop does not stop at a lethal
    box: with the obstacle list [pre ++ box :: post] and [box] lethal, the
    state is [DEATH_SCREEN] as soon as the loop has handled [box], and
    every later uncollected circle touching the car of its colour is still
    marked collected and still adds one to the score; before the call
    returns every entity marked collected is erased from the list. *)
Theorem checkCollision_continues_after_lethal_box :
  forall (r : Release) (g : Game) (pre post : list Entity) (box : Entity),
    obstacles g = pre ++ box :: post ->
    lethal (carRect (redCar g)) (carRect (blueCar g)) box = true ->
    let red := carRect (redCar g) in
    let blue := carRect (blueCar g) in
    let atBox := fst (collisionLoop (pre ++ [box]) g) in
    currentState atBox = DEATH_SCREEN
    /\ score (checkCollision r g) = score atBox + picks red blue post
    /\ (forall c, In c post -> picked red blue c = true ->
          In (set_collected true c) (snd (collisionLoop (obstacles g) g))
          /\ ~ In c (obstacles (checkCollision r g))
          /\ ~ In (set_collected true c) (obstacles (checkCollision r g)))
    /\ Forall (fun o => collected o = false) (obstacles (checkCollision r g))
    /\ currentState (checkCollision r g) = DEATH_SCREEN.
Proof.
  intros r g pre post box Hobs Hbox red blue atBox.
  destruct (collisionLoop_result (pre ++ [box]) g) as [_ HatBox].
  fold atBox red blue in HatBox.
  pose proof (checkCollision_result r g) as Hcc. fold red blue in Hcc.
  assert (Hex : forall l, existsb (lethal red blue) (pre ++ box :: l) = true).
  { intros l. apply existsb_exists. exists box. split; [|exact Hbox].
    apply in_or_app. right. now left. }
  split; [|split; [|split; [|split]]].
  - rewrite (lr_state _ _ _ _ _ HatBox).
    change (pre ++ [box]) with (pre ++ box :: []). now rewrite Hex.
  - rewrite (cr_score _ _ _ Hcc), (lr_score _ _ _ _ _ HatBox), Hobs.
    change (box :: post) with ([box] ++ post).
    rewrite app_assoc, picks_app. subst red blue. lia.
  - intros c Hin Hpicked. rewrite (cr_obstacles _ _ _ Hcc).
    split; [|now apply picked_not_kept].
    destruct (collisionLoop_result (obstacles g) g) as [-> _].
    fold red blue. apply in_map_iff. exists c. split.
    + unfold mark. now rewrite Hpicked.
    + rewrite Hobs. apply in_or_app. right. now right.
  - apply checkCollision_leaves_uncollected.
  - rewrite (cr_state _ _ _ Hcc), Hobs. now rewrite Hex.
Qed.

Lemma checkCollision_continues_after_lethal_box_witness :
  let box := mkEntity (Some redBox) (mkRect LANE_4 600 40 40) false in
  let circle := mkEntity (Some redCircle) (mkRect LANE_4 630 40 40) false in
  let g := set_currentState NORMAL_MODE
             (set_obstacles [box; circle] (newGame emptyDisk restingMenu 0)) in
  obstacles g = [] ++ box :: [circle]
  /\ lethal (carRect (redCar g)) (carRect (blueCar g)) box = true
  /\ currentState (fst (collisionLoop ([] ++ [box]) g)) = DEATH_SCREEN
  /\ score (checkCollision Revised g)
     = score (fst (collisionLoop ([] ++ [box]) g))
       + picks (carRect (redCar g)) (carRect (blueCar g)) [circle]
  /\ (forall c, In c [circle] ->
        picked (carRect (redCar g)) (carRect (blueCar g)) c = true ->
        In (set_collected true c) (snd (collisionLoop (obstacles g) g))
        /\ ~ In c (obstacles (checkCollision Revised g))
        /\ ~ In (set_collected true c) (obstacles (checkCollision Revised g)))
  /\ Forall (fun o => collected o = false) (obstacles (checkCollision Revised g))
  /\ currentState (checkCollision Revised g) = DEATH_SCREEN.
Proof.
  intros box circle g.
  split; [reflexivity|]. split; [reflexivity|].
  exact (checkCollision_continues_after_lethal_box
           Revised g [] [circle] box eq_refl eq_refl).
Defined.

(** The same run, evaluated: the box ends the game, the circle behind it
    is still collected, counted and erased. *)
Example checkCollision_box_then_circle :
  let box := mkEntity (Some redBox) (mkRect LANE_4 600 40 40) false in
  let circle := mkEntity (Some redCircle) (mkRect LANE_4 630 40 40) false in
  let g := set_currentState NORMAL_MODE
             (set_obstacles [box; circle] (newGame emptyDisk restingMenu 0)) in
  currentState (checkCollision Revised g) = DEATH_SCREEN
  /\ score (checkCollision Revised g) = 1
  /\ obstacles (checkCollision Revised g) = [box]
  /\ highscore (checkCollision Revised g) = 1.
Proof. repeat split. Qed.

(* ================================================================= *)
(** ** Highscore at game over *)

Lemma cull_highscore_saves (os : list Entity) :
  forall g,
    highscore (fst (cull os g)) = highscore g
    /\ saveCalls (effects (fst (cull os g))) = saveCalls (effects g).
Proof.
  induction os as [|o os IH]; intros g; cbn; [now split|].
  destruct (offScreen o).
  - destruct (missedCircle o); [|apply IH].
    destruct (IH (set_currentState DEATH_SCREEN (emit (PlaySound circleMissSound) g)))
      as [-> ->].
    cbn. rewrite saveCalls_app. cbn. now rewrite app_nil_r.
  - specialize (IH g). now destruct (cull os g) as [g' kept].
Qed.

Lemma updateObstacles_highscore_saves (g : Game) :
  highscore (updateObstacles g) = highscore g
  /\ saveCalls (effects (updateObstacles g)) = saveCalls (effects g).
Proof.
  unfold updateObstacles.
  pose proof (cull_highscore_saves
                (map (move_down (obstacleSpeed g)) (obstacles g)) g) as H.
  destruct (cull _ g) as [g' kept]. exact H.
Qed.

(** The rest of a tick neither ends the game nor touches score, highscore
    or the effect log. *)
Lemma increaseDifficulty_frame (r : Release) (t : Z) (g : Game) :
  currentState (increaseDifficulty r t g) = currentState g
  /\ score (increaseDifficulty r t g) = score g
  /\ highscore (increaseDifficulty r t g) = highscore g
  /\ effects (increaseDifficulty r t g) = effects g.
Proof.
  unfold increaseDifficulty.
  destruct (_ && _); [|now repeat split].
  destruct (spawnRate g >? spawnRateGuard r); cbn;
    destruct (_ <? 15); cbn; now repeat split.
Qed.

Lemma spawnObstacle_frame (lanes : list Z) (c0 c1 : Z) (u : option Texture)
    (g : Game) :
  currentState (spawnObstacle lanes c0 c1 u g) = currentState g
  /\ score (spawnObstacle lanes c0 c1 u g) = score g
  /\ highscore (spawnObstacle lanes c0 c1 u g) = highscore g
  /\ effects (spawnObstacle lanes c0 c1 u g) = effects g.
Proof.
  unfold spawnObstacle. destruct (patternTimer g =? 0); now repeat split.
Qed.

Lemma update_playing (r : Release) (i : TickInput) (g : Game) :
  currentState g = NORMAL_MODE ->
  let g2 := checkCollision r (updateObstacles g) in
  currentState (update r i g) = currentState g2
  /\ score (update r i g) = score g2
  /\ highscore (update r i g) = highscore g2
  /\ effects (update r i g) = effects g2.
Proof.
  intros Hplay g2. unfold update. rewrite Hplay. fold g2.
  cbn [currentState score highscore effects set_redCar set_blueCar].
  destruct (spawnObstacle_frame (lanes i) (coin0 i) (coin1 i) (uninitTexture i)
              (increaseDifficulty r (tDifficulty i) g2)) as (-> & -> & -> & ->).
  destruct (increaseDifficulty_frame r (tDifficulty i) g2) as (-> & -> & -> & ->).
  now repeat split.
Qed.

(** At the end of [checkCollision], with the game over. *)
Lemma checkCollision_records_highscore (r : Release) (g : Game) :
  currentState (checkCollision r g) = DEATH_SCREEN ->
  highscore (checkCollision r g)
  = Z.max (highscore g) (score (checkCollision r g))
  /\ saveCalls (effects (checkCollision r g))
     = saveCalls (effects g)
       ++ (if score (checkCollision r g) >? highscore g
           then [score (checkCollision r g)] else []).
Proof.
  intros Hover. destruct (checkCollision_result r g).
  rewrite cr_highscore0, cr_saves0. unfold newRecord. rewrite Hover. cbn.
  destruct (score (checkCollision r g) >? highscore g) eqn:E; split;
    try reflexivity.
  - apply Z.gtb_lt in E. lia.
  - rewrite Z.gtb_ltb in E. apply Z.ltb_ge in E. lia.
Qed.

(** C5.  In a tick that takes the game from [NORMAL_MODE] to
    [DEATH_SCREEN] (a lethal box or a missed circle), the highscore becomes
    the maximum of its previous value and the score, so that afterwards
    [highscore >= score]; and [saveHighscore] is invoked in that tick (once,
    with the new highscore) if and only if the score is strictly above the
    previous highscore. *)
Theorem highscore_updated_at_game_over :
  forall (r : Release) (i : TickInput) (g : Game),
    currentState g = NORMAL_MODE ->
    currentState (update r i g) = DEATH_SCREEN ->
    highscore (update r i g) = Z.max (highscore g) (score (update r i g))
    /\ highscore (update r i g) >= score (update r i g)
    /\ saveCalls (effects (update r i g))
       = saveCalls (effects g)
         ++ (if score (update r i g) >? highscore g
             then [score (update r i g)] else [])
    /\ (saveCalls (effects (update r i g)) <> saveCalls (effects g)
        <-> score (update r i g) > highscore g).
Proof.
  intros r i g Hplay Hover.
  destruct (update_playing r i g Hplay) as (Hst & Hsc & Hhs & Hef).
  rewrite Hst in Hover. rewrite Hsc, Hhs, Hef.
  destruct (checkCollision_records_highscore r _ Hover) as [Hmax Hsaves].
  destruct (updateObstacles_highscore_saves g) as [Hh Hs].
  rewrite Hh in Hmax, Hsaves. rewrite Hs in Hsaves.
  split; [exact Hmax|]. split; [lia|]. split; [exact Hsaves|].
  rewrite Hsaves.
  destruct (_ >? highscore g) eqn:E.
  - apply Z.gtb_lt in E. split; [lia|]. intros _ Heq.
    apply (f_equal (@List.length Z)) in Heq. rewrite length_app in Heq.
    cbn in Heq. lia.
  - rewrite Z.gtb_ltb in E. apply Z.ltb_ge in E. rewrite app_nil_r.
    split; [congruence|lia].
Qed.

Lemma highscore_updated_at_game_over_witness :
  let box := mkEntity (Some redBox) (mkRect LANE_4 600 40 40) false in
  let g := set_score 3 (set_highscore 1 (set_patternTimer 5
             (set_currentState NORMAL_MODE
                (set_obstacles [box] (newGame emptyDisk restingMenu 0))))) in
  let g' := update Revised (quietTick 2500) g in
  currentState g = NORMAL_MODE
  /\ currentState g' = DEATH_SCREEN
  /\ highscore g' = Z.max (highscore g) (score g')
  /\ highscore g' >= score g'
  /\ saveCalls (effects g')
     = saveCalls (effects g) ++ (if score g' >? highscore g then [score g'] else [])
  /\ (saveCalls (effects g') <> saveCalls (effects g) <-> score g' > highscore g).
Proof.
  intros box g g'.
  split; [reflexivity|]. split; [reflexivity|].
  exact (highscore_updated_at_game_over Revised (quietTick 2500) g
           eq_refl eq_refl).
Defined.

Example game_over_saves_new_highscore :
  let box := mkEntity (Some redBox) (mkRect LANE_4 600 40 40) false in
  let g := set_score 3 (set_highscore 1 (set_patternTimer 5
             (set_currentState NORMAL_MODE
                (set_obstacles [box] (newGame emptyDisk restingMenu 0))))) in
  let g' := update Revised (quietTick 2500) g in
  highscore g' = 3
  /\ effects g' = [PlaySound deathSound; SaveHighscore 3]
  /\ player_dat (disk g') = Some (bytes_of_int (xor_key 3)).
Proof. repeat split. Qed.

(* ================================================================= *)
(** ** Difficulty ramp *)

Lemma increaseDifficulty_monotone (r : Release) (t : Z) (g : Game) :
  spawnRate (increaseDifficulty r t g) <= spawnRate g
  /\ obstacleSpeed g <= obstacleSpeed (increaseDifficulty r t g).
Proof.
  unfold increaseDifficulty.
  destruct (_ && _); [|lia].
  destruct (spawnRate g >? spawnRateGuard r); cbn;
    destruct (_ <? 15); cbn; lia.
Qed.

(** X18.  Across any sequence of [increaseDifficulty] calls [spawnRate]
    never goes up and [obstacleSpeed] never goes down, in either release
    and from any state. *)
Lemma ramp_monotone (r : Release) (times : list Z) :
  forall g,
    spawnRate (ramp r times g) <= spawnRate g
    /\ obstacleSpeed g <= obstacleSpeed (ramp r times g).
Proof.
  induction times as [|t times IH]; intros g; cbn; [lia|].
  destruct (IH (increaseDifficulty r t g)) as [H1 H2].
  destruct (increaseDifficulty_monotone r t g) as [H3 H4].
  fold (ramp r times (increaseDifficulty r t g)). lia.
Qed.

Lemma increaseDifficulty_step (r : Release) (t : Z) (g : Game) :
  let g' := increaseDifficulty r t g in
  (spawnRate g' = spawnRate g
   \/ (spawnRate g > spawnRateGuard r /\ spawnRate g' = spawnRate g - 20))
  /\ (obstacleSpeed g' = obstacleSpeed g
      \/ (obstacleSpeed g < 15 /\ obstacleSpeed g' = obstacleSpeed g + 2)).
Proof.
  unfold increaseDifficulty.
  destruct (_ && _); [|cbn; auto].
  destruct (spawnRate g >? spawnRateGuard r) eqn:E1; cbn;
    destruct (_ <? 15) eqn:E2; cbn;
    rewrite ?Z.gtb_ltb in E1;
    try apply Z.ltb_lt in E1; try apply Z.ltb_lt in E2;
    split; solve [now left | right; split; [lia | reflexivity]].
Qed.

Lemma increaseDifficulty_invariant (r : Release) (t : Z) (g : Game) :
  rampInvariant r g -> rampInvariant r (increaseDifficulty r t g).
Proof.
  unfold rampInvariant. intros [Hr Hs].
  destruct (increaseDifficulty_step r t g) as [Hr' Hs'].
  destruct r; cbn in *; lia.
Qed.

Lemma ramp_invariant (r : Release) (times : list Z) :
  forall g, rampInvariant r g -> rampInvariant r (ramp r times g).
Proof.
  induction times as [|t times IH]; intros g Hg; cbn; [exact Hg|].
  apply IH, increaseDifficulty_invariant, Hg.
Qed.

(** X19.  What does hold after a reset: the revised release keeps
    [spawnRate] at 20 or more; the original release only keeps it
    non-negative; and [obstacleSpeed] stays at 16 or less in both. *)
Lemma ramp_bounds (r : Release) (times : list Z) (g : Game) :
  spawnRate g = 80 -> obstacleSpeed g = 6 ->
  (match r with Original => 0 | Revised => 20 end) <= spawnRate (ramp r times g)
  /\ obstacleSpeed (ramp r times g) <= 16.
Proof.
  intros H80 H6.
  assert (Hinv : rampInvariant r g).
  { unfold rampInvariant. rewrite H80, H6. destruct r; cbn; auto. }
  destruct (ramp_invariant r times g Hinv) as [Hr Hs].
  destruct r; cbn in Hr, Hs; intuition lia.
Qed.

(** C3 (violated by the code).  [increaseDifficulty] is called once per
    frame.  In the original release [spawnRate] passes below its guard
    value 10 and reaches 0 after 45 s of play; in both releases
    [obstacleSpeed] passes its guard value 15 and reaches 16 (after 60 s in
    the original release, after 120 s in the revised one). *)
Theorem difficulty_ramp_overshoots :
  spawnRate (ramp Original (frameTimes 5016 2850) (sessionAt5000 Original)) = 0
  /\ obstacleSpeed (ramp Original (frameTimes 5016 3800) (sessionAt5000 Original)) = 16
  /\ obstacleSpeed (ramp Revised (frameTimes 5016 7600) (sessionAt5000 Revised)) = 16
  /\ spawnRate (ramp Revised (frameTimes 5016 7600) (sessionAt5000 Revised)) = 20.
Proof. split; [|split; [|split]]; vm_compute; reflexivity. Qed.

(** The qualifying calls alone. *)
Example difficulty_ramp_steps :
  map (fun n => let g := ramp Original (firstn n [5016; 20000; 35000; 50000; 65000])
                              (sessionAt5000 Original) in
                (spawnRate g, obstacleSpeed g))
      [0; 1; 2; 3; 4; 5]%nat
  = [(80, 6); (60, 8); (40, 10); (20, 12); (0, 14); (0, 16)].
Proof. reflexivity. Qed.

(* ================================================================= *)
(** ** Entering [NORMAL_MODE] *)

Lemma rest_lanes :
  rx blueRest = LANE_1 /\ rx redRest = LANE_4.
Proof. now split. Qed.

Lemma enters_playing_iff (r : Release) (event : SDL_Event) (mx my t1 t2 : Z)
    (g : Game) :
  currentState g <> NORMAL_MODE
  /\ currentState (handleEvents r event mx my t1 t2 g) = NORMAL_MODE
  <-> startsPlaying r event mx my g.
Proof.
  unfold startsPlaying, handleEvents.
  destruct r, event as [|sym|button|], (currentState g) eqn:E; cbn;
    rewrite ?E;
    try (destruct (sym =? SDLK_r) eqn:Er;
         [apply Z.eqb_eq in Er | apply Z.eqb_neq in Er];
         try destruct (sym =? SDLK_h));
    try (destruct (clicked restartButtonRect mx my);
         try destruct (clicked homeButtonRect mx my));
    cbn; rewrite ?E;
    split; try tauto; try (intros [_ H]; discriminate H);
    try (intros [H _]; now elim H); try discriminate;
    try (intros _; split; [discriminate | reflexivity]);
    try (intros [_ H]; congruence).
Qed.

(** C4 (as amended).  In the revised release every transition into
    [NORMAL_MODE] - from the menu by any key or mouse button, from the
    death screen by the restart key or a click inside the restart button -
    resets the session: score 0, no obstacles, [spawnRate] 80,
    [obstacleSpeed] 6, both cars on their rest rectangles (blue at LANE_1,
    red at LANE_4), clock restarted.  In the original release every such
    transition restarts the clock and leaves the cars where they are; from
    the death screen it also resets score, obstacles, [spawnRate] and
    [obstacleSpeed]. *)
Theorem entering_playing_resets_session :
  forall (r : Release) (event : SDL_Event) (mx my t1 t2 : Z) (g : Game),
    currentState g <> NORMAL_MODE ->
    currentState (handleEvents r event mx my t1 t2 g) = NORMAL_MODE ->
    match r with
    | Revised => freshSession t1 (handleEvents r event mx my t1 t2 g)
    | Original => originalEntry t1 g (handleEvents r event mx my t1 t2 g)
    end.
Proof.
  intros r event mx my t1 t2 g Hfrom Hto.
  assert (Hs : startsPlaying r event mx my g)
    by (apply (enters_playing_iff r event mx my t1 t2 g); now split).
  clear Hto. unfold startsPlaying in Hs.
  unfold handleEvents, freshSession, originalEntry, sessionFieldsReset, carsAtRest.
  destruct r, event as [|sym|button|], (currentState g) eqn:E;
    try contradiction; try discriminate Hs;
    try (rewrite Hs; cbn); try (subst sym; cbn);
    cbn; repeat split; try discriminate.
Qed.

Lemma entering_playing_resets_session_witness :
  let g := set_score 7 (set_spawnRate 40 (set_obstacleSpeed 10
             (set_currentState DEATH_SCREEN
                (set_blueCar (newCar (mkRect LANE_2 620 40 65))
                   (newGame emptyDisk restingMenu 0))))) in
  currentState g <> NORMAL_MODE
  /\ currentState (handleEvents Revised (SDL_KEYDOWN SDLK_r) 0 0 9000 9000 g)
     = NORMAL_MODE
  /\ freshSession 9000 (handleEvents Revised (SDL_KEYDOWN SDLK_r) 0 0 9000 9000 g).
Proof.
  intros g.
  assert (H1 : currentState g <> NORMAL_MODE) by discriminate.
  split; [exact H1|]. split; [reflexivity|].
  exact (entering_playing_resets_session
           Revised (SDL_KEYDOWN SDLK_r) 0 0 9000 9000 g H1 eq_refl).
Defined.

(** C4 fails as first stated, on the original release: restarting from
    the death screen enters [NORMAL_MODE] with the blue car still on
    LANE_2. *)
Lemma original_release_restart_keeps_cars :
  let g := set_currentState DEATH_SCREEN
             (set_blueCar (newCar (mkRect LANE_2 620 40 65))
                (newGame emptyDisk restingMenu 0)) in
  let g' := handleEvents Original (SDL_KEYDOWN SDLK_r) 0 0 9000 9000 g in
  currentState g = DEATH_SCREEN
  /\ currentState g' = NORMAL_MODE
  /\ rx (carRect (blueCar g')) = LANE_2
  /\ ~ freshSession 9000 g'.
Proof.
  cbn zeta. repeat split.
  intros (_ & (Hblue & _) & _). discriminate Hblue.
Qed.

(** In the original release a session left with Escape and entered again
    from the menu comes back as it was. *)
Example original_release_resumes_from_menu :
  let o := mkEntity (Some redBox) (mkRect LANE_3 100 40 40) false in
  let playing := set_score 3 (set_spawnRate 60 (set_obstacleSpeed 8
                   (set_obstacles [o] (set_currentState NORMAL_MODE
                      (newGame emptyDisk restingMenu 0))))) in
  let paused :=
    handleEvents Original (SDL_KEYDOWN SDLK_ESCAPE) 0 0 7000 7000 playing in
  let g' := handleEvents Original (SDL_KEYDOWN 32) 0 0 9000 9000 paused in
  currentState paused = MAIN_MENU
  /\ currentState g' = NORMAL_MODE
  /\ score g' = 3 /\ obstacles g' = [o]
  /\ spawnRate g' = 60 /\ obstacleSpeed g' = 8.
Proof. repeat split. Qed.

(* ================================================================= *)
(** ** Car animation *)

Lemma updateRotation_start (now : Z) (c : Car) :
  rotating c = true ->
  u32 (now - rotationStartTime c) = 0 ->
  angle (updateRotation now c) = 0%R.
Proof.
  intros Hrot H0. unfold updateRotation. rewrite Hrot, H0. cbn.
  rewrite Rmult_0_r, sin_0. apply Rmult_0_r.
Qed.

Lemma updateRotation_end (now : Z) (c : Car) :
  rotating c = true ->
  u32 (now - rotationStartTime c) >= rotationDuration ->
  angle (updateRotation now c) = 0%R /\ rotating (updateRotation now c) = false.
Proof.
  intros Hrot Hge. unfold updateRotation. rewrite Hrot.
  destruct (_ <? rotationDuration) eqn:E; [apply Z.ltb_lt in E; lia|].
  now split.
Qed.

Lemma updateMovement_end (now : Z) (c : Car) :
  moving c = true ->
  u32 (now - moveStartTime c) >= moveDuration ->
  rx (carRect (updateMovement now c)) = targetX c
  /\ moving (updateMovement now c) = false.
Proof.
  intros Hmov Hge. unfold updateMovement. rewrite Hmov.
  destruct (_ <? moveDuration) eqn:E; [apply Z.ltb_lt in E; lia|].
  now split.
Qed.

(** Before the duration has passed a call leaves its animation running. *)
Lemma updateRotation_under_way (now : Z) (c : Car) :
  rotating c = true ->
  u32 (now - rotationStartTime c) < rotationDuration ->
  rotating (updateRotation now c) = true.
Proof.
  intros Hrot Hlt. unfold updateRotation. rewrite Hrot.
  apply Z.ltb_lt in Hlt. rewrite Hlt. exact Hrot.
Qed.

Lemma updateMovement_under_way (now : Z) (c : Car) :
  moving c = true ->
  u32 (now - moveStartTime c) < moveDuration ->
  moving (updateMovement now c) = true.
Proof.
  intros Hmov Hlt. unfold updateMovement. rewrite Hmov.
  apply Z.ltb_lt in Hlt. rewrite Hlt. exact Hmov.
Qed.

(** Neither animation touches the other one, nor its own start time or
    target. *)
Lemma updateRotation_keeps (now : Z) (c : Car) :
  rotationStartTime (updateRotation now c) = rotationStartTime c
  /\ moving (updateRotation now c) = moving c
  /\ moveStartTime (updateRotation now c) = moveStartTime c
  /\ targetX (updateRotation now c) = targetX c
  /\ carRect (updateRotation now c) = carRect c.
Proof.
  unfold updateRotation. destruct (rotating c); [|now repeat split].
  destruct (_ <? rotationDuration); now repeat split.
Qed.

Lemma updateMovement_keeps (now : Z) (c : Car) :
  moveStartTime (updateMovement now c) = moveStartTime c
  /\ targetX (updateMovement now c) = targetX c
  /\ rotating (updateMovement now c) = rotating c
  /\ rotationStartTime (updateMovement now c) = rotationStartTime c
  /\ angle (updateMovement now c) = angle c.
Proof.
  unfold updateMovement. destruct (moving c); [|now repeat split].
  destruct (_ <? moveDuration); now repeat split.
Qed.

Lemma carFrames_snoc (ts : list (Z * Z)) (t : Z * Z) (c : Car) :
  carFrames (ts ++ [t]) c = carFrame t (carFrames ts c).
Proof. unfold carFrames. now rewrite fold_left_app. Qed.

(** Through frames that all come before the end of the rotation, the
    rotation stays switched on with the start time it was given. *)
Lemma carFrames_rotation_under_way (ts : list (Z * Z)) :
  forall c : Car,
    rotating c = true ->
    Forall (rotationUnderWay (rotationStartTime c)) ts ->
    rotating (carFrames ts c) = true
    /\ rotationStartTime (carFrames ts c) = rotationStartTime c.
Proof.
  induction ts as [|t ts IH]; intros c Hrot Hts; [now split|].
  inversion Hts as [|? ? Ht Hrest]; subst.
  change (carFrames (t :: ts) c) with (carFrames ts (carFrame t c)).
  unfold carFrame in *.
  destruct (updateRotation_keeps (fst t) c) as (Hs & _).
  destruct (updateMovement_keeps (snd t) (updateRotation (fst t) c))
    as (_ & _ & Hr' & Hs' & _).
  destruct (IH (updateMovement (snd t) (updateRotation (fst t) c))) as [H1 H2].
  - rewrite Hr'. now apply updateRotation_under_way.
  - now rewrite Hs', Hs.
  - split; [exact H1|]. now rewrite H2, Hs', Hs.
Qed.

(** Likewise for the movement, whose target stays as well. *)
Lemma carFrames_movement_under_way (ts : list (Z * Z)) :
  forall c : Car,
    moving c = true ->
    Forall (movementUnderWay (moveStartTime c)) ts ->
    moving (carFrames ts c) = true
    /\ moveStartTime (carFrames ts c) = moveStartTime c
    /\ targetX (carFrames ts c) = targetX c.
Proof.
  induction ts as [|t ts IH]; intros c Hmov Hts; [now repeat split|].
  inversion Hts as [|? ? Ht Hrest]; subst.
  change (carFrames (t :: ts) c) with (carFrames ts (carFrame t c)).
  unfold carFrame in *.
  destruct (updateRotation_keeps (fst t) c) as (_ & Hm & Hs & Hx & _).
  destruct (updateMovement_keeps (snd t) (updateRotation (fst t) c))
    as (Hs' & Hx' & _).
  destruct (IH (updateMovement (snd t) (updateRotation (fst t) c)))
    as (H1 & H2 & H3).
  - apply updateMovement_under_way; [now rewrite Hm|].
    unfold movementUnderWay in Ht. now rewrite Hs.
  - now rewrite Hs', Hs.
  - split; [exact H1|]. split; [now rewrite H2, Hs', Hs|].
    now rewrite H3, Hx', Hx.
Qed.

(** A lane-toggle key starts both animations, with the 200 ms durations. *)
Lemma startToggle_starts (home other tMove tRotate : Z) (c : Car) :
  let c' := startToggle home other tMove tRotate c in
  rotating c' = true /\ moving c' = true
  /\ rotationStartTime c' = tRotate /\ moveStartTime c' = tMove
  /\ targetX c' = (if rx (carRect c) =? home then other else home).
Proof.
  unfold startToggle. destruct (rx (carRect c) =? home); now repeat split.
Qed.

(** C8.  A car is taken through any number of frames ([updateRotation],
    then [updateMovement]) and then through one more frame with clock
    readings [tr] and [tm].

    For a car whose rotation is switched on: while every earlier frame
    came before the end of the 200 ms, the rotation is still switched on
    with the same start time; if the elapsed time at [tr] is 0 the angle
    becomes 0; and if it has reached the duration, [updateRotation] sets
    the angle to exactly 0 and clears [rotating].

    For a car whose movement is switched on, whatever its rotation does:
    while every earlier frame came before the end of the 200 ms, the
    movement is still switched on with the same start time and target;
    and if the elapsed time at [tm] has reached the duration,
    [updateMovement] - called, as in the program, after [updateRotation] -
    sets the x-position to exactly [targetX] and clears [moving]. *)
Theorem animation_boundaries :
  forall (c : Car) (ts : list (Z * Z)) (tr tm : Z),
    let c' := carFrames ts c in
    (rotating c = true ->
     Forall (rotationUnderWay (rotationStartTime c)) ts ->
     rotating c' = true
     /\ rotationStartTime c' = rotationStartTime c
     /\ (u32 (tr - rotationStartTime c) = 0 ->
         angle (updateRotation tr c') = 0%R)
     /\ (u32 (tr - rotationStartTime c) >= rotationDuration ->
         angle (updateRotation tr c') = 0%R
         /\ rotating (updateRotation tr c') = false))
    /\ (moving c = true ->
        Forall (movementUnderWay (moveStartTime c)) ts ->
        moving c' = true
        /\ moveStartTime c' = moveStartTime c
        /\ targetX c' = targetX c
        /\ (u32 (tm - moveStartTime c) >= moveDuration ->
            rx (carRect (updateMovement tm (updateRotation tr c'))) = targetX c
            /\ moving (updateMovement tm (updateRotation tr c')) = false)).
Proof.
  intros c ts tr tm c'. split.
  - intros Hrot Hts.
    destruct (carFrames_rotation_under_way ts c Hrot Hts) as [Hr Hs].
    fold c' in Hr, Hs.
    split; [exact Hr|]. split; [exact Hs|]. split.
    + intros H0. apply updateRotation_start; [exact Hr|now rewrite Hs].
    + intros Hge. apply updateRotation_end; [exact Hr|now rewrite Hs].
  - intros Hmov Hts.
    destruct (carFrames_movement_under_way ts c Hmov Hts) as (Hm & Hs & Hx).
    fold c' in Hm, Hs, Hx.
    split; [exact Hm|]. split; [exact Hs|]. split; [exact Hx|].
    intros Hge.
    destruct (updateRotation_keeps tr c') as (_ & Hm' & Hs' & Hx' & _).
    rewrite <- Hx, <- Hx'.
    apply updateMovement_end; [now rewrite Hm'|now rewrite Hs', Hs].
Qed.

Lemma animation_boundaries_witness :
  let c := startToggle LANE_1 LANE_2 1000 1000 (newCar blueRest) in
  let ts := [(1000, 1000); (1016, 1016); (1100, 1101); (1199, 1199)] in
  let c' := carFrames ts c in
  rotating c = true
  /\ Forall (rotationUnderWay (rotationStartTime c)) ts
  /\ moving c = true
  /\ Forall (movementUnderWay (moveStartTime c)) ts
  /\ rotating c' = true
  /\ moving c' = true
  /\ angle (updateRotation 1000 c') = 0%R
  /\ (angle (updateRotation 1200 c') = 0%R
      /\ rotating (updateRotation 1200 c') = false)
  /\ (rx (carRect (updateMovement 1201 (updateRotation 1200 c'))) = LANE_2
      /\ moving (updateMovement 1201 (updateRotation 1200 c')) = false).
Proof.
  intros c ts c'.
  assert (Hrot : rotating c = true) by reflexivity.
  assert (Hmov : moving c = true) by reflexivity.
  assert (Hr : Forall (rotationUnderWay (rotationStartTime c)) ts)
    by (repeat apply Forall_cons; try apply Forall_nil; reflexivity).
  assert (Hm : Forall (movementUnderWay (moveStartTime c)) ts)
    by (repeat apply Forall_cons; try apply Forall_nil; reflexivity).
  destruct (animation_boundaries c ts 1000 1201) as (Hstart & _).
  destruct (animation_boundaries c ts 1200 1201) as (Hrend & Hmend).
  destruct (Hstart Hrot Hr) as (H1 & _ & H0 & _).
  destruct (Hrend Hrot Hr) as (_ & _ & _ & H200).
  destruct (Hmend Hmov Hm) as (H2 & _ & _ & H201).
  split; [exact Hrot|]. split; [exact Hr|].
  split; [exact Hmov|]. split; [exact Hm|].
  split; [exact H1|]. split; [exact H2|].
  split; [exact (H0 eq_refl)|].
  split; [apply H200; vm_compute; discriminate|].
  apply H201; vm_compute; discriminate.
Defined.

(* ================================================================= *)
(** ** Persistence *)

(** *** Revised release: bytes and XOR *)

Lemma u32_range z : 0 <= u32 z < 2 ^ 32.
Proof. unfold u32. apply Z.mod_pos_bound. reflexivity. Qed.

Lemma u32_small z : 0 <= z < 2 ^ 32 -> u32 z = z.
Proof. intros H. unfold u32. now apply Z.mod_small. Qed.

Lemma u32_to_int32 z : u32 (to_int32 z) = u32 z.
Proof.
  unfold to_int32. pose proof (u32_range z) as H.
  destruct (u32 z <? 2 ^ 31).
  - now apply u32_small.
  - unfold u32 at 1. rewrite <- (Z.mod_add _ 1 (2 ^ 32)) by discriminate.
    replace (u32 z - 2 ^ 32 + 1 * 2 ^ 32) with (u32 z) by lia.
    now apply Z.mod_small.
Qed.

Lemma to_int32_u32 h : INT_MIN <= h <= INT_MAX -> to_int32 (u32 h) = h.
Proof.
  unfold INT_MIN, INT_MAX, to_int32. intros H.
  rewrite (u32_small (u32 h)) by apply u32_range.
  unfold u32.
  destruct (Z.neg_nonneg_cases h) as [Hn | Hp].
  - rewrite <- (Z.mod_add _ 1 (2 ^ 32)) by discriminate.
    rewrite Z.mod_small by lia.
    destruct (_ <? _) eqn:E; [apply Z.ltb_lt in E|]; lia.
  - rewrite Z.mod_small by lia.
    destruct (_ <? _) eqn:E; [|apply Z.ltb_ge in E]; lia.
Qed.

Lemma high_bits_clear a n : 0 <= a < 2 ^ 32 -> 32 <= n -> Z.testbit a n = false.
Proof.
  intros Ha Hn. rewrite <- (Z.mod_small a (2 ^ 32)) by exact Ha.
  apply Z.mod_pow2_bits_high. lia.
Qed.

Lemma lxor_u32 a b : 0 <= a < 2 ^ 32 -> 0 <= b < 2 ^ 32 -> 0 <= Z.lxor a b < 2 ^ 32.
Proof.
  intros Ha Hb.
  assert (E : Z.lxor a b mod 2 ^ 32 = Z.lxor a b).
  { apply Z.bits_inj'. intros n Hn.
    destruct (Z.lt_ge_cases n 32) as [Hlo | Hhi].
    - now rewrite Z.mod_pow2_bits_low.
    - rewrite Z.mod_pow2_bits_high by lia.
      rewrite Z.lxor_spec, !high_bits_clear by assumption. reflexivity. }
  rewrite <- E. apply Z.mod_pos_bound. reflexivity.
Qed.

Lemma xor_key_involutive h : INT_MIN <= h <= INT_MAX -> xor_key (xor_key h) = h.
Proof.
  intros H. unfold xor_key. rewrite u32_to_int32.
  assert (Hk : 0 <= XOR_KEY < 2 ^ 32) by (unfold XOR_KEY; lia).
  rewrite (u32_small (Z.lxor _ _)) by (apply lxor_u32; [apply u32_range|exact Hk]).
  rewrite Z.lxor_assoc, Z.lxor_nilpotent, Z.lxor_0_r.
  now apply to_int32_u32.
Qed.

Lemma to_int32_idem v : to_int32 (u32 v) = to_int32 v.
Proof.
  unfold to_int32. now rewrite (u32_small (u32 v)) by apply u32_range.
Qed.

Lemma int_of_bytes_of_int v : int_of_bytes (bytes_of_int v) = to_int32 v.
Proof.
  unfold int_of_bytes, bytes_of_int. cbn [fold_right].
  rewrite <- (to_int32_idem v). f_equal.
  pose proof (u32_range v) as H. revert H. generalize (u32 v) as u. intros u H.
  change 255 with (Z.ones 8). rewrite !Z.land_ones, !Z.shiftr_div_pow2 by lia.
  change (2 ^ 8) with 256. change (2 ^ 16) with 65536.
  change (2 ^ 24) with 16777216. change (2 ^ 32) with 4294967296 in H.
  Z.div_mod_to_equations. lia.
Qed.

Lemma read_int_full uninit bs :
  List.length bs = 4%nat -> read_int uninit bs = int_of_bytes bs.
Proof.
  intros Hlen. unfold read_int.
  destruct bs as [|a [|b [|c [|d [|]]]]]; try discriminate. reflexivity.
Qed.

Lemma revised_round_trip uninit h :
  INT_MIN <= h <= INT_MAX ->
  xor_key (read_int uninit (bytes_of_int (xor_key h))) = h.
Proof.
  intros H. rewrite read_int_full by reflexivity.
  rewrite int_of_bytes_of_int.
  replace (xor_key (to_int32 (xor_key h))) with (xor_key (xor_key h))
    by (unfold xor_key at 1 3; now rewrite u32_to_int32).
  now apply xor_key_involutive.
Qed.

(** *** Original release: decimal text *)

Lemma take_digits_numeral (d : uint) :
  take_digits (NilEmpty.string_of_uint d) = NilEmpty.string_of_uint d.
Proof.
  induction d; cbn; try reflexivity; now rewrite IHd.
Qed.

(** The sign and white-space tests see a digit first. *)
Lemma extract_int_numeral (old : Z) (d : uint) :
  d <> Nil ->
  extract_int old (NilEmpty.string_of_uint d) = clamp_int (Z.of_int (Pos d)).
Proof.
  intros Hd. unfold extract_int.
  assert (Hskip : skip_ws (NilEmpty.string_of_uint d) = NilEmpty.string_of_uint d)
    by (destruct d; reflexivity).
  rewrite Hskip.
  destruct (NilEmpty.string_of_uint d) as [|c s'] eqn:Es;
    [destruct d; try discriminate Es; contradiction|].
  assert (Hbody : (if Ascii.eqb c "-" then (true, s')
                   else if Ascii.eqb c "+" then (false, s')
                   else (false, String c s')) = (false, String c s'))
    by (destruct d; cbn in Es; try discriminate Es;
        injection Es as <- _; reflexivity).
  rewrite Hbody, <- Es, take_digits_numeral.
  replace (NilEmpty.string_of_uint d) with (NilZero.string_of_uint d)
    by (destruct d; try reflexivity; contradiction).
  now rewrite NilZero.usu.
Qed.

Lemma extract_int_negative_numeral (old : Z) (d : uint) :
  d <> Nil ->
  extract_int old (String "-" (NilEmpty.string_of_uint d))
  = clamp_int (Z.of_int (Neg d)).
Proof.
  intros Hd. unfold extract_int. cbn [skip_ws].
  change (is_space "-") with false. cbn iota.
  change (Ascii.eqb "-" "-") with true. cbn iota.
  rewrite take_digits_numeral.
  replace (NilEmpty.string_of_uint d) with (NilZero.string_of_uint d)
    by (destruct d; try reflexivity; contradiction).
  now rewrite NilZero.usu.
Qed.

Lemma clamp_int_in_range z : INT_MIN <= z <= INT_MAX -> clamp_int z = z.
Proof.
  intros H. unfold clamp_int.
  destruct (z <? INT_MIN) eqn:E1; [apply Z.ltb_lt in E1; lia|].
  destruct (INT_MAX <? z) eqn:E2; [apply Z.ltb_lt in E2; lia|]. reflexivity.
Qed.

Lemma to_uint_nonnil p : Pos.to_uint p <> Nil.
Proof.
  intros E. pose proof (DecimalPos.Unsigned.of_to p) as H. rewrite E in H.
  discriminate H.
Qed.

Lemma original_round_trip old h :
  INT_MIN <= h <= INT_MAX -> extract_int old (insert_int h) = h.
Proof.
  intros H. unfold insert_int.
  pose proof (DecimalZ.of_to h) as Hof.
  destruct h as [|p|p]; [reflexivity| |]; cbn [Z.to_int NilZero.string_of_int] in *.
  - replace (NilZero.string_of_uint (Pos.to_uint p))
      with (NilEmpty.string_of_uint (Pos.to_uint p))
      by (pose proof (to_uint_nonnil p); now destruct (Pos.to_uint p)).
    rewrite extract_int_numeral by apply to_uint_nonnil.
    rewrite Hof. now apply clamp_int_in_range.
  - replace (NilZero.string_of_uint (Pos.to_uint p))
      with (NilEmpty.string_of_uint (Pos.to_uint p))
      by (pose proof (to_uint_nonnil p); now destruct (Pos.to_uint p)).
    rewrite extract_int_negative_numeral by apply to_uint_nonnil.
    rewrite Hof. now apply clamp_int_in_range.
Qed.

Example extract_int_examples :
  extract_int 3 "  -12abc" = -12
  /\ extract_int 3 "+7" = 7
  /\ extract_int 3 "" = 3
  /\ extract_int 3 "  " = 3
  /\ extract_int 3 "x1" = 0
  /\ extract_int 3 "-" = 0
  /\ extract_int 3 "99999999999" = INT_MAX
  /\ insert_int (-5) = "-5"%string
  /\ insert_int 0 = "0"%string.
Proof. repeat split. Qed.

Example bytes_examples :
  xor_key 5 = -1515870816
  /\ bytes_of_int (xor_key 5) = [160; 165; 165; 165]
  /\ read_int 0 [160; 165; 165; 165] = -1515870816
  /\ read_int 0 [160; 165] = 42400.
Proof. repeat split. Qed.

(** *** Both releases *)

Lemma loadHighscore_absent (r : Release) (uninit : Z) (g : Game) :
  fileAbsent r (disk g) -> loadHighscore r uninit g = g.
Proof.
  unfold fileAbsent, loadHighscore. destruct r; now intros ->.
Qed.

(** Loading reads nothing of the game but its disk. *)
Lemma load_after_save (r : Release) (uninit : Z) (g g' : Game) :
  INT_MIN <= highscore g <= INT_MAX ->
  writable (disk g) = true ->
  disk g' = disk (saveHighscore r g) ->
  highscore (loadHighscore r uninit g') = highscore g.
Proof.
  intros Hrange Hw Hdisk. unfold loadHighscore. rewrite Hdisk.
  unfold saveHighscore, emit. cbn. rewrite Hw.
  destruct r; cbn.
  - now apply original_round_trip.
  - now apply revised_round_trip.
Qed.

(** C9.  With no persistence file, [loadHighscore] leaves the highscore
    of a new game at its default 0.  For every [int] highscore, a
    [saveHighscore] followed by a [loadHighscore] - in the same run or in
    a new game on the same disk - yields that highscore again; in the
    revised release the file holds the four bytes of the value XORed with
    [0xA5A5A5A5], and the XOR after the read undoes the one before the
    write. *)
Theorem highscore_save_load_round_trip :
  forall (r : Release) (uninit : Z) (d : Disk) (m : MenuText) (now : Z)
         (g : Game),
    fileAbsent r d ->
    INT_MIN <= highscore g <= INT_MAX ->
    writable (disk g) = true ->
    highscore (loadHighscore r uninit (newGame d m now)) = 0
    /\ highscore (loadHighscore r uninit (saveHighscore r g)) = highscore g
    /\ highscore (loadHighscore r uninit
                    (newGame (disk (saveHighscore r g)) m now))
       = highscore g
    /\ match r with
       | Revised =>
           player_dat (disk (saveHighscore r g))
           = Some (bytes_of_int
                     (to_int32 (Z.lxor (u32 (highscore g)) 0xA5A5A5A5)))
       | Original =>
           highscore_txt (disk (saveHighscore r g))
           = Some (insert_int (highscore g))
       end.
Proof.
  intros r uninit d m now g Habs Hrange Hw.
  split; [|split; [|split]].
  - now rewrite loadHighscore_absent.
  - now apply load_after_save.
  - now apply load_after_save.
  - unfold saveHighscore, emit. cbn. rewrite Hw. now destruct r.
Qed.

Lemma highscore_save_load_round_trip_witness :
  let g := set_highscore 5 (newGame emptyDisk restingMenu 0) in
  fileAbsent Revised emptyDisk
  /\ INT_MIN <= highscore g <= INT_MAX
  /\ writable (disk g) = true
  /\ highscore (loadHighscore Revised 0 (newGame emptyDisk restingMenu 0)) = 0
  /\ highscore (loadHighscore Revised 0 (saveHighscore Revised g)) = 5
  /\ highscore (loadHighscore Revised 0
                  (newGame (disk (saveHighscore Revised g)) restingMenu 0))
     = 5
  /\ player_dat (disk (saveHighscore Revised g))
     = Some (bytes_of_int (to_int32 (Z.lxor (u32 5) 0xA5A5A5A5))).
Proof.
  intros g.
  assert (H1 : fileAbsent Revised emptyDisk) by reflexivity.
  assert (H2 : INT_MIN <= highscore g <= INT_MAX) by (cbn; unfold INT_MIN, INT_MAX; lia).
  assert (H3 : writable (disk g) = true) by reflexivity.
  split; [exact H1|]. split; [exact H2|]. split; [exact H3|].
  exact (highscore_save_load_round_trip Revised 0 emptyDisk restingMenu 0 g
           H1 H2 H3).
Defined.

(* ================================================================= *)
(** * Further properties of the code *)
(* ================================================================= *)
(** ** More on spawning *)

Lemma spawnY_negative (tex : option Texture) (obs : list Entity) :
  spawnY tex obs < 0.
Proof.
  destruct tex as [t|].
  - rewrite spawnY_assigned. destruct (back obs) as [l|]; [|reflexivity].
    destruct (ry (destRect l) <? MIN_GAP) eqn:E; [|reflexivity].
    apply Z.ltb_lt in E. lia.
  - reflexivity.
Qed.

Lemma chooseSide_lane (lane coin : Z) (tex : option Texture) (f : SpawnFlags) :
  In (snd (chooseSide lane coin tex f)) [LANE_1; LANE_2; LANE_3; LANE_4].
Proof.
  unfold chooseSide.
  destruct ((lane =? 0) || (lane =? 1)).
  - destruct (chooseRed coin tex f) as [t f']. cbn [snd].
    destruct (lane =? 0); cbn; auto.
  - destruct (chooseBlue coin tex f) as [t f']. cbn [snd].
    destruct (lane =? 2); cbn; auto.
Qed.

Lemma firstSpawn_fresh lanes coin0 uninit g :
  freshObstacle (firstSpawn lanes coin0 uninit g).
Proof.
  unfold freshObstacle, firstSpawn, firstChoice.
  pose proof (chooseSide_lane (nth 0 lanes 0) coin0 uninit noneSpawned) as Hx.
  destruct (chooseSide (nth 0 lanes 0) coin0 uninit noneSpawned) as [[t f] x].
  cbn [collected destRect rw rh ry rx snd] in *.
  repeat split; auto. apply spawnY_negative.
Qed.

Lemma secondSpawn_fresh lanes coin0 coin1 uninit g :
  freshObstacle (secondSpawn lanes coin0 coin1 uninit g).
Proof.
  unfold freshObstacle, secondSpawn, secondChoice.
  pose proof (chooseSide_lane (nth 1 lanes 0) coin1
                (fst (fst (firstChoice lanes coin0 uninit)))
                (snd (fst (firstChoice lanes coin0 uninit)))) as Hx.
  destruct (chooseSide (nth 1 lanes 0) coin1 _ _) as [[t f] x].
  cbn [collected destRect rw rh ry rx snd] in *.
  repeat split; auto. apply spawnY_negative.
Qed.

(** X2.  Every entity that [spawnObstacle] creates is uncollected, 40 by
    40 pixels, on one of the four lane x-coordinates and starts with its
    top edge above the screen ([y < 0]) - for every lane vector, shuffled
    or not, every coin and every content of the texture's storage. *)
Theorem spawned_entities_are_fresh :
  forall (lanes : list Z) (coin0 coin1 : Z) (uninit : option Texture)
         (g : Game),
    patternTimer g = 0 ->
    Forall freshObstacle (spawned lanes coin0 coin1 uninit g).
Proof.
  intros lanes coin0 coin1 uninit g Hz.
  rewrite (spawned_pair lanes coin0 coin1 uninit g Hz).
  apply Forall_cons; [apply firstSpawn_fresh|].
  apply Forall_cons; [apply secondSpawn_fresh|apply Forall_nil].
Qed.

Lemma spawned_entities_are_fresh_witness :
  patternTimer (newGame emptyDisk restingMenu 0) = 0
  /\ Forall freshObstacle
       (spawned [3; 1; 0; 2] 7 4 None (newGame emptyDisk restingMenu 0)).
Proof.
  split; [reflexivity|].
  apply (spawned_entities_are_fresh [3; 1; 0; 2] 7 4 None). reflexivity.
Defined.

Lemma spawnObstacle_other_fields (lanes : list Z) (c0 c1 : Z)
    (u : option Texture) (g : Game) :
  spawnRate (spawnObstacle lanes c0 c1 u g) = spawnRate g
  /\ obstacleSpeed (spawnObstacle lanes c0 c1 u g) = obstacleSpeed g
  /\ redCar (spawnObstacle lanes c0 c1 u g) = redCar g
  /\ blueCar (spawnObstacle lanes c0 c1 u g) = blueCar g
  /\ disk (spawnObstacle lanes c0 c1 u g) = disk g.
Proof.
  unfold spawnObstacle. destruct (patternTimer g =? 0); now repeat split.
Qed.

Lemma spawnRun_waits (ins : list SpawnInput) :
  forall g,
    Z.of_nat (List.length ins) <= patternTimer g ->
    obstacles (spawnRun ins g) = obstacles g
    /\ patternTimer (spawnRun ins g) = patternTimer g - Z.of_nat (List.length ins)
    /\ spawnRate (spawnRun ins g) = spawnRate g.
Proof.
  induction ins as [|[l c0 c1 u] ins IH]; intros g Hlen.
  - cbn. repeat split. lia.
  - cbn [spawnRun fold_left sLanes sCoin0 sCoin1 sUninit].
    cbn [List.length] in Hlen |- *.
    assert (Hnz : patternTimer g <> 0) by lia.
    destruct (spawnObstacle_waits l c0 c1 u g Hnz) as [Ho Ht].
    destruct (spawnObstacle_other_fields l c0 c1 u g) as (Hr & _).
    fold (spawnRun ins (spawnObstacle l c0 c1 u g)).
    destruct (IH (spawnObstacle l c0 c1 u g)) as (H1 & H2 & H3); [lia|].
    rewrite H1, H2, H3, Ho, Ht, Hr. repeat split. lia.
Qed.

(** X1.  A call of [spawnObstacle] that spawns arms the countdown with
    [spawnRate]; the calls of the next [spawnRate] frames then add no
    entity, whatever their shuffles and coins, and leave the countdown at
    zero, so that pairs are [spawnRate + 1] frames apart. *)
Theorem spawn_cadence :
  forall (lanes : list Z) (coin0 coin1 : Z) (uninit : option Texture)
         (ins : list SpawnInput) (g : Game),
    patternTimer g = 0 ->
    Z.of_nat (List.length ins) = spawnRate g ->
    let g1 := spawnObstacle lanes coin0 coin1 uninit g in
    patternTimer g1 = spawnRate g
    /\ obstacles (spawnRun ins g1) = obstacles g1
    /\ patternTimer (spawnRun ins g1) = 0
    /\ (forall pre, pre <> ins -> (exists post, ins = pre ++ post) ->
          patternTimer (spawnRun pre g1) <> 0).
Proof.
  intros lanes coin0 coin1 uninit ins g Hz Hlen g1.
  assert (Ht : patternTimer g1 = spawnRate g).
  { unfold g1, spawnObstacle. now rewrite Hz. }
  split; [exact Ht|].
  destruct (spawnRun_waits ins g1) as (H1 & H2 & _); [lia|].
  split; [exact H1|]. split; [lia|].
  intros pre Hne [post ->].
  destruct (spawnRun_waits pre g1) as (_ & H3 & _).
  { rewrite length_app in Hlen. lia. }
  rewrite H3. rewrite length_app in Hlen.
  destruct post as [|x post]; [now rewrite app_nil_r in Hne|].
  cbn [List.length] in Hlen. lia.
Qed.

Lemma spawn_cadence_witness :
  let g := set_spawnRate 2 (newGame emptyDisk restingMenu 0) in
  let ins := [mkSpawnInput [0; 1; 2; 3] 0 0 None;
              mkSpawnInput [2; 3; 0; 1] 1 1 None] in
  let g1 := spawnObstacle [0; 2; 1; 3] 0 1 None g in
  patternTimer g = 0
  /\ Z.of_nat (List.length ins) = spawnRate g
  /\ patternTimer g1 = spawnRate g
  /\ obstacles (spawnRun ins g1) = obstacles g1
  /\ patternTimer (spawnRun ins g1) = 0
  /\ (forall pre, pre <> ins -> (exists post, ins = pre ++ post) ->
        patternTimer (spawnRun pre g1) <> 0).
Proof.
  intros g ins g1.
  split; [reflexivity|]. split; [reflexivity|].
  exact (spawn_cadence [0; 2; 1; 3] 0 1 None ins g eq_refl eq_refl).
Defined.

(* ================================================================= *)
(** ** More on culling *)

Lemma cull_frame (os : list Entity) :
  forall g, CullFrame g (fst (cull os g)).
Proof.
  induction os as [|o os IH]; intros g; cbn.
  - now constructor.
  - destruct (offScreen o).
    + destruct (missedCircle o); [|apply IH].
      destruct (IH (set_currentState DEATH_SCREEN
                      (emit (PlaySound circleMissSound) g))).
      now constructor.
    + specialize (IH g). now destruct (cull os g) as [g' kept].
Qed.

Lemma updateObstacles_frame (g : Game) : CullFrame g (updateObstacles g).
Proof.
  unfold updateObstacles.
  pose proof (cull_frame (map (move_down (obstacleSpeed g)) (obstacles g)) g) as H.
  destruct (cull _ g) as [g' kept]. cbn [fst] in H.
  destruct H. now constructor.
Qed.

(** X3.  [updateObstacles] moves every entity down by [obstacleSpeed] and
    keeps, in their order, exactly those whose new [y] is at most
    [SCREEN_HEIGHT]; texture, x, size and [collected] of an entity are not
    touched, and neither are score, highscore, cars, difficulty, spawn
    countdown and disk. *)
Theorem updateObstacles_moves_and_filters :
  forall g : Game,
    obstacles (updateObstacles g)
    = filter (fun o => ry (destRect o) <=? SCREEN_HEIGHT)
             (map (fun o => mkEntity (texture o)
                              (mkRect (rx (destRect o))
                                      (ry (destRect o) + obstacleSpeed g)
                                      (rw (destRect o)) (rh (destRect o)))
                              (collected o))
                  (obstacles g))
    /\ CullFrame g (updateObstacles g).
Proof.
  intros g. split; [|apply updateObstacles_frame].
  rewrite updateObstacles_obstacles. unfold movedObstacles.
  apply filter_ext. intros o. unfold offScreen.
  rewrite Z.leb_antisym. reflexivity.
Qed.

Lemma countSound_app (s : Sound) (l1 l2 : list Effect) :
  countSound s (l1 ++ l2) = (countSound s l1 + countSound s l2)%nat.
Proof.
  induction l1 as [|[s'|v] l1 IH]; cbn; [reflexivity| |exact IH].
  destruct (Sound_eqb s' s); cbn; now rewrite IH.
Qed.

Lemma cull_effects (os : list Entity) :
  forall g,
    effects (fst (cull os g))
    = effects g
      ++ repeat (PlaySound circleMissSound)
                (List.length (filter missedCircle (filter offScreen os))).
Proof.
  induction os as [|o os IH]; intros g; cbn.
  - now rewrite app_nil_r.
  - destruct (offScreen o); cbn.
    + destruct (missedCircle o); cbn.
      * rewrite IH. cbn. now rewrite <- app_assoc.
      * apply IH.
    + specialize (IH g). now destruct (cull os g) as [g' kept].
Qed.

(** X4.  [updateObstacles] plays the miss sound once for every uncollected
    circle it erases and produces no other effect; in particular it never
    invokes [saveHighscore]. *)
Theorem updateObstacles_miss_sounds :
  forall g : Game,
    effects (updateObstacles g)
    = effects g
      ++ repeat (PlaySound circleMissSound)
                (List.length (filter missedCircle (culled g))).
Proof.
  intros g. unfold updateObstacles, culled, movedObstacles.
  pose proof (cull_effects (map (move_down (obstacleSpeed g)) (obstacles g)) g) as H.
  destruct (cull _ g) as [g' kept]. exact H.
Qed.

(* ================================================================= *)
(** ** More on collisions *)

(** X5.  [checkCollision] ends a running game exactly when some box in
    the list touches the car of its own colour; otherwise the state is
    left as it was. *)
Theorem checkCollision_game_over_iff :
  forall (r : Release) (g : Game),
    currentState g <> DEATH_SCREEN ->
    (currentState (checkCollision r g) = DEATH_SCREEN
     <-> exists o, In o (obstacles g)
                   /\ lethal (carRect (redCar g)) (carRect (blueCar g)) o = true)
    /\ (currentState (checkCollision r g) <> DEATH_SCREEN ->
        currentState (checkCollision r g) = currentState g).
Proof.
  intros r g Hlive.
  rewrite (cr_state _ _ _ (checkCollision_result r g)).
  destruct (existsb _ (obstacles g)) eqn:E.
  - split; [|intros H; now elim H].
    split; [|reflexivity]. intros _. now apply existsb_exists.
  - split; [|reflexivity].
    split; [intros H; contradiction|].
    intros Hex. apply existsb_exists in Hex. congruence.
Qed.

Lemma checkCollision_game_over_iff_witness :
  let box := mkEntity (Some blueBox) (mkRect LANE_1 640 40 40) false in
  let g := set_currentState NORMAL_MODE
             (set_obstacles [box] (newGame emptyDisk restingMenu 0)) in
  currentState g <> DEATH_SCREEN
  /\ currentState (checkCollision Original g) = DEATH_SCREEN
  /\ exists o, In o (obstacles g)
               /\ lethal (carRect (redCar g)) (carRect (blueCar g)) o = true.
Proof.
  intros box g.
  assert (H : currentState g <> DEATH_SCREEN) by discriminate.
  split; [exact H|]. split; [reflexivity|].
  exact (proj1 (proj1 (checkCollision_game_over_iff Original g H)) eq_refl).
Defined.

(** X6.  [checkCollision] raises the score by exactly the number of
    uncollected circles that touch the car of their own colour; the score
    never goes down. *)
Theorem checkCollision_score :
  forall (r : Release) (g : Game),
    score (checkCollision r g)
    = score g
      + Z.of_nat (List.length
                    (filter (picked (carRect (redCar g)) (carRect (blueCar g)))
                            (obstacles g)))
    /\ score g <= score (checkCollision r g).
Proof.
  intros r g. rewrite (cr_score _ _ _ (checkCollision_result r g)).
  unfold picks. lia.
Qed.

Lemma collideOne_harmless (g : Game) (o : Entity) :
  lethal (carRect (redCar g)) (carRect (blueCar g)) o = false ->
  picked (carRect (redCar g)) (carRect (blueCar g)) o = false ->
  collideOne g o = (g, o).
Proof.
  unfold lethal, picked, collideOne, collideWith, texture_is.
  destruct o as [[[]|] rect coll]; cbn [texture destRect collected];
    destruct (SDL_HasIntersection (carRect (redCar g)) rect) eqn:Hr,
             (SDL_HasIntersection (carRect (blueCar g)) rect) eqn:Hb, coll;
    cbn; rewrite ?Hr, ?Hb; cbn; intros H1 H2; try discriminate; reflexivity.
Qed.

(** X9.  Colours matter: an obstacle does nothing unless it touches the
    car of its own colour, even while it overlaps the other car; and an
    obstacle whose texture is none of the four handles does nothing at
    all. *)
Theorem collideOne_other_colour_harmless :
  forall (g : Game) (o : Entity),
    (forall t, texture o = Some t ->
       SDL_HasIntersection
         (carRect (if redTexture t then redCar g else blueCar g))
         (destRect o) = false) ->
    collideOne g o = (g, o).
Proof.
  intros g o H. apply collideOne_harmless.
  - unfold lethal, texture_is.
    destruct (texture o) as [[]|]; cbn;
      try specialize (H _ eq_refl); cbn in H; rewrite ?H;
      rewrite ?andb_false_r; reflexivity.
  - unfold picked, texture_is.
    destruct (texture o) as [[]|]; cbn;
      try specialize (H _ eq_refl); cbn in H; rewrite ?H;
      rewrite ?andb_false_r; cbn; rewrite ?andb_false_r; reflexivity.
Qed.

Lemma collideOne_other_colour_harmless_witness :
  let o := mkEntity (Some redBox) (mkRect LANE_1 640 40 40) false in
  let g := set_currentState NORMAL_MODE
             (set_obstacles [o] (newGame emptyDisk restingMenu 0)) in
  SDL_HasIntersection (carRect (blueCar g)) (destRect o) = true
  /\ (forall t, texture o = Some t ->
        SDL_HasIntersection
          (carRect (if redTexture t then redCar g else blueCar g))
          (destRect o) = false)
  /\ collideOne g o = (g, o).
Proof.
  intros o g.
  assert (H : forall t, texture o = Some t ->
                SDL_HasIntersection
                  (carRect (if redTexture t then redCar g else blueCar g))
                  (destRect o) = false)
    by (intros t [= <-]; reflexivity).
  split; [reflexivity|]. split; [exact H|].
  exact (collideOne_other_colour_harmless g o H).
Defined.

Lemma collisionLoop_harmless (os : list Entity) :
  forall g,
    (forall o, In o os ->
       lethal (carRect (redCar g)) (carRect (blueCar g)) o = false
       /\ picked (carRect (redCar g)) (carRect (blueCar g)) o = false) ->
    collisionLoop os g = (g, os).
Proof.
  induction os as [|o os IH]; intros g H; cbn; [reflexivity|].
  destruct (H o (or_introl eq_refl)) as [Hl Hp].
  rewrite (collideOne_harmless g o Hl Hp).
  rewrite IH; [reflexivity|]. intros o' Ho'. apply H. now right.
Qed.

Lemma set_obstacles_same (g : Game) : set_obstacles (obstacles g) g = g.
Proof. now destruct g. Qed.

Lemma filter_all {A : Type} (p : A -> bool) (l : list A) :
  (forall x, In x l -> p x = true) -> filter p l = l.
Proof.
  induction l as [|x l IH]; intros H; cbn; [reflexivity|].
  rewrite (H x (or_introl eq_refl)). f_equal. apply IH.
  intros y Hy. apply H. now right.
Qed.

(** X7.  When no entity of the list is collected and none touches either
    car, [checkCollision] leaves a running game exactly as it was: no
    sound, no score, no change to the list. *)
Theorem checkCollision_without_contact :
  forall (r : Release) (g : Game),
    currentState g <> DEATH_SCREEN ->
    (forall o, In o (obstacles g) ->
       collected o = false
       /\ SDL_HasIntersection (carRect (redCar g)) (destRect o) = false
       /\ SDL_HasIntersection (carRect (blueCar g)) (destRect o) = false) ->
    checkCollision r g = g.
Proof.
  intros r g Hlive H. unfold checkCollision.
  rewrite collisionLoop_harmless.
  - rewrite filter_all by (intros o Ho; destruct (H o Ho) as [-> _]; reflexivity).
    rewrite set_obstacles_same.
    destruct (currentState g); try reflexivity. now elim Hlive.
  - intros o Ho. destruct (H o Ho) as (_ & Hr & Hb).
    unfold lethal, picked. now rewrite Hr, Hb, andb_false_r.
Qed.

Lemma checkCollision_without_contact_witness :
  let o := mkEntity (Some redBox) (mkRect LANE_3 300 40 40) false in
  let g := set_currentState NORMAL_MODE
             (set_obstacles [o] (newGame emptyDisk restingMenu 0)) in
  currentState g <> DEATH_SCREEN
  /\ (forall o, In o (obstacles g) ->
       collected o = false
       /\ SDL_HasIntersection (carRect (redCar g)) (destRect o) = false
       /\ SDL_HasIntersection (carRect (blueCar g)) (destRect o) = false)
  /\ checkCollision Revised g = g.
Proof.
  intros o g.
  assert (H1 : currentState g <> DEATH_SCREEN) by discriminate.
  assert (H2 : forall o, In o (obstacles g) ->
       collected o = false
       /\ SDL_HasIntersection (carRect (redCar g)) (destRect o) = false
       /\ SDL_HasIntersection (carRect (blueCar g)) (destRect o) = false).
  { intros o' [<- | []]. now repeat split. }
  split; [exact H1|]. split; [exact H2|].
  exact (checkCollision_without_contact Revised g H1 H2).
Defined.

Lemma checkCollision_disk (r : Release) (g : Game) :
  disk (checkCollision r g)
  = if newRecord g (currentState (checkCollision r g)) (score (checkCollision r g))
       && writable (disk g)
    then written r (score (checkCollision r g)) (disk g)
    else disk g.
Proof.
  unfold checkCollision.
  destruct (collisionLoop_result (obstacles g) g) as [_ Hg].
  destruct (collisionLoop (obstacles g) g) as [g1 os]. cbn [fst] in Hg.
  destruct Hg as [_ _ _ _ Hhs Hdisk _ _ _ _ _ _ _].
  cbn [currentState score highscore set_obstacles].
  fold (newRecord g1 (currentState g1) (score g1)).
  assert (Hrec : newRecord g1 (currentState g1) (score g1)
                 = newRecord g (currentState g1) (score g1))
    by (unfold newRecord; now rewrite Hhs).
  rewrite Hrec.
  destruct (newRecord g (currentState g1) (score g1)) eqn:E.
  - unfold saveHighscore, emit. cbn. rewrite Hdisk.
    destruct (writable (disk g)), r; cbn; rewrite ?E, ?Hdisk; cbn;
      try rewrite Hdisk; reflexivity.
  - cbn. rewrite E. cbn. exact Hdisk.
Qed.

Lemma kept_after_check (red blue : SDL_Rect) (os : list Entity) (o : Entity) :
  In o (filter uncollected (map (mark red blue) os)) ->
  In o os /\ collected o = false /\ picked red blue o = false.
Proof.
  intros Hin. apply filter_In in Hin as [Hin Hu].
  apply in_map_iff in Hin as (o0 & Ho & Hin0). unfold mark in Ho.
  destruct (picked red blue o0) eqn:E.
  - subst o. discriminate Hu.
  - subst o0. repeat split; auto. now apply negb_true_iff in Hu.
Qed.

Lemma filter_none {A : Type} (p : A -> bool) (l : list A) :
  (forall x, In x l -> p x = false) -> filter p l = [].
Proof.
  induction l as [|x l IH]; intros H; cbn; [reflexivity|].
  rewrite (H x (or_introl eq_refl)). apply IH.
  intros y Hy. apply H. now right.
Qed.

(** X8.  A second [checkCollision] right after the first finds nothing
    left to do: score, obstacle list, state, highscore, the file on disk
    and the record of [saveHighscore] calls stay as the first pass left
    them.  A circle therefore scores once, and a highscore is saved once. *)
Theorem checkCollision_twice :
  forall (r : Release) (g : Game),
    let g1 := checkCollision r g in
    let g2 := checkCollision r g1 in
    score g2 = score g1
    /\ obstacles g2 = obstacles g1
    /\ currentState g2 = currentState g1
    /\ highscore g2 = highscore g1
    /\ saveCalls (effects g2) = saveCalls (effects g1)
    /\ disk g2 = disk g1.
Proof.
  intros r g g1 g2.
  pose proof (checkCollision_result r g) as R1. fold g1 in R1.
  pose proof (checkCollision_result r g1) as R2. fold g2 in R2.
  destruct R1 as [A_obs A_score A_state A_hs A_saves A_red A_blue _ _ _ _ _].
  destruct R2 as [B_obs B_score B_state B_hs B_saves _ _ _ _ _ _ _].
  rewrite A_red, A_blue in B_obs, B_score, B_state.
  set (red := carRect (redCar g)) in *. set (blue := carRect (blueCar g)) in *.
  assert (Hkept : forall o, In o (obstacles g1) ->
            In o (obstacles g) /\ collected o = false /\ picked red blue o = false).
  { intros o Ho. rewrite A_obs in Ho. now apply kept_after_check. }
  assert (Hpicks : picks red blue (obstacles g1) = 0).
  { unfold picks.
    replace (filter (picked red blue) (obstacles g1)) with (@nil Entity);
      [reflexivity|].
    symmetry. apply filter_none. intros o Ho. now destruct (Hkept o Ho) as (_ & _ & ->). }
  assert (Hobs : obstacles g2 = obstacles g1).
  { rewrite B_obs.
    assert (Hmap : map (mark red blue) (obstacles g1) = obstacles g1).
    { rewrite <- (map_id (obstacles g1)) at 2. apply map_ext_in.
      intros o Ho. unfold mark. now destruct (Hkept o Ho) as (_ & _ & ->). }
    rewrite Hmap. apply filter_all.
    intros o Ho. unfold uncollected. now destruct (Hkept o Ho) as (_ & -> & _). }
  assert (Hscore : score g2 = score g1) by (rewrite B_score, Hpicks; lia).
  assert (Hstate : currentState g2 = currentState g1).
  { rewrite B_state. destruct (existsb _ (obstacles g1)) eqn:E; [|reflexivity].
    apply existsb_exists in E as (o & Ho & Hl).
    rewrite A_state.
    assert (E' : existsb (lethal red blue) (obstacles g) = true).
    { apply existsb_exists. exists o. split; [|exact Hl]. now apply Hkept. }
    now rewrite E'. }
  assert (Hrec : newRecord g1 (currentState g2) (score g2) = false).
  { rewrite Hstate, Hscore. unfold newRecord.
    destruct (GameState_eqb (currentState g1) DEATH_SCREEN) eqn:Ed; [|reflexivity].
    cbn. rewrite Z.gtb_ltb. apply Z.ltb_ge.
    rewrite A_hs. unfold newRecord. rewrite Ed. cbn.
    destruct (score g1 >? highscore g) eqn:E; [lia|].
    rewrite Z.gtb_ltb in E. now apply Z.ltb_ge in E. }
  assert (Hdisk : disk g2 = disk g1).
  { unfold g2. rewrite checkCollision_disk. fold g2. now rewrite Hrec. }
  rewrite B_hs, B_saves, Hrec, app_nil_r. auto 10.
Qed.

Lemma collideOne_sounds (g : Game) (o : Entity) (s : Sound) :
  countSound s (effects (fst (collideOne g o)))
  = (countSound s (effects g)
     + match s with
       | circlePickupSound =>
           if picked (carRect (redCar g)) (carRect (blueCar g)) o then 1 else 0
       | deathSound =>
           if lethal (carRect (redCar g)) (carRect (blueCar g)) o then 1 else 0
       | circleMissSound => 0
       end)%nat.
Proof.
  unfold collideOne, collideWith, picked, lethal, texture_is.
  destruct o as [tex rect coll]; cbn [texture destRect collected].
  destruct (SDL_HasIntersection (carRect (redCar g)) rect) eqn:Hr,
           (SDL_HasIntersection (carRect (blueCar g)) rect) eqn:Hb;
    destruct tex as [[]|], coll, s; cbn; rewrite ?Hr, ?Hb; cbn;
    rewrite ?countSound_app; cbn; lia.
Qed.

Lemma collisionLoop_sounds (os : list Entity) (s : Sound) :
  forall g,
    countSound s (effects (fst (collisionLoop os g)))
    = (countSound s (effects g)
       + match s with
         | circlePickupSound =>
             List.length (filter (picked (carRect (redCar g)) (carRect (blueCar g))) os)
         | deathSound =>
             List.length (filter (lethal (carRect (redCar g)) (carRect (blueCar g))) os)
         | circleMissSound => 0
         end)%nat.
Proof.
  induction os as [|o os IH]; intros g.
  - cbn. destruct s; lia.
  - cbn [collisionLoop].
    pose proof (collideOne_sounds g o s) as H1.
    destruct (collideOne_result g o) as [_ Hg].
    destruct (collideOne g o) as [g1 o1]. cbn [fst] in H1, Hg.
    specialize (IH g1).
    destruct (collisionLoop os g1) as [g2 os2]. cbn [fst] in IH |- *.
    rewrite IH, H1.
    rewrite (lr_redCar _ _ _ _ _ Hg), (lr_blueCar _ _ _ _ _ Hg).
    destruct s; cbn [filter];
      try destruct (picked _ _ o); try destruct (lethal _ _ o);
      cbn [List.length]; lia.
Qed.

(** X10.  In [checkCollision] every point comes with exactly one pickup
    sound, the death sound is played once for every box that touches the
    car of its colour, and the miss sound is never played. *)
Theorem checkCollision_sounds :
  forall (r : Release) (g : Game),
    Z.of_nat (countSound circlePickupSound (effects (checkCollision r g)))
    - Z.of_nat (countSound circlePickupSound (effects g))
    = score (checkCollision r g) - score g
    /\ countSound deathSound (effects (checkCollision r g))
       = (countSound deathSound (effects g)
          + List.length (filter (lethal (carRect (redCar g)) (carRect (blueCar g)))
                                (obstacles g)))%nat
    /\ countSound circleMissSound (effects (checkCollision r g))
       = countSound circleMissSound (effects g).
Proof.
  intros r g.
  assert (Hs : forall s,
            countSound s (effects (checkCollision r g))
            = countSound s (effects (fst (collisionLoop (obstacles g) g)))).
  { intros s. unfold checkCollision.
    destruct (collisionLoop (obstacles g) g) as [g1 os]. cbn [fst].
    cbn [currentState score highscore set_obstacles].
    destruct (_ && _); [|reflexivity].
    unfold saveHighscore, emit. cbn.
    destruct (writable (disk g1)), r; cbn; rewrite countSound_app; cbn; lia. }
  rewrite !Hs, !collisionLoop_sounds.
  rewrite (cr_score _ _ _ (checkCollision_result r g)). unfold picks.
  repeat split; lia.
Qed.

(* ================================================================= *)
(** ** The state machine, frame by frame *)

Lemma increaseDifficulty_other_fields (r : Release) (t : Z) (g : Game) :
  disk (increaseDifficulty r t g) = disk g
  /\ isRunning (increaseDifficulty r t g) = isRunning g
  /\ obstacles (increaseDifficulty r t g) = obstacles g
  /\ patternTimer (increaseDifficulty r t g) = patternTimer g.
Proof.
  unfold increaseDifficulty.
  destruct (_ && _); [|now repeat split].
  destruct (spawnRate g >? spawnRateGuard r); cbn;
    destruct (_ <? 15); cbn; now repeat split.
Qed.

Lemma update_playing_disk (r : Release) (i : TickInput) (g : Game) :
  currentState g = NORMAL_MODE ->
  disk (update r i g) = disk (checkCollision r (updateObstacles g)).
Proof.
  intros Hplay. unfold update. rewrite Hplay.
  cbn [disk set_redCar set_blueCar].
  destruct (spawnObstacle_other_fields (lanes i) (coin0 i) (coin1 i) (uninitTexture i)
              (increaseDifficulty r (tDifficulty i)
                 (checkCollision r (updateObstacles g)))) as (_ & _ & _ & _ & ->).
  now destruct (increaseDifficulty_other_fields r (tDifficulty i)
                  (checkCollision r (updateObstacles g))) as (-> & _).
Qed.

Lemma update_highscore_grows (r : Release) (i : TickInput) (g : Game) :
  highscore g <= highscore (update r i g).
Proof.
  destruct (currentState g) eqn:E; try (unfold update; rewrite E; cbn; lia).
  destruct (update_playing r i g E) as (_ & _ & -> & _).
  rewrite (cr_highscore _ _ _ (checkCollision_result r (updateObstacles g))).
  unfold newRecord. rewrite (cf_highscore _ _ (updateObstacles_frame g)).
  destruct (GameState_eqb _ DEATH_SCREEN); cbn; [|lia].
  destruct (score (checkCollision r (updateObstacles g)) >? highscore g) eqn:Egt;
    [|lia].
  apply Z.gtb_lt in Egt. lia.
Qed.

(** X11.  A tick never lowers the score and never lowers the highscore,
    in any state. *)
Theorem update_never_lowers_scores :
  forall (r : Release) (i : TickInput) (g : Game),
    score g <= score (update r i g)
    /\ highscore g <= highscore (update r i g).
Proof.
  intros r i g. split; [|apply update_highscore_grows].
  destruct (currentState g) eqn:E; try (unfold update; rewrite E; cbn; lia).
  destruct (update_playing r i g E) as (_ & -> & _).
  rewrite (cr_score _ _ _ (checkCollision_result r (updateObstacles g))).
  rewrite (cf_score _ _ (updateObstacles_frame g)). unfold picks. lia.
Qed.

(** X13.  The only state change [update] ever makes is from
    [NORMAL_MODE] to [DEATH_SCREEN]; on the death screen it changes
    nothing at all, and in the menu nothing but the menu text. *)
Theorem update_state_changes :
  forall (r : Release) (i : TickInput) (g : Game),
    (currentState (update r i g) = currentState g
     \/ (currentState g = NORMAL_MODE
         /\ currentState (update r i g) = DEATH_SCREEN))
    /\ (currentState g = DEATH_SCREEN -> update r i g = g)
    /\ (currentState g = MAIN_MENU ->
        update r i g = set_menu (updateMenuAnimation (menu g)) g).
Proof.
  intros r i g. split; [|split].
  - destruct (currentState g) eqn:E.
    + left. unfold update. now rewrite E.
    + destruct (update_playing r i g E) as (-> & _).
      rewrite (cr_state _ _ _ (checkCollision_result r (updateObstacles g))).
      destruct (existsb _ _); [now right|].
      rewrite updateObstacles_state, E.
      destruct (existsb _ _); [now right|now left].
    + left. unfold update. now rewrite E.
  - intros E. unfold update. now rewrite E.
  - intros E. unfold update. now rewrite E.
Qed.

Lemma handleEvents_frame (r : Release) (event : SDL_Event) (mx my t1 t2 : Z)
    (g : Game) :
  highscore (handleEvents r event mx my t1 t2 g) = highscore g
  /\ disk (handleEvents r event mx my t1 t2 g) = disk g
  /\ effects (handleEvents r event mx my t1 t2 g) = effects g
  /\ patternTimer (handleEvents r event mx my t1 t2 g) = patternTimer g
  /\ lastIncreaseTime (handleEvents r event mx my t1 t2 g) = lastIncreaseTime g
  /\ menu (handleEvents r event mx my t1 t2 g) = menu g.
Proof.
  unfold handleEvents, laneKeys.
  destruct r, event as [|sym|button|], (currentState g);
    try destruct (sym =? SDLK_ESCAPE); try destruct (sym =? SDLK_a);
    try destruct (sym =? SDLK_d); try destruct (sym =? SDLK_r);
    try destruct (sym =? SDLK_h);
    try destruct (clicked restartButtonRect mx my);
    try destruct (clicked homeButtonRect mx my);
    now repeat split.
Qed.

Lemma handleEvents_into_death_screen (r : Release) (event : SDL_Event)
    (mx my t1 t2 : Z) (g : Game) :
  let g' := handleEvents r event mx my t1 t2 g in
  currentState g' = DEATH_SCREEN ->
  currentState g = DEATH_SCREEN
  /\ score g' = score g /\ obstacles g' = obstacles g
  /\ spawnRate g' = spawnRate g /\ obstacleSpeed g' = obstacleSpeed g
  /\ redCar g' = redCar g /\ blueCar g' = blueCar g.
Proof.
  intros g'. unfold g', handleEvents, laneKeys.
  destruct r, event as [|sym|button|], (currentState g) eqn:E;
    try destruct (sym =? SDLK_ESCAPE); try destruct (sym =? SDLK_a);
    try destruct (sym =? SDLK_d); try destruct (sym =? SDLK_r);
    try destruct (sym =? SDLK_h);
    try destruct (clicked restartButtonRect mx my);
    try destruct (clicked homeButtonRect mx my);
    cbn; rewrite ?E; intros H; try discriminate H; now repeat split.
Qed.

(** X12.  No input ends the game: [handleEvents] yields [DEATH_SCREEN]
    only when the game was already there, and then leaves score,
    obstacles, difficulty and cars as they were.  It never changes the
    highscore, the disk or the effect log. *)
Theorem handleEvents_never_ends_game :
  forall (r : Release) (event : SDL_Event) (mx my t1 t2 : Z) (g : Game),
    let g' := handleEvents r event mx my t1 t2 g in
    (currentState g' = DEATH_SCREEN ->
     currentState g = DEATH_SCREEN
     /\ score g' = score g /\ obstacles g' = obstacles g
     /\ spawnRate g' = spawnRate g /\ obstacleSpeed g' = obstacleSpeed g
     /\ redCar g' = redCar g /\ blueCar g' = blueCar g)
    /\ highscore g' = highscore g
    /\ disk g' = disk g
    /\ effects g' = effects g.
Proof.
  intros r event mx my t1 t2 g g'.
  split; [apply handleEvents_into_death_screen|].
  destruct (handleEvents_frame r event mx my t1 t2 g) as (Hh & Hd & He & _).
  now repeat split.
Qed.

Lemma frame_keeps_death_screen_consistent (r : Release) (fi : FrameInput)
    (g : Game) :
  deathScreenConsistent g -> deathScreenConsistent (frame r fi g).
Proof.
  unfold deathScreenConsistent, frame. intros Hg.
  set (g1 := handleEvents r (fi_event fi) (fi_mx fi) (fi_my fi)
                          (fi_t1 fi) (fi_t2 fi) g).
  assert (H1 : currentState g1 = DEATH_SCREEN -> score g1 <= highscore g1).
  { intros Hd.
    destruct (handleEvents_into_death_screen r (fi_event fi) (fi_mx fi)
                (fi_my fi) (fi_t1 fi) (fi_t2 fi) g Hd) as (Hd0 & Hs & _).
    destruct (handleEvents_frame r (fi_event fi) (fi_mx fi) (fi_my fi)
                (fi_t1 fi) (fi_t2 fi) g) as (Hh & _).
    fold g1 in Hs, Hh. rewrite Hs, Hh. now apply Hg. }
  clearbody g1. intros Hover.
  destruct (currentState g1) eqn:E.
  - unfold update in Hover. rewrite E in Hover. cbn in Hover. congruence.
  - destruct (update_playing r (fi_tick fi) g1 E) as (Hst & Hsc & Hhs & _).
    rewrite Hst in Hover. rewrite Hsc, Hhs.
    destruct (checkCollision_records_highscore r _ Hover) as [-> _]. lia.
  - unfold update. rewrite E. now apply H1.
Qed.

Lemma mainLoop_invariant (P : Game -> Prop) (r : Release) :
  (forall fi g, P g -> P (frame r fi g)) ->
  forall fis g, P g -> P (mainLoop r fis g).
Proof.
  intros Hstep. induction fis as [|fi fis IH]; intros g Hg; cbn; [exact Hg|].
  destruct (isRunning g); [|exact Hg]. apply IH, Hstep, Hg.
Qed.

(** X14.  Throughout a run of the program, from [init] on any disk and
    through any sequence of frames, the death screen never shows a score
    above the highscore: whenever the state is [DEATH_SCREEN],
    [score <= highscore]. *)
Theorem death_screen_never_beats_highscore :
  forall (r : Release) (d : Disk) (m : MenuText) (now uninit : Z)
         (fis : list FrameInput),
    deathScreenConsistent (mainLoop r fis (init r d m now uninit)).
Proof.
  intros r d m now uninit fis.
  apply mainLoop_invariant.
  - intros fi g. apply frame_keeps_death_screen_consistent.
  - unfold deathScreenConsistent, init, loadHighscore.
    destruct r; [destruct (highscore_txt _)|destruct (player_dat _)];
      cbn; discriminate.
Qed.

Lemma written_saved (r : Release) (h : Z) (g g' : Game) :
  highscore g' = h -> disk g' = written r h (disk g) -> savedOnDisk r g'.
Proof.
  intros Hh Hd. unfold savedOnDisk. rewrite Hd, Hh. now destruct r.
Qed.

Lemma written_writable (r : Release) (h : Z) (d : Disk) :
  writable (written r h d) = writable d.
Proof. now destruct r. Qed.

Lemma update_highscore_disk (r : Release) (i : TickInput) (g : Game) :
  (highscore (update r i g) = highscore g /\ disk (update r i g) = disk g)
  \/ (writable (disk g) = true
      /\ disk (update r i g) = written r (highscore (update r i g)) (disk g))
  \/ (writable (disk g) = false /\ disk (update r i g) = disk g).
Proof.
  destruct (currentState g) eqn:E.
  - left. unfold update. now rewrite E.
  - rewrite (update_playing_disk r i g E).
    destruct (update_playing r i g E) as (_ & _ & -> & _).
    rewrite checkCollision_disk.
    rewrite (cr_highscore _ _ _ (checkCollision_result r (updateObstacles g))).
    destruct (updateObstacles_frame g) as [_ Hh _ _ _ _ _ _ _ Hd _ _].
    assert (Hrec : newRecord (updateObstacles g)
                     (currentState (checkCollision r (updateObstacles g)))
                     (score (checkCollision r (updateObstacles g)))
                   = newRecord g
                       (currentState (checkCollision r (updateObstacles g)))
                       (score (checkCollision r (updateObstacles g))))
      by (unfold newRecord; now rewrite Hh).
    rewrite Hrec, Hh, Hd.
    destruct (newRecord g _ _); cbn; [|now left].
    destruct (writable (disk g)) eqn:W; [right; left|right; right]; now split.
  - left. unfold update. now rewrite E.
Qed.

Lemma frame_highscore_disk (r : Release) (fi : FrameInput) (g : Game) :
  (highscore (frame r fi g) = highscore g /\ disk (frame r fi g) = disk g)
  \/ (writable (disk g) = true
      /\ disk (frame r fi g) = written r (highscore (frame r fi g)) (disk g))
  \/ (writable (disk g) = false /\ disk (frame r fi g) = disk g).
Proof.
  unfold frame.
  destruct (handleEvents_frame r (fi_event fi) (fi_mx fi) (fi_my fi)
              (fi_t1 fi) (fi_t2 fi) g) as (Hh & Hd & _).
  destruct (update_highscore_disk r (fi_tick fi)
              (handleEvents r (fi_event fi) (fi_mx fi) (fi_my fi)
                 (fi_t1 fi) (fi_t2 fi) g)) as [[H1 H2] | [[H1 H2] | [H1 H2]]].
  - left. split; congruence.
  - right. left. rewrite Hd in H1, H2. now split.
  - right. right. rewrite Hd in H1, H2. now split.
Qed.

Lemma frame_keeps_writable (r : Release) (fi : FrameInput) (g : Game) :
  writable (disk (frame r fi g)) = writable (disk g).
Proof.
  destruct (frame_highscore_disk r fi g) as [[_ ->] | [[_ ->] | [_ ->]]];
    try reflexivity. apply written_writable.
Qed.

Lemma frame_keeps_saved (r : Release) (fi : FrameInput) (g : Game) :
  writable (disk g) = true ->
  (savedOnDisk r g -> savedOnDisk r (frame r fi g))
  /\ (highscore (frame r fi g) <> highscore g -> savedOnDisk r (frame r fi g)).
Proof.
  intros W.
  destruct (frame_highscore_disk r fi g) as [[Hh Hd] | [[_ Hd] | [W' _]]].
  - split; [|intros H; now elim H].
    unfold savedOnDisk. now rewrite Hh, Hd.
  - split; intros _; now apply (written_saved r _ g _ eq_refl).
  - congruence.
Qed.

(** X15.  On a disk that can be written, a highscore reached during a
    run is in the persistence file by the end of the frame that set it:
    after any number of frames either the highscore is still the one the
    run started from, or the file holds the current highscore - without
    waiting for [clean]. *)
Theorem highscore_on_disk_during_run :
  forall (r : Release) (fis : list FrameInput) (g : Game),
    writable (disk g) = true ->
    highscore (mainLoop r fis g) = highscore g
    \/ savedOnDisk r (mainLoop r fis g).
Proof.
  intros r fis g W.
  assert (H : writable (disk (mainLoop r fis g)) = true
              /\ (highscore (mainLoop r fis g) = highscore g
                  \/ savedOnDisk r (mainLoop r fis g))).
  { apply (mainLoop_invariant
             (fun g' => writable (disk g') = true
                        /\ (highscore g' = highscore g \/ savedOnDisk r g'))).
    - intros fi g' [W' Hg'].
      split; [now rewrite frame_keeps_writable|].
      destruct (frame_keeps_saved r fi g' W') as [Hkeep Hnew].
      destruct Hg' as [Hsame | Hsaved]; [|right; now apply Hkeep].
      destruct (Z.eq_dec (highscore (frame r fi g')) (highscore g')) as [E | N].
      + left. congruence.
      + right. now apply Hnew.
    - split; [exact W|now left]. }
  apply H.
Qed.

Lemma highscore_on_disk_during_run_witness :
  let circle := mkEntity (Some redCircle) (mkRect LANE_4 600 40 40) false in
  let box := mkEntity (Some redBox) (mkRect LANE_4 640 40 40) false in
  let g := set_currentState NORMAL_MODE
             (set_patternTimer 9
                (set_obstacles [circle; box] (newGame emptyDisk restingMenu 0))) in
  let fi := mkFrame SDL_OTHER 0 0 3000 3000 (quietTick 3000) in
  writable (disk g) = true
  /\ highscore (mainLoop Revised [fi] g) = 1
  /\ (highscore (mainLoop Revised [fi] g) = highscore g
      \/ savedOnDisk Revised (mainLoop Revised [fi] g)).
Proof.
  intros circle box g fi.
  split; [reflexivity|]. split; [reflexivity|].
  exact (highscore_on_disk_during_run Revised [fi] g eq_refl).
Defined.

Lemma frame_never_lowers_highscore (r : Release) (fi : FrameInput) (g : Game) :
  highscore g <= highscore (frame r fi g).
Proof.
  unfold frame.
  destruct (handleEvents_frame r (fi_event fi) (fi_mx fi) (fi_my fi)
              (fi_t1 fi) (fi_t2 fi) g) as (Hh & _).
  rewrite <- Hh at 1. apply update_highscore_grows.
Qed.

(** X16.  What a run ends with is what the next run starts with: on a
    writable disk, [init] on the disk that [main] leaves behind loads the
    highscore that [main] ended with (an [int]), and that highscore is at
    least the one loaded at the start of the run. *)
Theorem highscore_survives_restart :
  forall (r : Release) (d : Disk) (m m' : MenuText) (now now' uninit uninit' : Z)
         (fis : list FrameInput),
    writable d = true ->
    INT_MIN <= highscore (main r d m now uninit fis) <= INT_MAX ->
    highscore (init r (disk (main r d m now uninit fis)) m' now' uninit')
    = highscore (main r d m now uninit fis)
    /\ highscore (init r d m now uninit)
       <= highscore (main r d m now uninit fis).
Proof.
  intros r d m m' now now' uninit uninit' fis W Hrange.
  unfold main, clean in *.
  set (g0 := init r d m now uninit) in *.
  assert (W0 : writable (disk g0) = true).
  { unfold g0, init, loadHighscore.
    destruct r; [destruct (highscore_txt _)|destruct (player_dat _)]; exact W. }
  assert (Hrun : writable (disk (mainLoop r fis g0)) = true
                 /\ highscore g0 <= highscore (mainLoop r fis g0)).
  { apply (mainLoop_invariant
             (fun g' => writable (disk g') = true /\ highscore g0 <= highscore g')).
    - intros fi g' [W' Hle]. split; [now rewrite frame_keeps_writable|].
      pose proof (frame_never_lowers_highscore r fi g'). lia.
    - split; [exact W0|lia]. }
  destruct Hrun as [Wend Hle].
  set (g := mainLoop r fis g0) in *.
  assert (Hsame : highscore (saveHighscore r g) = highscore g).
  { unfold saveHighscore, emit. cbn. destruct (writable (disk g)), r; reflexivity. }
  rewrite Hsame in *. split; [|exact Hle].
  unfold init. apply load_after_save; [exact Hrange|exact Wend|reflexivity].
Qed.

Lemma highscore_survives_restart_witness :
  let fis := [mkFrame (SDL_KEYDOWN 32) 0 0 1000 1000 (quietTick 1000);
              mkFrame SDL_QUIT 0 0 1016 1016 (quietTick 1016)] in
  let d := mkDisk None (Some (bytes_of_int (xor_key 12))) true in
  writable d = true
  /\ INT_MIN <= highscore (main Revised d restingMenu 0 0 fis) <= INT_MAX
  /\ highscore (init Revised (disk (main Revised d restingMenu 0 0 fis))
                     restingMenu 5000 77)
     = highscore (main Revised d restingMenu 0 0 fis)
  /\ highscore (init Revised d restingMenu 0 0)
     <= highscore (main Revised d restingMenu 0 0 fis).
Proof.
  intros fis d.
  assert (H1 : writable d = true) by reflexivity.
  assert (H2 : INT_MIN <= highscore (main Revised d restingMenu 0 0 fis) <= INT_MAX)
    by (vm_compute; split; discriminate).
  split; [exact H1|]. split; [exact H2|].
  exact (highscore_survives_restart Revised d restingMenu restingMenu
           0 5000 0 77 fis H1 H2).
Defined.

Lemma checkCollision_isRunning (r : Release) (g : Game) :
  isRunning (checkCollision r g) = isRunning g.
Proof.
  unfold checkCollision.
  destruct (collisionLoop_result (obstacles g) g) as [_ Hg].
  destruct (collisionLoop (obstacles g) g) as [g1 os]. cbn [fst] in Hg.
  rewrite <- (lr_isRunning _ _ _ _ _ Hg).
  cbn [currentState score highscore set_obstacles].
  destruct (_ && _); [|reflexivity].
  unfold saveHighscore, emit. cbn. now destruct (writable (disk g1)), r.
Qed.

Lemma update_isRunning (r : Release) (i : TickInput) (g : Game) :
  isRunning (update r i g) = isRunning g.
Proof.
  unfold update. destruct (currentState g); try reflexivity.
  cbn [isRunning set_redCar set_blueCar].
  unfold spawnObstacle. destruct (patternTimer _ =? 0); cbn [isRunning set_patternTimer set_obstacles];
    destruct (increaseDifficulty_other_fields r (tDifficulty i)
                (checkCollision r (updateObstacles g))) as (_ & -> & _);
    rewrite checkCollision_isRunning;
    apply (cf_isRunning _ _ (updateObstacles_frame g)).
Qed.

Lemma handleEvents_isRunning (r : Release) (event : SDL_Event)
    (mx my t1 t2 : Z) (g : Game) :
  isRunning (handleEvents r event mx my t1 t2 g)
  = match event with SDL_QUIT => false | _ => isRunning g end.
Proof.
  unfold handleEvents, laneKeys.
  destruct r, event as [|sym|button|], (currentState g);
    try destruct (sym =? SDLK_ESCAPE); try destruct (sym =? SDLK_a);
    try destruct (sym =? SDLK_d); try destruct (sym =? SDLK_r);
    try destruct (sym =? SDLK_h);
    try destruct (clicked restartButtonRect mx my);
    try destruct (clicked homeButtonRect mx my);
    reflexivity.
Qed.

(** X17.  A quit event ends the loop after the frame it arrives in: that
    frame still runs its [update], every later input is ignored, and
    nothing ever turns [isRunning] back on - a frame leaves the game
    running exactly when it was running and the event was not a quit. *)
Theorem quit_stops_the_loop :
  forall (r : Release) (fi : FrameInput) (rest : list FrameInput) (g : Game),
    isRunning (frame r fi g)
    = match fi_event fi with SDL_QUIT => false | _ => isRunning g end
    /\ (isRunning g = true -> fi_event fi = SDL_QUIT ->
        mainLoop r (fi :: rest) g
        = update r (fi_tick fi) (set_isRunning false g))
    /\ (isRunning g = false -> mainLoop r (fi :: rest) g = g).
Proof.
  intros r fi rest g.
  assert (Hrun : isRunning (frame r fi g)
                 = match fi_event fi with SDL_QUIT => false | _ => isRunning g end).
  { unfold frame. rewrite update_isRunning. apply handleEvents_isRunning. }
  split; [exact Hrun|]. split.
  - intros Hg Hq. cbn [mainLoop]. rewrite Hg.
    assert (Hstop : isRunning (frame r fi g) = false) by (now rewrite Hrun, Hq).
    assert (Hf : frame r fi g = update r (fi_tick fi) (set_isRunning false g)).
    { unfold frame. rewrite Hq. now destruct r. }
    rewrite <- Hf. destruct rest as [|fi' rest]; cbn [mainLoop]; [reflexivity|].
    now rewrite Hstop.
  - intros Hg. cbn [mainLoop]. now rewrite Hg.
Qed.

(* ================================================================= *)
(** ** More on the difficulty ramp *)

Lemma ramp_bounds_witness :
  let g := sessionAt5000 Revised in
  spawnRate g = 80 /\ obstacleSpeed g = 6
  /\ 20 <= spawnRate (ramp Revised [5016; 35000; 65000; 95000; 125000; 155000] g)
  /\ obstacleSpeed (ramp Revised [5016; 35000; 65000; 95000; 125000; 155000] g)
     <= 16.
Proof.
  intros g. split; [reflexivity|]. split; [reflexivity|].
  exact (ramp_bounds Revised [5016; 35000; 65000; 95000; 125000; 155000] g
           eq_refl eq_refl).
Defined.

Lemma increaseDifficulty_too_soon (r : Release) (t : Z) (g : Game) :
  u32 (t - lastIncreaseTime g) < 1000 -> increaseDifficulty r t g = g.
Proof.
  intros H. unfold increaseDifficulty.
  destruct (u32 (t - lastIncreaseTime g) >=? 1000) eqn:E.
  - rewrite Z.geb_leb in E. apply Z.leb_le in E. lia.
  - now rewrite andb_false_r.
Qed.

(** X20.  The ramp takes at most one step per second: calls whose clock
    value is less than 1000 ms after [lastIncreaseTime] change nothing,
    however many there are and whatever the elapsed time. *)
Theorem no_second_step_within_a_second :
  forall (r : Release) (times : list Z) (g : Game),
    (forall t, In t times -> u32 (t - lastIncreaseTime g) < 1000) ->
    ramp r times g = g.
Proof.
  intros r times. induction times as [|t times IH]; intros g H; [reflexivity|].
  cbn [ramp fold_left].
  rewrite increaseDifficulty_too_soon by (apply H; now left).
  apply IH. intros t' Ht'. apply H. now right.
Qed.

Lemma no_second_step_within_a_second_witness :
  let g := increaseDifficulty Original 20000 (sessionAt5000 Original) in
  let times := [20016; 20032; 20500; 20999] in
  spawnRate g = 60
  /\ (forall t, In t times -> u32 (t - lastIncreaseTime g) < 1000)
  /\ ramp Original times g = g.
Proof.
  intros g times.
  assert (H : forall t, In t times -> u32 (t - lastIncreaseTime g) < 1000).
  { intros t Ht. cbn in Ht.
    repeat (destruct Ht as [<- | Ht]; [reflexivity|]). contradiction. }
  split; [reflexivity|]. split; [exact H|].
  exact (no_second_step_within_a_second Original times g H).
Defined.

(** X21.  A session does not get to play at the reset difficulty: the
    first call of [increaseDifficulty] within the first second of a
    session, made at least a second after the previous step, already
    takes [spawnRate] from 80 to 60 and [obstacleSpeed] from 6 to 8. *)
Theorem first_tick_steps_difficulty :
  forall (r : Release) (t : Z) (g : Game),
    spawnRate g = 80 ->
    obstacleSpeed g = 6 ->
    u32 (t - startTime g) < 1000 ->
    1000 <= u32 (t - lastIncreaseTime g) ->
    spawnRate (increaseDifficulty r t g) = 60
    /\ obstacleSpeed (increaseDifficulty r t g) = 8
    /\ lastIncreaseTime (increaseDifficulty r t g) = t.
Proof.
  intros r t g H80 H6 Hfirst Hlast. unfold increaseDifficulty.
  assert (H0 : u32 (t - startTime g) ÷ 1000 = 0).
  { apply Z.quot_small. split; [apply Z.mod_pos_bound; reflexivity|exact Hfirst]. }
  rewrite H0.
  assert (Hrem : (Z.rem 0 (rampInterval r) =? 0) = true) by (now destruct r).
  rewrite Hrem.
  assert (Hge : (u32 (t - lastIncreaseTime g) >=? 1000) = true)
    by (rewrite Z.geb_leb; now apply Z.leb_le).
  rewrite Hge, H80. cbn [andb].
  destruct r; cbn; rewrite H6; cbn; now repeat split.
Qed.

Lemma first_tick_steps_difficulty_witness :
  let g := sessionAt5000 Revised in
  spawnRate g = 80 /\ obstacleSpeed g = 6
  /\ u32 (5016 - startTime g) < 1000
  /\ 1000 <= u32 (5016 - lastIncreaseTime g)
  /\ spawnRate (increaseDifficulty Revised 5016 g) = 60
  /\ obstacleSpeed (increaseDifficulty Revised 5016 g) = 8
  /\ lastIncreaseTime (increaseDifficulty Revised 5016 g) = 5016.
Proof.
  intros g.
  assert (H3 : u32 (5016 - startTime g) < 1000) by reflexivity.
  assert (H4 : 1000 <= u32 (5016 - lastIncreaseTime g)) by (vm_compute; discriminate).
  split; [reflexivity|]. split; [reflexivity|].
  split; [exact H3|]. split; [exact H4|].
  exact (first_tick_steps_difficulty Revised 5016 g eq_refl eq_refl H3 H4).
Defined.

(* ================================================================= *)
(** ** More on the cars *)

Lemma increaseDifficulty_cars (r : Release) (t : Z) (g : Game) :
  blueCar (increaseDifficulty r t g) = blueCar g
  /\ redCar (increaseDifficulty r t g) = redCar g.
Proof.
  unfold increaseDifficulty.
  destruct (_ && _); [|now split].
  destruct (spawnRate g >? spawnRateGuard r); cbn;
    destruct (_ <? 15); cbn; now split.
Qed.

(** In [NORMAL_MODE] a tick takes each car through one frame of its
    animations and does nothing else to it. *)
Lemma update_car_frames (r : Release) (i : TickInput) (g : Game) :
  currentState g = NORMAL_MODE ->
  blueCar (update r i g)
  = carFrame (tBlueRotation i, tBlueMovement i) (blueCar g)
  /\ redCar (update r i g)
     = carFrame (tRedRotation i, tRedMovement i) (redCar g).
Proof.
  intros Hplay. unfold update, carFrame. rewrite Hplay.
  cbn [blueCar redCar set_blueCar set_redCar fst snd].
  destruct (spawnObstacle_other_fields (lanes i) (coin0 i) (coin1 i)
              (uninitTexture i)
              (increaseDifficulty r (tDifficulty i)
                 (checkCollision r (updateObstacles g))))
    as (_ & _ & -> & -> & _).
  destruct (increaseDifficulty_cars r (tDifficulty i)
              (checkCollision r (updateObstacles g))) as [-> ->].
  rewrite (cr_blueCar _ _ _ (checkCollision_result r (updateObstacles g))).
  rewrite (cr_redCar _ _ _ (checkCollision_result r (updateObstacles g))).
  rewrite (cf_blueCar _ _ (updateObstacles_frame g)).
  rewrite (cf_redCar _ _ (updateObstacles_frame g)).
  now split.
Qed.

(** A started movement, taken through frames that come before its end
    and then through one that does not, ends on its target. *)
Lemma lane_change_completes (home other t1 t2 : Z) (ts : list (Z * Z))
    (tr tm : Z) (c : Car) :
  Forall (movementUnderWay t1) ts ->
  moveDuration <= u32 (tm - t1) ->
  let c0 := startToggle home other t1 t2 c in
  moving (carFrames ts c0) = true
  /\ rx (carRect (carFrame (tr, tm) (carFrames ts c0)))
     = (if rx (carRect c) =? home then other else home)
  /\ moving (carFrame (tr, tm) (carFrames ts c0)) = false.
Proof.
  intros Hts Hdone c0.
  destruct (startToggle_starts home other t1 t2 c) as (_ & Hm & _ & Ht & Hx).
  fold c0 in Hm, Ht, Hx.
  destruct (carFrames_movement_under_way ts c0 Hm) as (Hm' & Hs' & Hx');
    [now rewrite Ht|].
  split; [exact Hm'|].
  destruct (updateRotation_keeps tr (carFrames ts c0)) as (_ & Hm2 & Hs2 & Hx2 & _).
  unfold carFrame. cbn [fst snd].
  rewrite <- Hx, <- Hx', <- Hx2.
  apply updateMovement_end; [now rewrite Hm2|].
  rewrite Hs2, Hs', Ht. lia.
Qed.

(** X22.  Changing lane: in [NORMAL_MODE] the key [a] sends the blue car
    to LANE_2 when it stands exactly on LANE_1 and to LANE_1 from
    anywhere else (also from between the lanes), and [d] does the same
    for the red car with LANE_4 and LANE_3.  The car is then taken
    through the frames of the following ticks ([updateRotation], then
    [updateMovement]): as long as these come less than 200 ms after the
    key press the movement stays switched on, and the first frame that
    comes 200 ms or more after it puts the car on that lane and switches
    the movement off.  The other car and the rest of the game are not
    touched by the key. *)
Theorem lane_keys_toggle :
  forall (r : Release) (mx my t1 t2 : Z) (ts : list (Z * Z)) (tr tm : Z)
         (g : Game),
    currentState g = NORMAL_MODE ->
    Forall (movementUnderWay t1) ts ->
    moveDuration <= u32 (tm - t1) ->
    let ga := handleEvents r (SDL_KEYDOWN SDLK_a) mx my t1 t2 g in
    let gd := handleEvents r (SDL_KEYDOWN SDLK_d) mx my t1 t2 g in
    let blue := carFrames ts (blueCar ga) in
    let red := carFrames ts (redCar gd) in
    moving blue = true
    /\ rx (carRect (carFrame (tr, tm) blue))
       = (if rx (carRect (blueCar g)) =? LANE_1 then LANE_2 else LANE_1)
    /\ moving (carFrame (tr, tm) blue) = false
    /\ redCar ga = redCar g
    /\ moving red = true
    /\ rx (carRect (carFrame (tr, tm) red))
       = (if rx (carRect (redCar g)) =? LANE_4 then LANE_3 else LANE_4)
    /\ moving (carFrame (tr, tm) red) = false
    /\ blueCar gd = blueCar g
    /\ set_blueCar (blueCar g) ga = g
    /\ set_redCar (redCar g) gd = g.
Proof.
  intros r mx my t1 t2 ts tr tm g Hplay Hts Hdone ga gd blue red.
  assert (Ha : ga = set_blueCar (startToggle LANE_1 LANE_2 t1 t2 (blueCar g)) g).
  { unfold ga, handleEvents. rewrite Hplay. now destruct r. }
  assert (Hd : gd = set_redCar (startToggle LANE_4 LANE_3 t1 t2 (redCar g)) g).
  { unfold gd, handleEvents. rewrite Hplay. now destruct r. }
  unfold blue, red. rewrite Ha, Hd. cbn [blueCar redCar set_blueCar set_redCar].
  destruct (lane_change_completes LANE_1 LANE_2 t1 t2 ts tr tm (blueCar g)
              Hts Hdone) as (B1 & B2 & B3).
  destruct (lane_change_completes LANE_4 LANE_3 t1 t2 ts tr tm (redCar g)
              Hts Hdone) as (R1 & R2 & R3).
  split; [exact B1|]. split; [exact B2|]. split; [exact B3|].
  split; [reflexivity|].
  split; [exact R1|]. split; [exact R2|]. split; [exact R3|].
  split; [reflexivity|].
  split; now destruct g.
Qed.

Lemma lane_keys_toggle_witness :
  let g := sessionAt5000 Revised in
  let ts := [(6000, 6000); (6016, 6016); (6100, 6100); (6199, 6199)] in
  let ga := handleEvents Revised (SDL_KEYDOWN SDLK_a) 0 0 6000 6000 g in
  let blue := carFrames ts (blueCar ga) in
  currentState g = NORMAL_MODE
  /\ Forall (movementUnderWay 6000) ts
  /\ moveDuration <= u32 (6208 - 6000)
  /\ map (fun n => rx (carRect (carFrames (firstn n ts) (blueCar ga))))
         [0; 1; 2; 3; 4]%nat
     = [30; 30; 38; 84; 130]
  /\ moving blue = true
  /\ rx (carRect (carFrame (6208, 6208) blue)) = LANE_2
  /\ moving (carFrame (6208, 6208) blue) = false.
Proof.
  intros g ts ga blue.
  assert (H1 : currentState g = NORMAL_MODE) by reflexivity.
  assert (H2 : Forall (movementUnderWay 6000) ts)
    by (repeat apply Forall_cons; try apply Forall_nil; reflexivity).
  assert (H3 : moveDuration <= u32 (6208 - 6000)) by (vm_compute; discriminate).
  destruct (lane_keys_toggle Revised 0 0 6000 6000 ts 6208 6208 g H1 H2 H3)
    as (B1 & B2 & B3 & _).
  split; [exact H1|]. split; [exact H2|]. split; [exact H3|].
  split; [reflexivity|].
  split; [exact B1|]. split; [exact B2|exact B3].
Defined.

(** The interpolating branch, by name. *)
Lemma updateMovement_interpolates (now : Z) (c : Car) :
  moving c = true ->
  u32 (now - moveStartTime c) < moveDuration ->
  rx (carRect (updateMovement now c))
  = interpolate (u32 (now - moveStartTime c)) (rx (carRect c)) (targetX c).
Proof.
  intros Hm Hlt. unfold updateMovement. rewrite Hm.
  apply Z.ltb_lt in Hlt. rewrite Hlt. reflexivity.
Qed.

(** Rounding at work: three quarters of the way from 105 to 30 the sum is
    a little below 63 and the conversion to [int] cuts it down to 62. *)
Example interpolate_rounds :
  interpolate 112 105 30 = 62
  /\ interpolate 50 30 131 = 55
  /\ interpolate 0 30 131 = 30
  /\ interpolate 199 30 131 = 130.
Proof. repeat apply conj; vm_compute; reflexivity. Qed.

Lemma range_In (lo z : Z) (n : nat) :
  lo <= z < lo + Z.of_nat n -> In z (range lo n).
Proof.
  intros H. unfold range. apply in_map_iff.
  exists (Z.to_nat (z - lo)). split; [lia|].
  apply in_seq. lia.
Qed.

Lemma between_spec (a b x : Z) :
  between a b x = true -> Z.min a b <= x <= Z.max a b.
Proof.
  unfold between. intros H. apply andb_true_iff in H as [H1 H2].
  apply Z.leb_le in H1, H2. now split.
Qed.

Lemma laneChangeChecked_sound (lo hi : Z) :
  laneChangeChecked lo hi = true ->
  forall e x tx,
    0 <= e < moveDuration ->
    lo <= x <= hi ->
    tx = lo \/ tx = hi ->
    Z.min x tx <= interpolate e x tx <= Z.max x tx.
Proof.
  intros Hchk e x tx He Hx Htx. unfold laneChangeChecked in Hchk.
  rewrite forallb_forall in Hchk.
  assert (Hin : In e (range 0 (Z.to_nat moveDuration))).
  { apply range_In. change (Z.of_nat (Z.to_nat moveDuration)) with moveDuration.
    lia. }
  specialize (Hchk e Hin). cbv zeta in Hchk.
  rewrite forallb_forall in Hchk.
  assert (Hin' : In x (range lo (Z.to_nat (hi - lo + 1)))).
  { apply range_In. lia. }
  specialize (Hchk x Hin').
  apply andb_true_iff in Hchk as [Hlo Hhi].
  destruct Htx as [-> | ->]; apply between_spec; assumption.
Qed.

(** Both pairs of lanes pass the check. *)
Lemma lanes_checked :
  laneChangeChecked LANE_1 LANE_2 = true
  /\ laneChangeChecked LANE_3 LANE_4 = true.
Proof. split; vm_compute; reflexivity. Qed.

(** X24.  While a lane change lasts, [updateMovement] keeps the car
    between where it is and where it is going.  For a car that is
    anywhere from one of its two lanes to the other (LANE_1 and LANE_2
    for the blue car, LANE_3 and LANE_4 for the red one) and is moving to
    either of them, the new x lies between the old x and [targetX],
    whatever the elapsed time, with the position computed in [double]
    arithmetic as the program does. *)
Theorem updateMovement_never_overshoots :
  forall (now : Z) (c : Car) (lo hi : Z),
    moving c = true ->
    (lo = LANE_1 /\ hi = LANE_2) \/ (lo = LANE_3 /\ hi = LANE_4) ->
    lo <= rx (carRect c) <= hi ->
    targetX c = lo \/ targetX c = hi ->
    Z.min (rx (carRect c)) (targetX c)
    <= rx (carRect (updateMovement now c))
    <= Z.max (rx (carRect c)) (targetX c).
Proof.
  intros now c lo hi Hm Hlanes Hx Htx.
  pose proof (Z.mod_pos_bound (now - moveStartTime c) (2 ^ 32) eq_refl) as He.
  fold (u32 (now - moveStartTime c)) in He.
  destruct (Z.lt_ge_cases (u32 (now - moveStartTime c)) moveDuration) as [Hlt | Hge].
  - rewrite (updateMovement_interpolates now c Hm Hlt).
    assert (Hchk : laneChangeChecked lo hi = true).
    { destruct Hlanes as [[-> ->] | [-> ->]];
        [exact (proj1 lanes_checked)|exact (proj2 lanes_checked)]. }
    apply (laneChangeChecked_sound lo hi Hchk); [lia|exact Hx|exact Htx].
  - destruct (updateMovement_end now c Hm) as [-> _]; lia.
Qed.

Lemma updateMovement_never_overshoots_witness :
  let c := carFrames [(1010, 1010); (1090, 1090)]
             (startToggle LANE_1 LANE_2 1000 1000 (newCar blueRest)) in
  moving c = true
  /\ ((LANE_1 = LANE_1 /\ LANE_2 = LANE_2) \/ (LANE_1 = LANE_3 /\ LANE_2 = LANE_4))
  /\ LANE_1 <= rx (carRect c) <= LANE_2
  /\ (targetX c = LANE_1 \/ targetX c = LANE_2)
  /\ rx (carRect c) = 78
  /\ rx (carRect (updateMovement 1150 c)) = 117
  /\ Z.min (rx (carRect c)) (targetX c)
     <= rx (carRect (updateMovement 1150 c))
     <= Z.max (rx (carRect c)) (targetX c).
Proof.
  intros c.
  assert (H1 : moving c = true) by reflexivity.
  assert (H2 : (LANE_1 = LANE_1 /\ LANE_2 = LANE_2)
               \/ (LANE_1 = LANE_3 /\ LANE_2 = LANE_4)) by (left; now split).
  assert (Hx : rx (carRect c) = 78) by reflexivity.
  assert (H3 : LANE_1 <= rx (carRect c) <= LANE_2)
    by (rewrite Hx; split; discriminate).
  assert (H4 : targetX c = LANE_1 \/ targetX c = LANE_2)
    by (right; reflexivity).
  split; [exact H1|]. split; [exact H2|]. split; [exact H3|].
  split; [exact H4|].
  split; [exact Hx|]. split; [reflexivity|].
  exact (updateMovement_never_overshoots 1150 c LANE_1 LANE_2 H1 H2 H3 H4).
Defined.

(* ================================================================= *)
(** ** The menu text *)

Lemma updateMenuAnimation_in_range (m : MenuText) :
  menuTextInRange m ->
  menuTextInRange (updateMenuAnimation m)
  /\ initialPlayTextYPosition (updateMenuAnimation m) = initialPlayTextYPosition m
  /\ playTextRect1_y (updateMenuAnimation m) = playTextYPosition (updateMenuAnimation m)
  /\ playTextRect2_y (updateMenuAnimation m)
     = playTextYPosition (updateMenuAnimation m) + playTextRect1_h m
  /\ Z.abs (playTextYPosition (updateMenuAnimation m) - playTextYPosition m) = 1.
Proof.
  unfold menuTextInRange, updateMenuAnimation, textSpeed, animationRange.
  intros (Hd & Hr & Hup & Hdown).
  cbn [playTextYPosition playTextDirection initialPlayTextYPosition
       playTextRect1_y playTextRect1_h playTextRect2_y].
  destruct (playTextYPosition m + 1 * playTextDirection m
            <=? initialPlayTextYPosition m - 10) eqn:E1;
    destruct (playTextYPosition m + 1 * playTextDirection m
              >=? initialPlayTextYPosition m + 10) eqn:E2;
    cbn [orb]; rewrite ?Z.geb_leb in E2;
    try apply Z.leb_le in E1; try apply Z.leb_gt in E1;
    try apply Z.leb_le in E2; try apply Z.leb_gt in E2;
    destruct Hd as [Hd | Hd]; rewrite Hd in *; repeat split; lia.
Qed.

(** X23.  The "Press Any Key" text bobs within ten pixels of where it
    started: from a state as [loadAssets] leaves it (or any state within
    range whose direction is 1 or -1 and points inwards at the ends),
    every number of menu ticks leaves the text within [animationRange] of
    its initial position, with the second line exactly one line height
    below the first. *)
Theorem menu_text_stays_in_range :
  forall (n : nat) (m : MenuText),
    menuTextInRange m ->
    menuTextInRange (menuTicks n m)
    /\ initialPlayTextYPosition (menuTicks n m) = initialPlayTextYPosition m
    /\ playTextRect1_h (menuTicks n m) = playTextRect1_h m
    /\ (n <> 0%nat ->
        playTextRect1_y (menuTicks n m) = playTextYPosition (menuTicks n m)
        /\ playTextRect2_y (menuTicks n m)
           = playTextYPosition (menuTicks n m) + playTextRect1_h m).
Proof.
  induction n as [|n IH]; intros m Hm.
  - cbn. split; [exact Hm|]. split; [reflexivity|]. split; [reflexivity|].
    intros H; now elim H.
  - destruct (IH m Hm) as (Hin & Hinit & Hh & _).
    change (menuTicks (S n) m) with (updateMenuAnimation (menuTicks n m)).
    destruct (updateMenuAnimation_in_range _ Hin) as (H1 & H2 & H3 & H4 & _).
    split; [exact H1|]. split; [congruence|].
    split; [unfold updateMenuAnimation; cbn; exact Hh|].
    intros _. split; [exact H3|]. rewrite H4. now rewrite Hh.
Qed.

Lemma menu_text_stays_in_range_witness :
  menuTextInRange restingMenu
  /\ playTextYPosition (menuTicks 10 restingMenu) = 350
  /\ playTextYPosition (menuTicks 30 restingMenu) = 330
  /\ menuTicks 40 restingMenu = restingMenu
  /\ menuTextInRange (menuTicks 25 restingMenu).
Proof.
  assert (H : menuTextInRange restingMenu).
  { unfold menuTextInRange, restingMenu, animationRange. cbn. lia. }
  split; [exact H|]. split; [reflexivity|]. split; [reflexivity|].
  split; [reflexivity|].
  exact (proj1 (menu_text_stays_in_range 25 restingMenu H)).
Defined.

(* ================================================================= *)
(** ** Geometry of lanes and cars *)

Lemma car_meets_obstacle_in_its_lane (x oy : Z) :
  In x [LANE_1; LANE_2; LANE_3; LANE_4] ->
  SDL_HasIntersection (carOn x) (obstacleOn x oy) = (580 <? oy) && (oy <? 685).
Proof.
  intros Hx.
  unfold SDL_HasIntersection, SDL_RectEmpty, carOn, obstacleOn, overlap1.
  cbn in Hx.
  repeat (destruct Hx as [<- | Hx]; [| ]); try contradiction; cbn;
    destruct (oy >? 620) eqn:E1; destruct (oy + 40 <? 685) eqn:E2;
    rewrite ?Z.gtb_ltb in E1;
    try apply Z.ltb_lt in E1; try apply Z.ltb_ge in E1;
    try apply Z.ltb_lt in E2; try apply Z.ltb_ge in E2;
    repeat match goal with
           | |- context [?a <? ?b] => destruct (Z.ltb_spec a b)
           | |- context [?a <=? ?b] => destruct (Z.leb_spec a b)
           end; cbn; try reflexivity; lia.
Qed.

(** X26.  A car standing on a lane and an obstacle on a lane touch only
    if both are on the same lane, and then exactly while the obstacle's
    [y] is strictly between [car y - 40] and [car y + 65]: with the car at
    its usual height 620 that is [580 < y < 685].  Obstacles on another
    lane never touch the car, at any height. *)
Theorem contact_window :
  forall (cx ox oy : Z),
    In cx [LANE_1; LANE_2; LANE_3; LANE_4] ->
    In ox [LANE_1; LANE_2; LANE_3; LANE_4] ->
    SDL_HasIntersection (carOn cx) (obstacleOn ox oy)
    = (cx =? ox) && (580 <? oy) && (oy <? 685).
Proof.
  intros cx ox oy Hc Ho.
  destruct (Z.eq_dec cx ox) as [<- | Hne].
  - rewrite Z.eqb_refl. now apply car_meets_obstacle_in_its_lane.
  - unfold SDL_HasIntersection, SDL_RectEmpty, carOn, obstacleOn, overlap1.
    cbn in Hc, Ho.
    repeat (destruct Hc as [<- | Hc]; [| ]); try contradiction;
      repeat (destruct Ho as [<- | Ho]; [| ]); try contradiction;
      try (now elim Hne); reflexivity.
Qed.

Lemma contact_window_witness :
  In LANE_4 [LANE_1; LANE_2; LANE_3; LANE_4]
  /\ In LANE_3 [LANE_1; LANE_2; LANE_3; LANE_4]
  /\ SDL_HasIntersection (carOn LANE_4) (obstacleOn LANE_3 640) = false
  /\ SDL_HasIntersection (carOn LANE_4) (obstacleOn LANE_4 640) = true
  /\ SDL_HasIntersection (carOn LANE_4) (obstacleOn LANE_4 580) = false.
Proof.
  assert (H4 : In LANE_4 [LANE_1; LANE_2; LANE_3; LANE_4]) by (cbn; auto).
  assert (H3 : In LANE_3 [LANE_1; LANE_2; LANE_3; LANE_4]) by (cbn; auto).
  split; [exact H4|]. split; [exact H3|]. split.
  - rewrite (contact_window LANE_4 LANE_3 640 H4 H3). reflexivity.
  - split; reflexivity.
Defined.

(** X27.  No tunnelling: an obstacle in the lane of a resting car that is
    still above the contact window cannot get past the car in one move of
    at most 104 pixels - after the move it either touches the car or is
    still above the window.  ([obstacleSpeed] never exceeds 16.) *)
Theorem no_tunnelling :
  forall (x oy speed : Z),
    In x [LANE_1; LANE_2; LANE_3; LANE_4] ->
    oy <= 580 ->
    0 <= speed <= 104 ->
    SDL_HasIntersection (carOn x) (obstacleOn x (oy + speed)) = true
    \/ oy + speed <= 580.
Proof.
  intros x oy speed Hx Hoy Hs.
  rewrite (car_meets_obstacle_in_its_lane x (oy + speed) Hx).
  destruct (Z.ltb_spec 580 (oy + speed)); [left|right; lia].
  cbn [andb]. apply Z.ltb_lt. lia.
Qed.

Lemma no_tunnelling_witness :
  In LANE_1 [LANE_1; LANE_2; LANE_3; LANE_4]
  /\ 570 <= 580
  /\ 0 <= 16 <= 104
  /\ (SDL_HasIntersection (carOn LANE_1) (obstacleOn LANE_1 (570 + 16)) = true
      \/ 570 + 16 <= 580).
Proof.
  assert (H1 : In LANE_1 [LANE_1; LANE_2; LANE_3; LANE_4]) by (cbn; auto).
  assert (H2 : 570 <= 580) by lia.
  assert (H3 : 0 <= 16 <= 104) by lia.
  split; [exact H1|]. split; [exact H2|]. split; [exact H3|].
  exact (no_tunnelling LANE_1 570 16 H1 H2 H3).
Defined.

(** X25.  The recoil angle stays between 0 and 15 degrees: whatever the
    clock, [updateRotation] takes a car whose angle is in that range to
    one whose angle is in that range ([angle] taken as a real number). *)
Theorem rotation_angle_bounded :
  forall (now : Z) (c : Car),
    (0 <= angle c <= 15)%R ->
    (0 <= angle (updateRotation now c) <= 15)%R.
Proof.
  intros now c Hc. unfold updateRotation.
  destruct (rotating c); [|exact Hc].
  pose proof (Z.mod_pos_bound (now - rotationStartTime c) (2 ^ 32) eq_refl) as He.
  fold (u32 (now - rotationStartTime c)) in He.
  destruct (u32 (now - rotationStartTime c) <? rotationDuration) eqn:E.
  - apply Z.ltb_lt in E. cbn [angle set_angle].
    set (e := u32 (now - rotationStartTime c)) in *.
    assert (H0 : (0 <= IZR e)%R) by (apply IZR_le; lia).
    assert (H1 : (IZR e <= 200)%R) by (apply IZR_le; unfold rotationDuration in E; lia).
    pose proof PI_RGT_0 as Hpi.
    assert (Ha : (0 <= PI / IZR rotationDuration * IZR e)%R).
    { unfold rotationDuration. apply Rmult_le_pos; [|exact H0].
      apply Rlt_le, Rdiv_lt_0_compat; lra. }
    assert (Hb : (PI / IZR rotationDuration * IZR e <= PI)%R).
    { unfold rotationDuration. unfold Rdiv.
      replace PI with (PI * / 200 * 200)%R at 2 by (field; lra).
      apply Rmult_le_compat_l; [|exact H1].
      apply Rlt_le, Rmult_lt_0_compat; [lra|]. apply Rinv_0_lt_compat. lra. }
    pose proof (sin_ge_0 _ Ha Hb) as Hs0.
    pose proof (SIN_bound (PI / IZR rotationDuration * IZR e)) as [_ Hs1].
    split; lra.
  - cbn. lra.
Qed.

Lemma rotation_angle_bounded_witness :
  let c := startToggle LANE_1 LANE_2 1000 1000 (newCar blueRest) in
  (0 <= angle c <= 15)%R
  /\ (0 <= angle (updateRotation 1100 c) <= 15)%R.
Proof.
  intros c.
  assert (H : (0 <= angle c <= 15)%R) by (cbn; lra).
  split; [exact H|]. exact (rotation_angle_bounded 1100 c H).
Defined.

(* ================================================================= *)
(** ** The obstacle list between ticks *)

Lemma mark_destRect (red blue : SDL_Rect) (o : Entity) :
  destRect (mark red blue o) = destRect o.
Proof. unfold mark. now destruct (picked red blue o). Qed.

Lemma checkCollision_keeps_on_screen (r : Release) (g : Game) :
  Forall (fun o => ry (destRect o) <= SCREEN_HEIGHT) (obstacles g) ->
  Forall (fun o => collected o = false /\ ry (destRect o) <= SCREEN_HEIGHT)
         (obstacles (checkCollision r g)).
Proof.
  intros Hg. rewrite (cr_obstacles _ _ _ (checkCollision_result r g)).
  apply Forall_forall. intros o Ho. apply filter_In in Ho as [Ho Hu].
  split; [now apply negb_true_iff in Hu|].
  apply in_map_iff in Ho as (o0 & <- & Ho0). rewrite mark_destRect.
  now apply (proj1 (Forall_forall _ _) Hg).
Qed.

Lemma updateObstacles_on_screen (g : Game) :
  Forall (fun o => ry (destRect o) <= SCREEN_HEIGHT) (obstacles (updateObstacles g)).
Proof.
  rewrite updateObstacles_obstacles. apply Forall_forall.
  intros o Ho. apply filter_In in Ho as [_ Ho].
  unfold offScreen in Ho. now apply negb_true_iff, Z.ltb_ge in Ho.
Qed.

(** X28.  After every tick of a running game each obstacle in the list is
    uncollected and at [y <= SCREEN_HEIGHT] - whatever the list was
    before.  The [collected] flag is therefore never left set between
    ticks: an entity that gets collected is erased in the same tick. *)
Theorem obstacles_after_tick :
  forall (r : Release) (i : TickInput) (g : Game),
    currentState g = NORMAL_MODE ->
    Forall (fun o => collected o = false /\ ry (destRect o) <= SCREEN_HEIGHT)
           (obstacles (update r i g)).
Proof.
  intros r i g Hplay. unfold update. rewrite Hplay.
  cbn [obstacles set_redCar set_blueCar].
  set (g2 := checkCollision r (updateObstacles g)).
  assert (H2 : Forall (fun o => collected o = false
                                /\ ry (destRect o) <= SCREEN_HEIGHT)
                      (obstacles g2))
    by (apply checkCollision_keeps_on_screen, updateObstacles_on_screen).
  set (g3 := increaseDifficulty r (tDifficulty i) g2).
  assert (H3 : obstacles g3 = obstacles g2)
    by (apply (increaseDifficulty_other_fields r (tDifficulty i) g2)).
  rewrite <- H3 in H2.
  destruct (Z.eq_dec (patternTimer g3) 0) as [Hz | Hnz].
  - rewrite (spawnObstacle_obstacles _ _ _ _ g3 Hz).
    apply Forall_app. split; [exact H2|].
    pose proof (firstSpawn_fresh (lanes i) (coin0 i) (uninitTexture i) g3)
      as (Hc0 & _ & _ & Hy0 & _).
    pose proof (secondSpawn_fresh (lanes i) (coin0 i) (coin1 i)
                  (uninitTexture i) g3)
      as (Hc1 & _ & _ & Hy1 & _).
    repeat apply Forall_cons; try apply Forall_nil;
      (split; [assumption|unfold SCREEN_HEIGHT; lia]).
  - now rewrite (proj1 (spawnObstacle_waits (lanes i) (coin0 i) (coin1 i)
                         (uninitTexture i) g3 Hnz)).
Qed.

Lemma obstacles_after_tick_witness :
  let old := mkEntity (Some redCircle) (mkRect LANE_4 900 40 40) true in
  let g := set_currentState NORMAL_MODE
             (set_obstacles [old] (newGame emptyDisk restingMenu 0)) in
  currentState g = NORMAL_MODE
  /\ Forall (fun o => collected o = false /\ ry (destRect o) <= SCREEN_HEIGHT)
            (obstacles (update Original (quietTick 3000) g)).
Proof.
  intros old g. split; [reflexivity|].
  exact (obstacles_after_tick Original (quietTick 3000) g eq_refl).
Defined.

(* ================================================================= *)
(** ** Going back to the menu *)

(** X29.  The game returns to the menu by Escape while playing, or from
    the death screen by the home key or a click inside the home button
    that is not inside the restart button - and by nothing else.  Coming
    from the death screen, both releases reset score, obstacles,
    [spawnRate] and [obstacleSpeed]; Escape does so in the revised
    release and changes nothing but the state in the original one. *)
Theorem returning_to_menu :
  forall (r : Release) (event : SDL_Event) (mx my t1 t2 : Z) (g : Game),
    currentState g <> MAIN_MENU ->
    let g' := handleEvents r event mx my t1 t2 g in
    (currentState g' = MAIN_MENU
     <-> match currentState g, event with
         | NORMAL_MODE, SDL_KEYDOWN sym => sym = SDLK_ESCAPE
         | DEATH_SCREEN, SDL_KEYDOWN sym => sym = SDLK_h
         | DEATH_SCREEN, SDL_MOUSEBUTTONDOWN _ =>
             clicked restartButtonRect mx my = false
             /\ clicked homeButtonRect mx my = true
         | _, _ => False
         end)
    /\ (currentState g' = MAIN_MENU ->
        match r, currentState g with
        | Original, NORMAL_MODE => g' = set_currentState MAIN_MENU g
        | _, _ => sessionFieldsReset g'
        end).
Proof.
  intros r event mx my t1 t2 g Hfrom g'. unfold g', handleEvents, laneKeys.
  destruct r, event as [|sym|button|], (currentState g) eqn:E;
    try (now elim Hfrom); cbn; rewrite ?E;
    try (destruct (sym =? SDLK_ESCAPE) eqn:Ee;
         [apply Z.eqb_eq in Ee | apply Z.eqb_neq in Ee]);
    try destruct (sym =? SDLK_a); try destruct (sym =? SDLK_d);
    try (destruct (sym =? SDLK_r) eqn:Er;
         [apply Z.eqb_eq in Er | apply Z.eqb_neq in Er]);
    try (destruct (sym =? SDLK_h) eqn:Eh;
         [apply Z.eqb_eq in Eh | apply Z.eqb_neq in Eh]);
    try destruct (clicked restartButtonRect mx my);
    try destruct (clicked homeButtonRect mx my);
    cbn; rewrite ?E; unfold sessionFieldsReset;
    (split; [split|]); try (intros H; discriminate H); try tauto;
    try (intros; subst; discriminate); try (intros [H1 H2]; discriminate);
    try reflexivity; try (intros _; now repeat split);
    try (intros _; assumption).
Qed.

Lemma returning_to_menu_witness :
  let g := set_score 4 (set_currentState DEATH_SCREEN
             (newGame emptyDisk restingMenu 0)) in
  currentState g <> MAIN_MENU
  /\ currentState (handleEvents Original (SDL_MOUSEBUTTONDOWN 1) 200 400 0 0 g)
     = MAIN_MENU
  /\ sessionFieldsReset (handleEvents Original (SDL_MOUSEBUTTONDOWN 1) 200 400 0 0 g).
Proof.
  intros g.
  assert (H : currentState g <> MAIN_MENU) by discriminate.
  split; [exact H|]. split; [reflexivity|].
  exact (proj2 (returning_to_menu Original (SDL_MOUSEBUTTONDOWN 1) 200 400 0 0 g H)
           eq_refl).
Defined.

(* ================================================================= *)
(** ** Reading the file back *)

Lemma to_int32_range (u : Z) : INT_MIN <= to_int32 u <= INT_MAX.
Proof.
  unfold to_int32, INT_MIN, INT_MAX. pose proof (u32_range u) as H.
  destruct (u32 u <? 2 ^ 31) eqn:E;
    [apply Z.ltb_lt in E | apply Z.ltb_ge in E]; lia.
Qed.

Lemma bytes_of_int_of_bytes (b0 b1 b2 b3 : Z) :
  0 <= b0 < 256 -> 0 <= b1 < 256 -> 0 <= b2 < 256 -> 0 <= b3 < 256 ->
  bytes_of_int (int_of_bytes [b0; b1; b2; b3]) = [b0; b1; b2; b3].
Proof.
  intros H0 H1 H2 H3. unfold bytes_of_int, int_of_bytes. cbn [fold_right].
  rewrite u32_to_int32.
  rewrite u32_small by (change (2 ^ 32) with 4294967296; lia).
  change 255 with (Z.ones 8). rewrite !Z.land_ones, !Z.shiftr_div_pow2 by lia.
  change (2 ^ 8) with 256. change (2 ^ 16) with 65536.
  change (2 ^ 24) with 16777216.
  repeat f_equal; Z.div_mod_to_equations; lia.
Qed.

(** X30.  In the revised release loading and saving again leaves the
    file as it was: for a [player.dat] of exactly four bytes, [init]
    followed by [clean] writes back the same four bytes, and the
    highscore loaded from it is a 32-bit [int], whatever the bytes are. *)
Theorem load_then_save_keeps_file :
  forall (d : Disk) (m : MenuText) (now uninit : Z) (bs : list Z),
    player_dat d = Some bs ->
    List.length bs = 4%nat ->
    Forall (fun b => 0 <= b < 256) bs ->
    writable d = true ->
    disk (clean Revised (init Revised d m now uninit)) = d
    /\ INT_MIN <= highscore (init Revised d m now uninit) <= INT_MAX.
Proof.
  intros d m now uninit bs Hfile Hlen Hbytes W.
  unfold init, clean, loadHighscore, saveHighscore, emit.
  cbn [disk newGame]. rewrite Hfile.
  cbn [disk set_highscore set_effects highscore effects newGame]. rewrite W.
  cbn [disk set_disk highscore].
  split; [|apply to_int32_range].
  rewrite (read_int_full uninit bs Hlen).
  destruct bs as [|b0 [|b1 [|b2 [|b3 [|]]]]]; try discriminate.
  inversion Hbytes as [|? ? H0 Hb1]; subst.
  inversion Hb1 as [|? ? H1 Hb2]; subst.
  inversion Hb2 as [|? ? H2 Hb3]; subst.
  inversion Hb3 as [|? ? H3 _]; subst.
  rewrite xor_key_involutive by apply to_int32_range.
  rewrite bytes_of_int_of_bytes by assumption.
  destruct d as [txt dat w]. cbn in *. now subst.
Qed.

Lemma load_then_save_keeps_file_witness :
  let d := mkDisk None (Some [160; 165; 165; 165]) true in
  player_dat d = Some [160; 165; 165; 165]
  /\ List.length [160; 165; 165; 165] = 4%nat
  /\ Forall (fun b => 0 <= b < 256) [160; 165; 165; 165]
  /\ writable d = true
  /\ highscore (init Revised d restingMenu 0 0) = 5
  /\ disk (clean Revised (init Revised d restingMenu 0 0)) = d
  /\ INT_MIN <= highscore (init Revised d restingMenu 0 0) <= INT_MAX.
Proof.
  intros d.
  assert (H3 : Forall (fun b => 0 <= b < 256) [160; 165; 165; 165])
    by (repeat constructor; lia).
  split; [reflexivity|]. split; [reflexivity|]. split; [exact H3|].
  split; [reflexivity|]. split; [reflexivity|].
  exact (load_then_save_keeps_file d restingMenu 0 0 [160; 165; 165; 165]
           eq_refl eq_refl H3 eq_refl).
Defined.
